(** * ReqGuard: the scoring and workflow core, embedded and verified

    The development follows the Python sources:
    - [checklists.py]: loan-type triggers, the checklist table,
      [detect_loan_type], [get_checklist_for_loan_type];
    - [agents.py]: [check_against_checklist], [calculate_confidence],
      [determine_outcome], [generate_questions];
    - [main.py]: the workflow state, its nodes, [should_continue] and the
      resume operations.

    Python [float] is IEEE-754 binary64; it is modelled by the standard
    library's [spec_float] with [prec = 53] and [emax = 1024], so every
    computed score is the very double the interpreter computes.  Python
    [int] is [Z].  Python [str] is [string]; the case mappings [str.lower]
    and [str.upper] are a parameter of the development (class [StrCase]),
    with the ASCII mappings as one instance. *)

From Stdlib Require Import ZArith List String Ascii Bool Lia Permutation Sorted.
From Stdlib Require Import Floats.SpecFloat.
From Stdlib Require Import DecimalString.
From stdpp Require Import gmap strings list fin_maps.
Import ListNotations.
Open Scope string_scope.
Open Scope list_scope.
Open Scope Z_scope.

(** ** Python strings *)

Module PyStr.

(** [str.lower] and [str.upper]. *)
Class StrCase := { lower : string -> string; upper : string -> string }.

Definition ascii_lower_char (c : ascii) : ascii :=
  let n := nat_of_ascii c in
  if ((65 <=? n)%nat && (n <=? 90)%nat)%bool then ascii_of_nat (n + 32) else c.

Definition ascii_upper_char (c : ascii) : ascii :=
  let n := nat_of_ascii c in
  if ((97 <=? n)%nat && (n <=? 122)%nat)%bool then ascii_of_nat (n - 32) else c.

Fixpoint map_chars (f : ascii -> ascii) (s : string) : string :=
  match s with
  | EmptyString => EmptyString
  | String c t => String (f c) (map_chars f t)
  end.

Definition ascii_case : StrCase :=
  {| lower := map_chars ascii_lower_char; upper := map_chars ascii_upper_char |}.

(** [s.startswith(p)]. *)
Fixpoint startswith (p s : string) : bool :=
  match p, s with
  | EmptyString, _ => true
  | String _ _, EmptyString => false
  | String a p', String b s' => if Ascii.eqb a b then startswith p' s' else false
  end.

(** [needle in hay] on strings: substring containment. *)
Fixpoint str_in (needle hay : string) : bool :=
  if startswith needle hay then true
  else match hay with
       | EmptyString => false
       | String _ t => str_in needle t
       end.

(** [s.replace(old, new)] for a one-character [old] and [new]. *)
Definition replace_char (old new : ascii) (s : string) : string :=
  map_chars (fun c => if Ascii.eqb c old then new else c) s.

(** [any(p(x) for x in l)]. *)
Definition any {A} (p : A -> bool) (l : list A) : bool := existsb p l.

(** [s.replace(old, new)] for a non-empty [old]: the occurrences are
    replaced from left to right, without overlap.  [skip] counts the
    characters of a match still to be dropped. *)
Fixpoint replace_from (old new : string) (skip : nat) (s : string) : string :=
  match s with
  | EmptyString => EmptyString
  | String c t =>
      match skip with
      | S k => replace_from old new k t
      | O => if startswith old s
             then new +:+ replace_from old new (String.length old - 1) t
             else String c (replace_from old new O t)
      end
  end.

Definition replace (old new s : string) : string := replace_from old new O s.

(** The characters [str.strip] removes: those [str.isspace] holds of.  A
    character of [string] is a code point below 256, and among these the
    white space is U+0009 to U+000D, U+001C to U+0020, U+0085 and U+00A0;
    the white space above U+00FF has no character here. *)
Definition is_space (c : ascii) : bool :=
  let n := nat_of_ascii c in
  ((9 <=? n)%nat && (n <=? 13)%nat) || ((28 <=? n)%nat && (n <=? 32)%nat)
  || (n =? 133)%nat || (n =? 160)%nat.

Fixpoint lstrip (s : string) : string :=
  match s with
  | EmptyString => EmptyString
  | String c t => if is_space c then lstrip t else s
  end.

Fixpoint rstrip (s : string) : string :=
  match s with
  | EmptyString => EmptyString
  | String c t =>
      match rstrip t with
      | EmptyString => if is_space c then EmptyString else String c EmptyString
      | t' => String c t'
      end
  end.

Definition strip (s : string) : string := rstrip (lstrip s).

(** [sep.join(l)]. *)
Fixpoint join (sep : string) (l : list string) : string :=
  match l with
  | [] => EmptyString
  | [x] => x
  | x :: rest => x +:+ sep +:+ join sep rest
  end.

(** [s[:n]] for a literal [n >= 0]. *)
Definition prefix_to (n : nat) (s : string) : string := substring 0 n s.

Definition nl : string := String (ascii_of_nat 10) EmptyString.
Definition dquote : string := String (ascii_of_nat 34) EmptyString.

End PyStr.
Import PyStr.

(** ** Python floats: IEEE-754 binary64 *)

Module Float64.

Definition prec : Z := 53.
Definition emax : Z := 1024.

Definition float := spec_float.

(** The double nearest to an integer. *)
Definition of_Z (z : Z) : float := binary_normalize prec emax z 0 false.

(** A decimal literal [n/d] with [n] and [d] below [2^53]: the correctly
    rounded quotient, which is how the interpreter reads the literal. *)
Definition literal (n d : Z) : float := SFdiv prec emax (of_Z n) (of_Z d).

Definition sub (x y : float) : float := SFsub prec emax x y.

(** [x < y] and [x >= y]; every comparison with a NaN is false. *)
Definition lt (x y : float) : bool := SFltb x y.
Definition gt (x y : float) : bool := SFltb y x.
Definition ge (x y : float) : bool := SFleb y x.
Definition le (x y : float) : bool := SFleb x y.

(** The builtins [max(a, b)] and [min(a, b)]: the first argument is kept
    unless the second compares strictly greater (smaller). *)
Definition py_max (a b : float) : float := if gt b a then b else a.
Definition py_min (a b : float) : float := if lt b a then b else a.

Definition f_0_0 : float := S754_zero false.
Definition f_1_0 : float := of_Z 1.
Definition f_0_02 : float := literal 2 100.
Definition f_0_05 : float := literal 5 100.
Definition f_0_10 : float := literal 10 100.
Definition f_0_20 : float := literal 20 100.
Definition f_0_5 : float := literal 5 10.
Definition f_0_70 : float := literal 70 100.
Definition f_0_9 : float := literal 9 10.
Definition f_0_95 : float := literal 95 100.

Definition valid (x : float) : bool := valid_binary prec emax x.

End Float64.
Import Float64.

(** ** Exceptions *)

(** Every exception the modelled code can meet is an instance of Python's
    [Exception]; [kind] is the exception's class name. *)
Inductive exn := Exception (kind : string).

Inductive exc (A : Type) : Type :=
| Ok (a : A)
| Raise (e : exn).
Arguments Ok {A} a.
Arguments Raise {A} e.

Definition exc_bind {A B} (m : exc A) (k : A -> exc B) : exc B :=
  match m with
  | Ok a => k a
  | Raise e => Raise e
  end.

(** ** checklists.py *)

Module Severity.
Inductive t := CRITICAL | HIGH | MEDIUM | LOW.

Definition value (s : t) : string :=
  match s with
  | CRITICAL => "critical"
  | HIGH => "high"
  | MEDIUM => "medium"
  | LOW => "low"
  end.
End Severity.

Module ChecklistItem.
Record t := Build {
  key : string;
  description : string;
  severity : Severity.t;
  example_question : string
}.
End ChecklistItem.

(** A Python [dict] with string keys keeps its insertion order: an
    association list with one binding per key. *)
Module Dict.
Definition t (V : Type) := list (string * V).

Fixpoint get {V} (d : t V) (k : string) : option V :=
  match d with
  | [] => None
  | (k', v) :: rest => if String.eqb k' k then Some v else get rest k
  end.

(** [d[k] = v]: an existing key keeps its position, a new key goes last. *)
Fixpoint set {V} (d : t V) (k : string) (v : V) : t V :=
  match d with
  | [] => [(k, v)]
  | (k', v') :: rest =>
      if String.eqb k' k then (k', v) :: rest else (k', v') :: set rest k v
  end.

Definition keys {V} (d : t V) : list string := map fst d.
Definition items {V} (d : t V) : list (string * V) := d.
End Dict.

Module Checklists.
Import Severity.

Definition LOAN_TYPE_TRIGGERS : Dict.t (list string) :=
  [ ("FHA", ["fha"; "federal housing"; "hud"; "mip"; "upfront mip"; "203b"; "203k"]);
    ("VA", ["va"; "veteran"; "military"; "certificate of eligibility"; "coe"; "funding fee"]);
    ("USDA", ["usda"; "rural development"; "rural housing"; "guaranteed rural"]);
    ("Conventional", ["conventional"; "fannie mae"; "freddie mac"; "conforming"; "gse"]);
    ("Jumbo", ["jumbo"; "non-conforming"; "high balance"; "super conforming"]);
    ("Reverse", ["reverse mortgage"; "hecm"; "home equity conversion"]) ].

Definition Item := ChecklistItem.Build.

(** The literal bound to the module global [CHECKLIST]. *)
Definition CHECKLIST_literal : Dict.t (list ChecklistItem.t) :=
  [ ("loan_product",
      [ Item "loan_type" "Loan type clearly specified" CRITICAL
          "What type of loan is this? (FHA, VA, Conventional, etc.)";
        Item "loan_amount" "Loan amount or range specified" CRITICAL
          "What is the expected loan amount range?";
        Item "interest_rate_type" "Fixed or adjustable rate specified" HIGH
          "Is this a fixed-rate or adjustable-rate mortgage?";
        Item "loan_term" "Loan term specified (15, 20, 30 years)" HIGH
          "What loan terms should be supported?";
        Item "ltv_limits" "LTV limits defined" HIGH
          "What are the maximum LTV ratios for this product?" ]);
    ("borrower",
      [ Item "dti_thresholds" "DTI thresholds defined" CRITICAL
          "What are the front-end and back-end DTI limits?";
        Item "credit_score" "Minimum credit score requirements" CRITICAL
          "What is the minimum credit score required?";
        Item "income_verification" "Income verification method specified" HIGH
          "How should income be verified? (W2, tax returns, bank statements)";
        Item "employment_history" "Employment history requirements" MEDIUM
          "What employment history is required?";
        Item "reserves" "Reserve requirements specified" MEDIUM
          "How many months of reserves are required?" ]);
    ("property",
      [ Item "property_types" "Eligible property types listed" HIGH
          "What property types are eligible? (SFR, Condo, Multi-unit)";
        Item "occupancy" "Occupancy type specified" HIGH
          "What occupancy types are allowed? (Primary, Second home, Investment)";
        Item "appraisal" "Appraisal requirements defined" HIGH
          "What are the appraisal requirements?" ]);
    ("compliance",
      [ Item "trid_timing" "TRID disclosure timing requirements" CRITICAL
          "How will TRID timing requirements be enforced?";
        Item "hmda_fields" "HMDA data collection requirements" CRITICAL
          "Which HMDA fields need to be collected?";
        Item "fair_lending" "Fair lending compliance approach" CRITICAL
          "How will fair lending compliance be ensured?";
        Item "state_specific" "State-specific requirements noted" HIGH
          "Which states will this product be offered in? Any state-specific rules?" ]) ].

Definition fha_specific_items : list ChecklistItem.t :=
  [ Item "mip_calculation" "MIP calculation rules" CRITICAL
      "How should upfront and annual MIP be calculated?";
    Item "fha_limits" "FHA loan limits by county" HIGH
      "How will FHA loan limits be determined?" ].

Definition va_specific_items : list ChecklistItem.t :=
  [ Item "entitlement" "VA entitlement verification" CRITICAL
      "How will VA entitlement be verified?";
    Item "funding_fee" "VA funding fee calculation" CRITICAL
      "How should the VA funding fee be calculated?" ].

Module LoanClassification.
Record t := Build {
  primary_type : string;
  all_detected : list string;
  confidence : float
}.
End LoanClassification.

(** The loop of [detect_loan_type]: [detected.append(loan_type)] for each
    entry of the mapping, in its order, one of whose triggers occurs. *)
Definition detect_loop (text_lower : string) : list string :=
  fold_left
    (fun detected '(loan_type, triggers) =>
       if any (fun trigger => str_in trigger text_lower) triggers
       then detected ++ [loan_type]
       else detected)
    (Dict.items LOAN_TYPE_TRIGGERS) [].

Definition detect_loan_type `{StrCase} (text : string) : LoanClassification.t :=
  let text_lower := lower text in
  let detected := detect_loop text_lower in
  {| LoanClassification.primary_type :=
       match detected with
       | first :: _ => first
       | [] => "Conventional"
       end;
     LoanClassification.all_detected := detected;
     LoanClassification.confidence :=
       match detected with
       | _ :: _ => f_0_9
       | [] => f_0_5
       end |}.

(** *** The object store

    [CHECKLIST] is a module global bound to one dict object;
    [CHECKLIST.copy()] allocates another.  Dict objects live in a store
    indexed by location, and a dict value in the program is a location. *)

Definition loc := positive.
Abbreviation table := (Dict.t (list ChecklistItem.t)).
Abbreviation store := (gmap loc table).

Definition CHECKLIST : loc := 1%positive.

(** The store once the module is imported. *)
Definition module_store : store := {[ CHECKLIST := CHECKLIST_literal ]}.

(** [d.copy()]: a new object with the same bindings. *)
Definition dict_copy (d : loc) (h : store) : option (loc * store) :=
  match h !! d with
  | Some bindings => let l := fresh (dom h) in Some (l, <[l := bindings]> h)
  | None => None
  end.

(** [d[k] = v], in place. *)
Definition dict_setitem (d : loc) (k : string) (v : list ChecklistItem.t)
    (h : store) : option store :=
  match h !! d with
  | Some bindings => Some (<[d := Dict.set bindings k v]> h)
  | None => None
  end.

(** The result is the location of the returned dict and the store after
    the call; [None] only when the global is unbound. *)
Definition get_checklist_for_loan_type (loan_type : string) (h : store)
    : option (loc * store) :=
  match dict_copy CHECKLIST h with
  | None => None
  | Some (base, h) =>
      if String.eqb loan_type "FHA" then
        match dict_setitem base "fha_specific" fha_specific_items h with
        | Some h => Some (base, h)
        | None => None
        end
      else if String.eqb loan_type "VA" then
        match dict_setitem base "va_specific" va_specific_items h with
        | Some h => Some (base, h)
        | None => None
        end
      else Some (base, h)
  end.

(** The bindings of the dict a call returns when the module global is as
    imported, for the callers that only read it. *)
Definition checklist_bindings (loan_type : string) : table :=
  match get_checklist_for_loan_type loan_type module_store with
  | Some (base, h) => default [] (h !! base)
  | None => []
  end.

End Checklists.
Import Checklists.

(** ** agents.py *)

(** A gap is the dict built by [check_against_checklist]; its severity is
    a string, and the scorer accepts any string there. *)
Module Gap.
Record t := Build {
  category : string;
  key : string;
  description : string;
  severity : string;
  question : string
}.
End Gap.

Module Question.
Record t := Build {
  question : string;
  severity : string;
  category : string
}.
End Question.

(** *** The collaborators of the gap checker

    What [json.loads] returns is classified by what the checker does with
    it: only a dict has [.get], and only a string has [.upper]. *)
Inductive json_value :=
| JString (s : string)
| JNotString.

Inductive json_doc :=
| JObject (members : gmap string json_value)
| JNotObject.

(** The language-model client and the JSON parser are outside the
    repository: [llm_invoke prompt] is [self.llm.invoke(prompt).content],
    [author_chain] and [critic_chain] are the two prompt chains, and each
    may raise. *)
Class Backend := {
  llm_invoke : string -> exc string;
  json_loads : string -> exc json_doc;
  author_chain : string -> string -> exc string;
  critic_chain : list string -> string -> exc string
}.

(** [results.get(key, default)]. *)
Definition py_get (results : json_doc) (key : string) (default : json_value)
    : exc json_value :=
  match results with
  | JObject members =>
      Ok (match members !! key with Some v => v | None => default end)
  | JNotObject => Raise (Exception "AttributeError")
  end.

(** [value.upper()]. *)
Definition py_upper `{StrCase} (value : json_value) : exc string :=
  match value with
  | JString s => Ok (upper s)
  | JNotString => Raise (Exception "AttributeError")
  end.

(** *** The loop monad of the gap checker

    The body of [check_against_checklist] appends to the list [gaps] and
    may raise; what was appended before an exception stays appended. *)
Module GapLoop.
Definition M (A : Type) : Type := list Gap.t -> exc A * list Gap.t.

Definition ret {A} (a : A) : M A := fun gaps => (Ok a, gaps).

Definition bind {A B} (m : M A) (k : A -> M B) : M B :=
  fun gaps =>
    match m gaps with
    | (Ok a, gaps') => k a gaps'
    | (Raise e, gaps') => (Raise e, gaps')
    end.

Definition lift {A} (r : exc A) : M A := fun gaps => (r, gaps).

(** [gaps.append(g)]. *)
Definition append (g : Gap.t) : M unit := fun gaps => (Ok tt, gaps ++ [g]).

(** [try: body  except Exception as e: handler(e)]. *)
Definition try_except {A} (body : M A) (handler : exn -> M A) : M A :=
  fun gaps =>
    match body gaps with
    | (Ok a, gaps') => (Ok a, gaps')
    | (Raise e, gaps') => handler e gaps'
    end.

(** [for x in l: body(x)]. *)
Fixpoint for_each {A} (l : list A) (body : A -> M unit) : M unit :=
  match l with
  | [] => ret tt
  | x :: rest => bind (body x) (fun _ => for_each rest body)
  end.

(** [if c: body]. *)
Definition when (c : bool) (body : M unit) : M unit :=
  if c then body else ret tt.
End GapLoop.

Notation "x <- m ;; k" := (GapLoop.bind m (fun x => k))
  (at level 100, m at next level, right associativity).

Module AuthorOutput.
Record t := Build {
  loan_classification : LoanClassification.t;
  structured_requirements : string;
  raw_input : string
}.
End AuthorOutput.

Module CriticOutput.
Record t := Build {
  checklist_gaps : list Gap.t;
  llm_critique : string;
  loan_type : string
}.
End CriticOutput.

Definition gap_of (category : string) (item : ChecklistItem.t) : Gap.t :=
  {| Gap.category := category;
     Gap.key := ChecklistItem.key item;
     Gap.description := ChecklistItem.description item;
     Gap.severity := Severity.value (ChecklistItem.severity item);
     Gap.question := ChecklistItem.example_question item |}.

Definition checklist_items_text (items : list ChecklistItem.t) : string :=
  join nl (map (fun item =>
                  "- " +:+ ChecklistItem.key item +:+ ": "
                       +:+ ChecklistItem.description item) items).

Definition check_prompt (requirements_text : string)
    (items : list ChecklistItem.t) : string :=
  let pad := "            " in
  "Review the following requirements text and determine if these specific checklist items are covered."
    +:+ nl +:+ pad
    +:+ nl +:+ pad +:+ "REQUIREMENTS:"
    +:+ nl +:+ pad +:+ prefix_to 4000 requirements_text
    +:+ nl +:+ pad
    +:+ nl +:+ pad +:+ "CHECKLIST ITEMS TO VERIFY:"
    +:+ nl +:+ pad +:+ checklist_items_text items
    +:+ nl +:+ pad
    +:+ nl +:+ pad +:+ "For each item, answer YES if it is covered/addressed, or NO if it is missing/undefined."
    +:+ nl +:+ pad +:+ "IMPORTANT: If the requirement is mentioned (even indirectly or with specific values like numbers), mark it as YES."
    +:+ nl +:+ pad
    +:+ nl +:+ pad +:+ "Return ONLY a JSON object: {" +:+ dquote +:+ "item_key"
    +:+ dquote +:+ ": " +:+ dquote +:+ "YES/NO" +:+ dquote +:+ "}"
    +:+ nl +:+ pad
    +:+ nl +:+ pad +:+ "Example: {" +:+ dquote +:+ "loan_amount" +:+ dquote
    +:+ ": " +:+ dquote +:+ "YES" +:+ dquote +:+ ", " +:+ dquote
    +:+ "dti_thresholds" +:+ dquote +:+ ": " +:+ dquote +:+ "NO" +:+ dquote +:+ "}"
    +:+ nl +:+ pad.

(** The [except] branch: loose keyword matching, item by item. *)
Definition keyword_fallback `{StrCase} (requirements_text category : string)
    (items : list ChecklistItem.t) : GapLoop.M unit :=
  GapLoop.for_each items (fun item =>
    GapLoop.when
      (negb (str_in (replace_char "_" " " (ChecklistItem.key item))
                    (lower requirements_text)))
      (GapLoop.append (gap_of category item))).

(** The [try] branch: one consolidated query for the category. *)
Definition llm_check `{StrCase} `{Backend} (requirements_text category : string)
    (items : list ChecklistItem.t) : GapLoop.M unit :=
  response <- GapLoop.lift (llm_invoke (check_prompt requirements_text items)) ;;
  let content := replace "```" "" (replace "```json" "" (strip response)) in
  results <- GapLoop.lift (json_loads content) ;;
  GapLoop.for_each items (fun item =>
    value <- GapLoop.lift (py_get results (ChecklistItem.key item) (JString "NO")) ;;
    status <- GapLoop.lift (py_upper value) ;;
    GapLoop.when (str_in "NO" status) (GapLoop.append (gap_of category item))).

(** One iteration of [for category, items in checklist.items()]. *)
Definition check_category `{StrCase} `{Backend} (requirements_text : string)
    (entry : string * list ChecklistItem.t) : GapLoop.M unit :=
  let '(category, items) := entry in
  GapLoop.try_except
    (llm_check requirements_text category items)
    (fun e => keyword_fallback requirements_text category items).

(** The checker over a given checklist: [gaps = []], the loop,
    [return gaps]. *)
Definition check_items `{StrCase} `{Backend} (requirements_text : string)
    (checklist : Dict.t (list ChecklistItem.t)) : exc (list Gap.t) :=
  match GapLoop.for_each (Dict.items checklist)
          (check_category requirements_text) [] with
  | (Ok _, gaps) => Ok gaps
  | (Raise e, _) => Raise e
  end.

Definition check_against_checklist `{StrCase} `{Backend}
    (author_output : AuthorOutput.t) : exc (list Gap.t) :=
  let loan_type :=
    LoanClassification.primary_type (AuthorOutput.loan_classification author_output) in
  let checklist := checklist_bindings loan_type in
  let requirements_text := AuthorOutput.structured_requirements author_output in
  check_items requirements_text checklist.

(** [ReqGuardAuthor.extract]. *)
Definition extract `{StrCase} `{Backend} (raw_requirements : string)
    : exc AuthorOutput.t :=
  let loan_info := detect_loan_type raw_requirements in
  exc_bind (author_chain (LoanClassification.primary_type loan_info) raw_requirements)
    (fun content =>
       Ok {| AuthorOutput.loan_classification := loan_info;
             AuthorOutput.structured_requirements := content;
             AuthorOutput.raw_input := raw_requirements |}).

(** [ReqGuardCritic.critique]. *)
Definition critique `{Backend} (author_output : AuthorOutput.t)
    (checklist_gaps : list Gap.t) : exc CriticOutput.t :=
  exc_bind (critic_chain (map Gap.description checklist_gaps)
              (AuthorOutput.structured_requirements author_output))
    (fun content =>
       Ok {| CriticOutput.checklist_gaps := checklist_gaps;
             CriticOutput.llm_critique := content;
             CriticOutput.loan_type :=
               LoanClassification.primary_type
                 (AuthorOutput.loan_classification author_output) |}).

(** The deductions of the scoring loop, gap by gap. *)
Definition deduct (rule_score : float) (gap : Gap.t) : float :=
  if String.eqb (Gap.severity gap) "critical" then sub rule_score f_0_10
  else if String.eqb (Gap.severity gap) "high" then sub rule_score f_0_05
  else if String.eqb (Gap.severity gap) "medium" then sub rule_score f_0_02
  else rule_score.

Definition calculate_confidence `{StrCase} (gaps : list Gap.t)
    (llm_critique : string) : float :=
  let rule_score := fold_left deduct gaps f_1_0 in
  let rule_score := py_max f_0_0 rule_score in
  let critique_lower := lower llm_critique in
  let llm_penalty :=
    if str_in "catastrophic" critique_lower || str_in "critical failure" critique_lower
    then f_0_20
    else if str_in "major gap" critique_lower || str_in "serious" critique_lower
    then f_0_10
    else f_0_0 in
  let final_score := sub rule_score llm_penalty in
  py_max f_0_0 (py_min f_1_0 final_score).

(** *** The outcome classifier *)

Definition determine_outcome (confidence : float) : string :=
  if ge confidence f_0_95 then "complete"
  else if ge confidence f_0_70 then "partial"
  else "clarify".

(** *** The question generator *)

(** [sorted(l, key=key)] is a stable sort; insertion before the first
    element whose key is not smaller is one. *)
Fixpoint insert_by {A} (key : A -> Z) (x : A) (l : list A) : list A :=
  match l with
  | [] => [x]
  | y :: rest => if key x <=? key y then x :: y :: rest else y :: insert_by key x rest
  end.

Fixpoint sorted {A} (key : A -> Z) (l : list A) : list A :=
  match l with
  | [] => []
  | x :: rest => insert_by key x (sorted key rest)
  end.

(** [l[:stop]] for an [int] stop: a negative stop counts from the end. *)
Definition slice_to {A} (l : list A) (stop : Z) : list A :=
  if 0 <=? stop then firstn (Z.to_nat stop) l
  else firstn (Z.to_nat (Z.of_nat (length l) + stop)) l.

(** [{"critical": 0, "high": 1, "medium": 2, "low": 3}.get(severity, 4)]. *)
Definition severity_rank (severity : string) : Z :=
  match Dict.get [("critical", 0); ("high", 1); ("medium", 2); ("low", 3)] severity with
  | Some r => r
  | None => 4
  end.

Definition question_of (gap : Gap.t) : Question.t :=
  {| Question.question := Gap.question gap;
     Question.severity := Gap.severity gap;
     Question.category := Gap.category gap |}.

Definition generate_questions (gaps : list Gap.t) (max_questions : Z)
    : list Question.t :=
  let sorted_gaps := sorted (fun g => severity_rank (Gap.severity g)) gaps in
  fold_left (fun questions gap => questions ++ [question_of gap])
    (slice_to sorted_gaps max_questions) [].

(** The default [max_questions=5]. *)
Definition default_max_questions : Z := 5.

(** ** main.py *)

(** [ReqGuardState] is a [TypedDict]: at run time a dict in which any key
    may be missing.  A node returns such a dict too, and the graph merges
    it into the state key by key. *)
Module State.
Record t := Build {
  raw_requirements : option string;
  author_output : option AuthorOutput.t;
  critic_output : option CriticOutput.t;
  confidence : option float;
  outcome : option string;
  questions : option (list Question.t);
  human_feedback : option string;
  iteration : option Z;
  approved : option bool
}.

Definition empty : t := Build None None None None None None None None None.

Definition over {A} (new old : option A) : option A :=
  match new with
  | Some _ => new
  | None => old
  end.

(** The state after the keys of [u] are written over [s]. *)
Definition update (s u : t) : t :=
  {| raw_requirements := over (raw_requirements u) (raw_requirements s);
     author_output := over (author_output u) (author_output s);
     critic_output := over (critic_output u) (critic_output s);
     confidence := over (confidence u) (confidence s);
     outcome := over (outcome u) (outcome s);
     questions := over (questions u) (questions s);
     human_feedback := over (human_feedback u) (human_feedback s);
     iteration := over (iteration u) (iteration s);
     approved := over (approved u) (approved s) |}.

(** [state.get(key, default)]. *)
Definition get {A} (field : option A) (default : A) : A :=
  match field with
  | Some v => v
  | None => default
  end.
End State.

Definition author_node `{StrCase} `{Backend} (state : State.t) : exc State.t :=
  match State.raw_requirements state with
  | None => Raise (Exception "KeyError")
  | Some raw_requirements =>
      exc_bind (extract raw_requirements) (fun result =>
      Ok {| State.raw_requirements := None;
            State.author_output := Some result;
            State.critic_output := None;
            State.confidence := None;
            State.outcome := None;
            State.questions := None;
            State.human_feedback := None;
            State.iteration := None;
            State.approved := None |})
  end.

Definition critic_node `{StrCase} `{Backend} (state : State.t) : exc State.t :=
  match State.author_output state with
  | None => Raise (Exception "KeyError")
  | Some author_output =>
      exc_bind (check_against_checklist author_output) (fun gaps =>
      exc_bind (critique author_output gaps) (fun critique =>
      let confidence := calculate_confidence gaps (CriticOutput.llm_critique critique) in
      let outcome := determine_outcome confidence in
      let questions := generate_questions gaps default_max_questions in
      Ok {| State.raw_requirements := None;
            State.author_output := None;
            State.critic_output := Some critique;
            State.confidence := Some confidence;
            State.outcome := Some outcome;
            State.questions := Some questions;
            State.human_feedback := None;
            State.iteration := Some (State.get (State.iteration state) 0 + 1);
            State.approved := None |}))
  end.

Definition gate_node (state : State.t) : exc State.t := Ok State.empty.

Definition should_continue (state : State.t) : string :=
  if State.get (State.approved state) false then "end"
  else if State.get (State.iteration state) 0 >=? 3 then "escalate"
  else
    let outcome := State.get (State.outcome state) "clarify" in
    if String.eqb outcome "complete" then "end"
    else if String.eqb outcome "partial" then "gate"
    else "gate".

(** *** The graph of [create_reqguard_workflow] *)

Inductive node := author | critic | gate.

Inductive target :=
| To (n : node)
| END.

Definition entry_point : node := author.

(** [add_edge("author", "critic")]. *)
Definition author_edge : target := To critic.

(** The path map of the conditional edges out of [critic]. *)
Definition critic_paths : Dict.t target :=
  [("gate", To gate); ("end", END); ("escalate", END)].

(** The router and the path map of the conditional edges out of [gate]. *)
Definition gate_router (s : State.t) : string :=
  if State.get (State.approved s) false then "end" else "author".

Definition gate_paths : Dict.t target :=
  [("author", To author); ("end", END)].

Definition interrupt_before : list node := [gate].

(** *** Inputs of the three public operations *)

Definition analysis_input (requirements : string) : State.t :=
  {| State.raw_requirements := Some requirements;
     State.author_output := None;
     State.critic_output := None;
     State.confidence := None;
     State.outcome := None;
     State.questions := None;
     State.human_feedback := None;
     State.iteration := Some 0;
     State.approved := None |}.

Definition approve_input (feedback : string) : State.t :=
  {| State.raw_requirements := None;
     State.author_output := None;
     State.critic_output := None;
     State.confidence := None;
     State.outcome := None;
     State.questions := None;
     State.human_feedback := Some feedback;
     State.iteration := None;
     State.approved := Some true |}.

(** [values] is what [app.get_state] returned for the thread. *)
Definition reject_input (values : State.t) (feedback : string) : State.t :=
  let updated_requirements :=
    State.get (State.raw_requirements values) ""
      +:+ nl +:+ nl +:+ "Additional context: " +:+ feedback in
  {| State.raw_requirements := Some updated_requirements;
     State.author_output := None;
     State.critic_output := None;
     State.confidence := None;
     State.outcome := None;
     State.questions := None;
     State.human_feedback := None;
     State.iteration := None;
     State.approved := Some false |}.

(** *** The graph runtime

    Modelled from the spec: the orchestration library that executes the
    compiled graph is not part of the repository.  Its behaviour is taken
    from the workflow controller of the specification: a run starts at
    the entry point; after a node its update is merged into the state and
    the outgoing edge is followed; the run pauses before [gate] and a
    later submission resumes it there, after the submitted keys are
    written into the state; a terminal state has no successor; the state
    store is keyed by thread id and written by upsert. *)

Inductive position :=
| At (n : node)
| Finished (reason : string).

Definition config : Type := position * State.t.

Definition position_of (reason : string) (t : target) : position :=
  match t with
  | To n => At n
  | END => Finished reason
  end.

(** Where the conditional edges lead from a state; a label outside the
    path map ends the run. *)
Definition follow (paths : Dict.t target) (label : string) : position :=
  match Dict.get paths label with
  | Some t => position_of label t
  | None => Finished label
  end.

Definition after_critic (s : State.t) : position :=
  follow critic_paths (should_continue s).

Definition after_gate (s : State.t) : position :=
  follow gate_paths (gate_router s).

(** An external decision, submitted while the run is paused. *)
Inductive decision :=
| Approve (feedback : string)
| Reject (feedback : string).

Definition decision_input (d : decision) (values : State.t) : State.t :=
  match d with
  | Approve feedback => approve_input feedback
  | Reject feedback => reject_input values feedback
  end.

(** One transition of the controller.  The language model may answer
    differently at every call, so each step has its own backend.  A node
    that raises gives no step: the run is aborted.  A decision submitted
    to a paused run resumes it at the gate ([step_gate]); a library that
    instead starts again at the entry point with the submitted keys is
    covered by [step_restart], so that what is proved of every run holds
    under either reading. *)
Inductive step `{StrCase} : config -> config -> Prop :=
| step_author (B : Backend) s u :
    author_node s = Ok u ->
    step (At author, s) (position_of "" author_edge, State.update s u)
| step_critic (B : Backend) s u :
    critic_node s = Ok u ->
    step (At critic, s) (after_critic (State.update s u), State.update s u)
| step_gate d s s' u :
    s' = State.update s (decision_input d s) ->
    gate_node s' = Ok u ->
    step (At gate, s) (after_gate (State.update s' u), State.update s' u)
| step_restart d s :
    step (At gate, s) (At entry_point, State.update s (decision_input d s)).

(** A run of [n] author passes. *)
Inductive run `{StrCase} : config -> nat -> config -> Prop :=
| run_done c : run c O c
| run_author s c' c'' n :
    step (At author, s) c' -> run c' n c'' -> run (At author, s) (S n) c''
| run_other p s c' c'' n :
    p <> At author -> step (p, s) c' -> run c' n c'' -> run (p, s) n c''.

(** *** The thread store and [app.invoke] *)

Module Checkpoint.
Record t := Build { values : State.t; next : position }.
End Checkpoint.

Abbreviation threads := (gmap string Checkpoint.t).

(** [app.get_state(config).values]: empty for an unknown thread. *)
Definition get_state (thread_id : string) (st : threads) : State.t :=
  match st !! thread_id with
  | Some cp => Checkpoint.values cp
  | None => State.empty
  end.

(** A run from the entry point to its pause or end; the checkpoint of the
    last completed transition comes with the result. *)
Definition run_from_author `{StrCase} `{Backend} (s : State.t)
    : Checkpoint.t * exc State.t :=
  match author_node s with
  | Raise e => (Checkpoint.Build s (At author), Raise e)
  | Ok u =>
      let s1 := State.update s u in
      match critic_node s1 with
      | Raise e => (Checkpoint.Build s1 (At critic), Raise e)
      | Ok u' =>
          let s2 := State.update s1 u' in
          (Checkpoint.Build s2 (after_critic s2), Ok s2)
      end
  end.

Definition resume_at_gate `{StrCase} `{Backend} (s : State.t)
    : Checkpoint.t * exc State.t :=
  match gate_node s with
  | Raise e => (Checkpoint.Build s (At gate), Raise e)
  | Ok u =>
      let s1 := State.update s u in
      match after_gate s1 with
      | At author => run_from_author s1
      | p => (Checkpoint.Build s1 p, Ok s1)
      end
  end.

(** [app.invoke(input, config)] for the thread [thread_id]: the submitted
    keys are written over the stored values; a thread paused before the
    gate is resumed there, and any other submission starts a run at the
    entry point. *)
Definition invoke `{StrCase} `{Backend} (input : State.t) (thread_id : string)
    (st : threads) : exc State.t * threads :=
  let s := State.update (get_state thread_id st) input in
  let '(cp, result) :=
    match Checkpoint.next <$> (st !! thread_id) with
    | Some (At gate) => resume_at_gate s
    | _ => run_from_author s
    end in
  (result, <[thread_id := cp]> st).

Definition approve_and_continue `{StrCase} `{Backend} (thread_id feedback : string)
    (st : threads) : exc State.t * threads :=
  invoke (approve_input feedback) thread_id st.

Definition reject_and_refine `{StrCase} `{Backend} (thread_id feedback : string)
    (st : threads) : exc State.t * threads :=
  let state := get_state thread_id st in
  invoke (reject_input state feedback) thread_id st.

(** *** [run_analysis] *)

(** [hash(s)] of a string is fixed within one interpreter process and left
    open otherwise. *)
Class PyHash := { hash : string -> Z }.

(** [str(n)] for an [int]. *)
Definition str_of_int (n : Z) : string := NilZero.string_of_int (Z.to_int n).

(** A Python number that is an [int] or a [float]. *)
Inductive pynum :=
| PyInt (n : Z)
| PyFloat (x : float).

(** The dict [run_analysis] returns; [loan_type] is [None] for the empty
    dict of the default. *)
Module Analysis.
Record t := Build {
  thread_id : string;
  loan_type : option LoanClassification.t;
  confidence : pynum;
  outcome : string;
  questions : list Question.t;
  gaps : list Gap.t;
  structured_requirements : string;
  critique : string
}.
End Analysis.

(** ["demo-" + str(hash(requirements))[:8]]. *)
Definition thread_id_of `{PyHash} (requirements : string) : string :=
  "demo-" +:+ prefix_to 8 (str_of_int (hash requirements)).

(** The returned dict, read off the final state with the defaults of its
    [.get] calls. *)
Definition analysis_of (thread_id : string) (result : State.t) : Analysis.t :=
  {| Analysis.thread_id := thread_id;
     Analysis.loan_type :=
       match State.author_output result with
       | Some author_output => Some (AuthorOutput.loan_classification author_output)
       | None => None
       end;
     Analysis.confidence :=
       match State.confidence result with
       | Some confidence => PyFloat confidence
       | None => PyInt 0
       end;
     Analysis.outcome := State.get (State.outcome result) "unknown";
     Analysis.questions := State.get (State.questions result) [];
     Analysis.gaps :=
       match State.critic_output result with
       | Some critic_output => CriticOutput.checklist_gaps critic_output
       | None => []
       end;
     Analysis.structured_requirements :=
       match State.author_output result with
       | Some author_output => AuthorOutput.structured_requirements author_output
       | None => ""
       end;
     Analysis.critique :=
       match State.critic_output result with
       | Some critic_output => CriticOutput.llm_critique critic_output
       | None => ""
       end |}.

Definition run_analysis `{StrCase} `{Backend} `{PyHash} (requirements : string)
    (st : threads) : exc Analysis.t * threads :=
  let thread_id := thread_id_of requirements in
  let '(result, st) := invoke (analysis_input requirements) thread_id st in
  (exc_bind result (fun result => Ok (analysis_of thread_id result)), st).

(** * Properties *)

(** ** Order facts of binary64 comparison *)

(** A float that is not a NaN has a rank in the lexicographic order of
    triples; [SFcompare] compares ranks. *)
Definition rank3 (x : spec_float) : option (Z * Z * Z) :=
  match x with
  | S754_nan => None
  | S754_infinity true => Some (-2, 0, 0)
  | S754_infinity false => Some (2, 0, 0)
  | S754_zero _ => Some (0, 0, 0)
  | S754_finite false m e => Some (1, e, Zpos m)
  | S754_finite true m e => Some (-1, - e, Zneg m)
  end.

Definition lex3 (a b : Z * Z * Z) : comparison :=
  let '(a1, a2, a3) := a in
  let '(b1, b2, b3) := b in
  match a1 ?= b1 with
  | Eq => match a2 ?= b2 with
          | Eq => a3 ?= b3
          | c => c
          end
  | c => c
  end.

Definition lex3_le (a b : Z * Z * Z) : Prop :=
  let '(a1, a2, a3) := a in
  let '(b1, b2, b3) := b in
  a1 < b1 \/ (a1 = b1 /\ (a2 < b2 \/ (a2 = b2 /\ a3 <= b3))).

Definition lex3_lt (a b : Z * Z * Z) : Prop :=
  let '(a1, a2, a3) := a in
  let '(b1, b2, b3) := b in
  a1 < b1 \/ (a1 = b1 /\ (a2 < b2 \/ (a2 = b2 /\ a3 < b3))).

Lemma SFcompare_rank3 (x y : spec_float) :
  SFcompare x y =
  match rank3 x, rank3 y with
  | Some a, Some b => Some (lex3 a b)
  | _, _ => None
  end.
Proof.
  destruct x as [sx|sx| |sx mx ex], y as [sy|sy| |sy my ey];
    try destruct sx; try destruct sy; try reflexivity.
  - simpl. f_equal. rewrite Pos.compare_cont_spec. simpl.
    rewrite Z.compare_opp.
    destruct (Z.compare_spec ex ey), (Z.compare_spec ey ex); try lia; try reflexivity.
    destruct (mx ?= my)%positive; reflexivity.
Qed.

Lemma lex3_le_spec a b : lex3_le a b <-> lex3 a b <> Gt.
Proof.
  destruct a as [[a1 a2] a3], b as [[b1 b2] b3]; simpl.
  destruct (Z.compare_spec a1 b1), (Z.compare_spec a2 b2),
    (Z.compare_spec a3 b3); split; intros; try congruence; lia.
Qed.

Lemma lex3_lt_spec a b : lex3_lt a b <-> lex3 a b = Lt.
Proof.
  destruct a as [[a1 a2] a3], b as [[b1 b2] b3]; simpl.
  destruct (Z.compare_spec a1 b1), (Z.compare_spec a2 b2),
    (Z.compare_spec a3 b3); split; intros; try congruence; lia.
Qed.

Lemma le_rank3 (x y : float) :
  le x y = true <-> exists a b, rank3 x = Some a /\ rank3 y = Some b /\ lex3_le a b.
Proof.
  unfold le, SFleb. rewrite SFcompare_rank3.
  destruct (rank3 x) as [a|], (rank3 y) as [b|].
  - split.
    + intros H. exists a, b. rewrite lex3_le_spec.
      repeat split. destruct (lex3 a b); congruence.
    + intros (a' & b' & [= <-] & [= <-] & H). apply lex3_le_spec in H.
      destruct (lex3 a b); congruence.
  - split; [discriminate|]. intros (? & ? & _ & ? & _); discriminate.
  - split; [discriminate|]. intros (? & ? & ? & _); discriminate.
  - split; [discriminate|]. intros (? & ? & ? & _); discriminate.
Qed.

Lemma lt_rank3 (x y : float) :
  lt x y = true <-> exists a b, rank3 x = Some a /\ rank3 y = Some b /\ lex3_lt a b.
Proof.
  unfold lt, SFltb. rewrite SFcompare_rank3.
  destruct (rank3 x) as [a|], (rank3 y) as [b|].
  - split.
    + intros H. exists a, b. rewrite lex3_lt_spec.
      repeat split. destruct (lex3 a b); congruence.
    + intros (a' & b' & [= <-] & [= <-] & H). apply lex3_lt_spec in H.
      rewrite H. reflexivity.
  - split; [discriminate|]. intros (? & ? & _ & ? & _); discriminate.
  - split; [discriminate|]. intros (? & ? & ? & _); discriminate.
  - split; [discriminate|]. intros (? & ? & ? & _); discriminate.
Qed.

Ltac rank3_order :=
  repeat match goal with
  | H : le _ _ = true |- _ => apply le_rank3 in H; destruct H as (? & ? & ? & ? & H)
  | H : lt _ _ = true |- _ => apply lt_rank3 in H; destruct H as (? & ? & ? & ? & H)
  end;
  repeat match goal with
  | H : rank3 ?x = Some _, H' : rank3 ?x = Some _ |- _ =>
      rewrite H in H'; injection H' as <-
  end.

Ltac lex3_solve :=
  repeat match goal with
  | a : (Z * Z * Z)%type |- _ => destruct a as [[? ?] ?]
  end;
  unfold lex3_le, lex3_lt in *; lia.

Lemma le_trans (x y z : float) : le x y = true -> le y z = true -> le x z = true.
Proof.
  intros Hxy Hyz. rank3_order. apply le_rank3. do 2 eexists.
  split; [eassumption|]. split; [eassumption|]. lex3_solve.
Qed.

Lemma lt_le_trans (x y z : float) : lt x y = true -> le y z = true -> lt x z = true.
Proof.
  intros Hxy Hyz. rank3_order. apply lt_rank3. do 2 eexists.
  split; [eassumption|]. split; [eassumption|]. lex3_solve.
Qed.

Lemma le_lt_trans (x y z : float) : le x y = true -> lt y z = true -> lt x z = true.
Proof.
  intros Hxy Hyz. rank3_order. apply lt_rank3. do 2 eexists.
  split; [eassumption|]. split; [eassumption|]. lex3_solve.
Qed.

Lemma lt_le (x y : float) : lt x y = true -> le x y = true.
Proof.
  intros Hxy. rank3_order. apply le_rank3. do 2 eexists.
  split; [eassumption|]. split; [eassumption|]. lex3_solve.
Qed.

Lemma lt_not_ge (x y : float) : lt x y = true -> ge x y = false.
Proof.
  intros Hxy. destruct (ge x y) eqn:Hge; [|reflexivity].
  unfold ge in Hge. fold (le y x) in Hge. rank3_order. lex3_solve.
Qed.

Lemma le_refl (x : float) : x <> S754_nan -> le x x = true.
Proof.
  intros Hx. apply le_rank3.
  destruct (rank3 x) as [a|] eqn:Ha.
  - exists a, a. repeat split. lex3_solve.
  - destruct x as [?|[]| |[] ? ?]; simpl in Ha; congruence.
Qed.

(** Where both sides are numbers the order is total. *)
Lemma le_or_gt (x y : float) :
  x <> S754_nan -> y <> S754_nan -> le x y = true \/ lt y x = true.
Proof.
  intros Hx Hy.
  destruct (rank3 x) as [a|] eqn:Ha;
    [|destruct x as [?|[]| |[] ? ?]; simpl in Ha; congruence].
  destruct (rank3 y) as [b|] eqn:Hb;
    [|destruct y as [?|[]| |[] ? ?]; simpl in Hb; congruence].
  rewrite le_rank3, lt_rank3.
  assert (lex3_le a b \/ lex3_lt b a) as [H|H] by lex3_solve.
  - left. exists a, b. auto.
  - right. exists b, a. auto.
Qed.

(** The literals of the sources, as doubles. *)
Lemma literals_eq :
  f_1_0 = S754_finite false 4503599627370496 (-52) /\
  f_0_02 = S754_finite false 5764607523034235 (-58) /\
  f_0_05 = S754_finite false 7205759403792794 (-57) /\
  f_0_10 = S754_finite false 7205759403792794 (-56) /\
  f_0_20 = S754_finite false 7205759403792794 (-55) /\
  f_0_5 = S754_finite false 4503599627370496 (-53) /\
  f_0_70 = S754_finite false 6305039478318694 (-53) /\
  f_0_9 = S754_finite false 8106479329266893 (-53) /\
  f_0_95 = S754_finite false 8556839292003942 (-53).
Proof. vm_compute. tauto. Qed.

Lemma le_070_095 : le f_0_70 f_0_95 = true.
Proof. vm_compute. reflexivity. Qed.

(** C8. [determine_outcome] sends every score of at least 0.95 to "complete",
    every score of at least 0.70 and below 0.95 to "partial", and every
    score below 0.70 to "clarify"; at the four boundary literals 0.95,
    0.949999, 0.70 and 0.699999 it yields "complete", "partial", "partial"
    and "clarify". *)
Theorem determine_outcome_thresholds (score : float) :
  (ge score f_0_95 = true -> determine_outcome score = "complete") /\
  (ge score f_0_70 = true -> lt score f_0_95 = true ->
     determine_outcome score = "partial") /\
  (lt score f_0_70 = true -> determine_outcome score = "clarify") /\
  determine_outcome (literal 95 100) = "complete" /\
  determine_outcome (literal 949999 1000000) = "partial" /\
  determine_outcome (literal 70 100) = "partial" /\
  determine_outcome (literal 699999 1000000) = "clarify".
Proof.
  unfold determine_outcome.
  split; [|split; [|split; [|vm_compute; tauto]]].
  - intros ->. reflexivity.
  - intros H70 H95. rewrite (lt_not_ge _ _ H95), H70. reflexivity.
  - intros H70.
    pose proof (lt_le_trans _ _ _ H70 le_070_095) as H95.
    rewrite (lt_not_ge _ _ H95), (lt_not_ge _ _ H70). reflexivity.
Qed.

Lemma determine_outcome_thresholds_witness :
  determine_outcome (literal 8 10) = "partial" /\
  determine_outcome (literal 3 10) = "clarify" /\
  determine_outcome f_1_0 = "complete".
Proof.
  destruct (determine_outcome_thresholds (literal 8 10)) as (_ & H1 & _).
  destruct (determine_outcome_thresholds (literal 3 10)) as (_ & _ & H2 & _).
  destruct (determine_outcome_thresholds f_1_0) as (H3 & _).
  split; [apply H1; vm_compute; reflexivity|].
  split; [apply H2; vm_compute; reflexivity|].
  apply H3; vm_compute; reflexivity.
Defined.

(** ** Strings *)

Lemma append_cons (c : ascii) (s t : string) : String c s +:+ t = String c (s +:+ t).
Proof. reflexivity. Qed.

Lemma append_nil (t : string) : "" +:+ t = t.
Proof. reflexivity. Qed.

Lemma startswith_spec (p s : string) :
  startswith p s = true <-> exists t, s = p +:+ t.
Proof.
  revert s. induction p as [|a p IH]; intros s; simpl.
  - split; [intros _; exists s; reflexivity | reflexivity].
  - destruct s as [|b s].
    + split; [discriminate | intros [t Ht]; discriminate].
    + destruct (Ascii.eqb_spec a b) as [->|Hab].
      * rewrite IH. split; intros [t Ht]; exists t; rewrite append_cons in *;
          congruence.
      * split; [discriminate|].
        intros [t Ht]. rewrite append_cons in Ht. congruence.
Qed.

(** [str_in] is substring containment. *)
Lemma str_in_spec (needle hay : string) :
  str_in needle hay = true <-> exists a b, hay = a +:+ needle +:+ b.
Proof.
  induction hay as [|c hay IH]; simpl.
  - destruct (startswith needle "") eqn:Hs.
    + apply startswith_spec in Hs as [t Ht]. split; [|reflexivity].
      intros _. exists "", t. exact Ht.
    + split; [discriminate|]. intros (a & b & Hab).
      destruct a; [|discriminate]. rewrite append_nil in Hab.
      assert (startswith needle "" = true) by (apply startswith_spec; eauto).
      congruence.
  - destruct (startswith needle (String c hay)) eqn:Hs.
    + apply startswith_spec in Hs as [t Ht]. split; [|reflexivity].
      intros _. exists "", t. exact Ht.
    + rewrite IH. split.
      * intros (a & b & ->). exists (String c a), b. reflexivity.
      * intros (a & b & Hab). destruct a as [|c' a].
        -- rewrite append_nil in Hab.
           assert (startswith needle (String c hay) = true)
             by (apply startswith_spec; eauto).
           congruence.
        -- rewrite append_cons in Hab. injection Hab as _ ->. eauto.
Qed.

(** ** Lists *)

Lemma fold_left_append {A B} (p : A -> bool) (f : A -> B) (l : list A) (acc : list B) :
  fold_left (fun acc x => if p x then acc ++ [f x] else acc) l acc
  = acc ++ map f (List.filter p l).
Proof.
  revert acc. induction l as [|x l IH]; intros acc; simpl.
  - rewrite app_nil_r. reflexivity.
  - rewrite IH. destruct (p x); simpl; [rewrite <- app_assoc|]; reflexivity.
Qed.

Lemma filter_none {A} (p : A -> bool) (l : list A) :
  (forall x, In x l -> p x = false) -> List.filter p l = [].
Proof.
  induction l as [|x l IH]; intros Hall; simpl; [reflexivity|].
  rewrite (Hall x (or_introl eq_refl)). apply IH.
  intros y Hy. apply Hall. right. exact Hy.
Qed.

Lemma filter_head_split {A} (p : A -> bool) (l : list A) (x : A) (rest : list A) :
  List.filter p l = x :: rest ->
  exists before after,
    l = before ++ x :: after /\ p x = true /\
    (forall y, In y before -> p y = false) /\ rest = List.filter p after.
Proof.
  induction l as [|y l IH]; simpl; [discriminate|].
  destruct (p y) eqn:Hy.
  - intros [= -> <-]. exists [], l. repeat split; auto. intros ? [].
  - intros H. destruct (IH H) as (before & after & -> & Hx & Hb & Hr).
    exists (y :: before), after. repeat split; auto.
    intros z [<-|Hz]; auto.
Qed.

(** ** checklists.py: loan-type detection *)

(** Whether an entry of the trigger mapping matches a lower-cased text. *)
Definition entry_matches (text_lower : string) (entry : string * list string) : bool :=
  any (fun trigger => str_in trigger text_lower) (snd entry).

Lemma detect_fold (text_lower : string) (mapping : Dict.t (list string))
    (detected : list string) :
  fold_left
    (fun detected '(loan_type, triggers) =>
       if any (fun trigger => str_in trigger text_lower) triggers
       then detected ++ [loan_type]
       else detected)
    mapping detected
  = detected ++ map fst (List.filter (entry_matches text_lower) mapping).
Proof.
  rewrite <- fold_left_append. revert detected.
  induction mapping as [|[tag triggers] l IH]; intros acc; simpl;
    [reflexivity|apply IH].
Qed.

Lemma detect_loop_filter (text_lower : string) :
  detect_loop text_lower
  = map fst (List.filter (entry_matches text_lower) LOAN_TYPE_TRIGGERS).
Proof. unfold detect_loop, Dict.items. apply detect_fold. Qed.

Lemma entry_matches_spec (text_lower : string) (entry : string * list string) :
  entry_matches text_lower entry = true <->
  exists trigger, In trigger (snd entry) /\ str_in trigger text_lower = true.
Proof. unfold entry_matches, any. apply existsb_exists. Qed.

Lemma detect_all_detected `{StrCase} (text : string) :
  LoanClassification.all_detected (detect_loan_type text)
  = map fst (List.filter (entry_matches (lower text)) LOAN_TYPE_TRIGGERS).
Proof. unfold detect_loan_type. simpl. apply detect_loop_filter. Qed.

Lemma detect_confidence `{StrCase} (text : string) :
  LoanClassification.confidence (detect_loan_type text)
  = match LoanClassification.all_detected (detect_loan_type text) with
    | [] => f_0_5
    | _ :: _ => f_0_9
    end.
Proof. reflexivity. Qed.

(** A tag one of whose triggers occurs is detected. *)
Lemma match_detected `{StrCase} (text tag trigger : string) (triggers : list string) :
  In (tag, triggers) LOAN_TYPE_TRIGGERS -> In trigger triggers ->
  str_in trigger (lower text) = true ->
  In tag (LoanClassification.all_detected (detect_loan_type text)).
Proof.
  intros Hin Ht Hs. rewrite detect_all_detected. apply in_map_iff.
  exists (tag, triggers). split; [reflexivity|].
  apply List.filter_In. split; [exact Hin|].
  apply entry_matches_spec. exists trigger. auto.
Qed.

(** C6. [detect_loan_type] depends on its text through the lower-cased text
    only; [all_detected] lists, in the declared order of the trigger
    mapping, the tags one of whose triggers occurs.  When no trigger occurs
    the result is "Conventional" with confidence 0.5 and nothing detected;
    when some trigger occurs the confidence is 0.9, [all_detected] is not
    empty and holds every matched tag, and [primary_type] is the first
    matching tag of the mapping. *)
Theorem detect_loan_type_spec `{StrCase} (text : string) :
  let r := detect_loan_type text in
  (forall text', lower text' = lower text -> detect_loan_type text' = r) /\
  LoanClassification.all_detected r
    = map fst (List.filter (entry_matches (lower text)) LOAN_TYPE_TRIGGERS) /\
  ((forall tag triggers trigger,
       In (tag, triggers) LOAN_TYPE_TRIGGERS -> In trigger triggers ->
       str_in trigger (lower text) = false) ->
   LoanClassification.primary_type r = "Conventional" /\
   LoanClassification.confidence r = f_0_5 /\
   LoanClassification.all_detected r = []) /\
  (forall tag triggers trigger,
     In (tag, triggers) LOAN_TYPE_TRIGGERS -> In trigger triggers ->
     str_in trigger (lower text) = true ->
     LoanClassification.confidence r = f_0_9 /\
     LoanClassification.all_detected r <> [] /\
     In tag (LoanClassification.all_detected r) /\
     exists before triggers' after,
       LOAN_TYPE_TRIGGERS
         = before ++ (LoanClassification.primary_type r, triggers') :: after /\
       entry_matches (lower text) (LoanClassification.primary_type r, triggers') = true /\
       forall entry, In entry before -> entry_matches (lower text) entry = false).
Proof.
  intros r. subst r. unfold detect_loan_type. cbn [LoanClassification.primary_type
    LoanClassification.all_detected LoanClassification.confidence].
  rewrite detect_loop_filter.
  split; [|split; [reflexivity|split]].
  - intros text' Heq. unfold detect_loan_type.
    rewrite Heq, detect_loop_filter. reflexivity.
  - intros Hnone.
    assert (Hf : List.filter (entry_matches (lower text)) LOAN_TYPE_TRIGGERS = []).
    { apply filter_none. intros [tag triggers] Hin.
      apply not_true_iff_false. intros Hm.
      apply entry_matches_spec in Hm as (trigger & Ht & Hs).
      rewrite (Hnone _ _ _ Hin Ht) in Hs. discriminate. }
    rewrite Hf. auto.
  - intros tag triggers trigger Hin Ht Hs.
    assert (Hm : In (tag, triggers)
                   (List.filter (entry_matches (lower text)) LOAN_TYPE_TRIGGERS)).
    { apply List.filter_In. split; [exact Hin|].
      apply entry_matches_spec. exists trigger. auto. }
    assert (Htag : In tag (map fst (List.filter (entry_matches (lower text)) LOAN_TYPE_TRIGGERS))).
    { apply in_map_iff. exists (tag, triggers). auto. }
    destruct (List.filter (entry_matches (lower text)) LOAN_TYPE_TRIGGERS)
      as [|[first triggers'] rest] eqn:Hf; [destruct Hm|].
    repeat split; [discriminate|exact Htag|].
    apply filter_head_split in Hf as (before & after & Hl & Hp & Hb & _).
    exists before, triggers', after. auto.
Qed.

Lemma detect_loan_type_spec_witness :
  LoanClassification.primary_type
    (@detect_loan_type ascii_case "An FHA loan for a Veteran") = "FHA" /\
  LoanClassification.all_detected
    (@detect_loan_type ascii_case "An FHA loan for a Veteran") = ["FHA"; "VA"] /\
  LoanClassification.primary_type
    (@detect_loan_type ascii_case "A HOME LOAN") = "Conventional".
Proof.
  pose proof (@detect_loan_type_spec ascii_case "An FHA loan for a Veteran")
    as (_ & Hall & _ & Hsome).
  pose proof (@detect_loan_type_spec ascii_case "A HOME LOAN")
    as (_ & _ & Hnone & _).
  split; [|split].
  - reflexivity.
  - rewrite Hall. reflexivity.
  - apply Hnone. intros tag triggers trigger Hin Ht.
    simpl in Hin.
    repeat (destruct Hin as [[= <- <-]|Hin];
            [simpl in Ht; repeat (destruct Ht as [<-|Ht]; [reflexivity|]); destruct Ht|]).
    destruct Hin.
Defined.

(** C10. Trigger matching is plain substring containment: whenever the
    lower-cased text contains "va" (as in "available" or "approval"), "VA"
    is among [all_detected] and the confidence is 0.9, not the 0.5 of the
    no-match default. *)
Theorem va_substring_detected `{StrCase} (text : string) :
  str_in "va" (lower text) = true ->
  In "VA" (LoanClassification.all_detected (detect_loan_type text)) /\
  LoanClassification.confidence (detect_loan_type text) = f_0_9 /\
  LoanClassification.confidence (detect_loan_type text) <> f_0_5.
Proof.
  intros Hva.
  assert (Hin : In "VA" (LoanClassification.all_detected (detect_loan_type text))).
  { apply (match_detected text "VA" "va"
             ["va"; "veteran"; "military"; "certificate of eligibility"; "coe";
              "funding fee"]); [simpl; auto|simpl; auto|exact Hva]. }
  assert (Hc : LoanClassification.confidence (detect_loan_type text) = f_0_9).
  { rewrite detect_confidence.
    destruct (LoanClassification.all_detected (detect_loan_type text));
      [destruct Hin|reflexivity]. }
  split; [exact Hin|]. split; [exact Hc|].
  rewrite Hc. vm_compute. discriminate.
Qed.

Lemma va_substring_detected_witness :
  str_in "va" (@lower ascii_case "Funds are AVAILABLE upon approval") = true /\
  In "VA" (LoanClassification.all_detected
             (@detect_loan_type ascii_case "Funds are AVAILABLE upon approval")) /\
  LoanClassification.confidence
    (@detect_loan_type ascii_case "Funds are AVAILABLE upon approval") = f_0_9.
Proof.
  assert (Hva : str_in "va" (@lower ascii_case "Funds are AVAILABLE upon approval") = true)
    by reflexivity.
  split; [exact Hva|].
  destruct (@va_substring_detected ascii_case _ Hva) as (Hin & Hc & _).
  split; assumption.
Defined.

(** ** agents.py: the gap checker *)

(** The gaps the keyword rule yields for the items of one category. *)
Definition keyword_gaps `{StrCase} (requirements_text category : string)
    (items : list ChecklistItem.t) : list Gap.t :=
  map (gap_of category)
    (List.filter
       (fun item => negb (str_in (replace_char "_" " " (ChecklistItem.key item))
                                 (lower requirements_text)))
       items).

(** The payload handed to [json.loads]. *)
Definition payload (response : string) : string :=
  replace "```" "" (replace "```json" "" (strip response)).

(** The backend call of a category errors, or its payload does not parse,
    or it parses to something that is not a JSON object. *)
Definition backend_failed `{Backend} (requirements_text : string)
    (items : list ChecklistItem.t) : Prop :=
  (exists e, llm_invoke (check_prompt requirements_text items) = Raise e) \/
  (exists response,
      llm_invoke (check_prompt requirements_text items) = Ok response /\
      ((exists e, json_loads (payload response) = Raise e) \/
       json_loads (payload response) = Ok JNotObject)).

Lemma bind_ok {A B} (m : GapLoop.M A) (k : A -> GapLoop.M B) gaps a gaps' :
  m gaps = (Ok a, gaps') -> (x <- m ;; k x) gaps = k a gaps'.
Proof. unfold GapLoop.bind. intros ->. reflexivity. Qed.

Lemma bind_raise {A B} (m : GapLoop.M A) (k : A -> GapLoop.M B) gaps e gaps' :
  m gaps = (Raise e, gaps') -> (x <- m ;; k x) gaps = (Raise e, gaps').
Proof. unfold GapLoop.bind. intros ->. reflexivity. Qed.

Lemma keyword_fallback_run `{StrCase} (requirements_text category : string)
    (items : list ChecklistItem.t) (gaps : list Gap.t) :
  keyword_fallback requirements_text category items gaps
  = (Ok tt, gaps ++ keyword_gaps requirements_text category items).
Proof.
  unfold keyword_fallback, keyword_gaps. revert gaps.
  induction items as [|item items IH]; intros gaps; simpl.
  - unfold GapLoop.ret. rewrite app_nil_r. reflexivity.
  - destruct (negb _).
    + rewrite (bind_ok _ _ gaps tt (gaps ++ [gap_of category item])) by reflexivity.
      rewrite IH. simpl. rewrite <- app_assoc. reflexivity.
    + rewrite (bind_ok _ _ gaps tt gaps) by reflexivity. apply IH.
Qed.

(** With a payload that is not an object the first [.get] raises, before
    anything is appended. *)
Lemma not_object_loop `{StrCase} (category : string)
    (items : list ChecklistItem.t) (gaps : list Gap.t) :
  GapLoop.for_each items (fun item =>
    value <- GapLoop.lift (py_get JNotObject (ChecklistItem.key item) (JString "NO")) ;;
    status <- GapLoop.lift (py_upper value) ;;
    GapLoop.when (str_in "NO" status) (GapLoop.append (gap_of category item))) gaps
  = match items with
    | [] => (Ok tt, gaps)
    | _ :: _ => (Raise (Exception "AttributeError"), gaps)
    end.
Proof. destruct items; reflexivity. Qed.

Lemma check_category_failed `{StrCase} `{Backend} (requirements_text category : string)
    (items : list ChecklistItem.t) (gaps : list Gap.t) :
  backend_failed requirements_text items ->
  check_category requirements_text (category, items) gaps
  = (Ok tt, gaps ++ keyword_gaps requirements_text category items).
Proof.
  intros Hfail. unfold check_category, GapLoop.try_except, llm_check.
  destruct Hfail as [[e He]|(response & Hr & [[e He]|Hno])].
  - rewrite (bind_raise _ _ gaps e gaps)
      by (unfold GapLoop.lift; rewrite He; reflexivity).
    apply keyword_fallback_run.
  - rewrite (bind_ok _ _ gaps response gaps)
      by (unfold GapLoop.lift; rewrite Hr; reflexivity).
    rewrite (bind_raise _ _ gaps e gaps)
      by (unfold GapLoop.lift; fold (payload response); rewrite He; reflexivity).
    apply keyword_fallback_run.
  - rewrite (bind_ok _ _ gaps response gaps)
      by (unfold GapLoop.lift; rewrite Hr; reflexivity).
    rewrite (bind_ok _ _ gaps JNotObject gaps)
      by (unfold GapLoop.lift; fold (payload response); rewrite Hno; reflexivity).
    rewrite not_object_loop.
    destruct items as [|item items].
    + unfold keyword_gaps. simpl. rewrite app_nil_r. reflexivity.
    + apply keyword_fallback_run.
Qed.

(** Whatever the backend does, an iteration of the category loop ends
    normally. *)
Lemma check_category_returns `{StrCase} `{Backend} (requirements_text : string)
    (entry : string * list ChecklistItem.t) (gaps : list Gap.t) :
  exists gaps', check_category requirements_text entry gaps = (Ok tt, gaps').
Proof.
  destruct entry as [category items]. unfold check_category, GapLoop.try_except.
  destruct (llm_check requirements_text category items gaps) as [[[]|e] gaps'].
  - eauto.
  - rewrite keyword_fallback_run. eauto.
Qed.

Lemma for_each_returns {A} (body : A -> GapLoop.M unit) (l : list A) :
  (forall x gaps, exists gaps', body x gaps = (Ok tt, gaps')) ->
  forall gaps, exists gaps', GapLoop.for_each l body gaps = (Ok tt, gaps').
Proof.
  intros Hbody. induction l as [|x l IH]; intros gaps; simpl.
  - exists gaps. reflexivity.
  - unfold GapLoop.bind. destruct (Hbody x gaps) as [gaps1 ->]. apply IH.
Qed.

Lemma check_items_returns `{StrCase} `{Backend} (requirements_text : string)
    (checklist : Dict.t (list ChecklistItem.t)) :
  exists gaps, check_items requirements_text checklist = Ok gaps.
Proof.
  unfold check_items.
  destruct (for_each_returns (check_category requirements_text)
              (Dict.items checklist)
              (check_category_returns requirements_text) []) as [gaps ->].
  eauto.
Qed.

Lemma check_loop_failed `{StrCase} `{Backend} (requirements_text : string)
    (checklist : Dict.t (list ChecklistItem.t)) (gaps : list Gap.t) :
  (forall category items,
      In (category, items) checklist -> backend_failed requirements_text items) ->
  GapLoop.for_each checklist (check_category requirements_text) gaps
  = (Ok tt,
     gaps ++ flat_map (fun '(category, items) =>
                         keyword_gaps requirements_text category items) checklist).
Proof.
  revert gaps. induction checklist as [|[category items] rest IH];
    intros gaps Hfail; cbn [GapLoop.for_each flat_map].
  - unfold GapLoop.ret. rewrite app_nil_r. reflexivity.
  - rewrite (bind_ok _ _ gaps tt
               (gaps ++ keyword_gaps requirements_text category items))
      by (apply check_category_failed, (Hfail category); left; reflexivity).
    rewrite IH by (intros c i Hin; apply (Hfail c); right; exact Hin).
    rewrite <- app_assoc. reflexivity.
Qed.

(** A backend whose language model is unreachable. *)
Definition backend_down : Backend :=
  {| llm_invoke := fun _ => Raise (Exception "ConnectionError");
     json_loads := fun _ => Raise (Exception "JSONDecodeError");
     author_chain := fun _ requirements => Ok requirements;
     critic_chain := fun _ _ => Ok "" |}.

(** ** checklists.py: the checklist resolver *)

(** What a call adds to a copy of the table. *)
Definition extended (loan_type : string) (bindings : table) : table :=
  if String.eqb loan_type "FHA" then Dict.set bindings "fha_specific" fha_specific_items
  else if String.eqb loan_type "VA" then Dict.set bindings "va_specific" va_specific_items
  else bindings.

Lemma fresh_not_bound (h : store) : h !! fresh (dom h) = None.
Proof. apply not_elem_of_dom, is_fresh. Qed.

(** A call allocates one object, the extended copy, and writes nothing
    else. *)
Lemma get_checklist_run (loan_type : string) (h : store) (bindings : table) :
  h !! CHECKLIST = Some bindings ->
  get_checklist_for_loan_type loan_type h
  = Some (fresh (dom h), <[fresh (dom h) := extended loan_type bindings]> h).
Proof.
  intros Hh. unfold get_checklist_for_loan_type, dict_copy, dict_setitem, extended.
  rewrite Hh.
  destruct (String.eqb loan_type "FHA"); [|destruct (String.eqb loan_type "VA")].
  - rewrite lookup_insert_eq, insert_insert_eq. reflexivity.
  - rewrite lookup_insert_eq, insert_insert_eq. reflexivity.
  - reflexivity.
Qed.

Lemma get_checklist_frame (loan_type : string) (h h' : store) (l : loc) :
  is_Some (h !! CHECKLIST) ->
  get_checklist_for_loan_type loan_type h = Some (l, h') ->
  h !! l = None /\ forall l', l' <> l -> h' !! l' = h !! l'.
Proof.
  intros [bindings Hh] Hcall.
  rewrite (get_checklist_run _ _ _ Hh) in Hcall. injection Hcall as <- <-.
  split; [apply fresh_not_bound|].
  intros l' Hne. apply lookup_insert_ne. congruence.
Qed.

Lemma extended_base (loan_type category : string) :
  In category (Dict.keys CHECKLIST_literal) ->
  Dict.get (extended loan_type CHECKLIST_literal) category
  = Dict.get CHECKLIST_literal category.
Proof.
  intros Hin. unfold extended.
  destruct (String.eqb loan_type "FHA"); [|destruct (String.eqb loan_type "VA")];
    simpl in Hin; repeat (destruct Hin as [<-|Hin]; [reflexivity|]); destruct Hin.
Qed.

(** C7. With the module global bound to the checklist table, the call for
    "FHA" returns a new dict holding the table's categories followed by
    "fha_specific"; the global and every other object of the store are left
    as they were.  A later call, for any tag, returns the bindings the same
    call returns before: the base categories are those of the table, only
    the tag "FHA" brings "fha_specific", and a tag other than "FHA" and "VA"
    gets exactly the table. *)
Theorem get_checklist_no_leak (h : store) (later : string) :
  h !! CHECKLIST = Some CHECKLIST_literal ->
  exists fha h1 l2 h2 bindings2,
    get_checklist_for_loan_type "FHA" h = Some (fha, h1) /\
    h1 !! fha = Some (CHECKLIST_literal ++ [("fha_specific", fha_specific_items)]) /\
    fha <> CHECKLIST /\ h !! fha = None /\
    (forall l, l <> fha -> h1 !! l = h !! l) /\
    h1 !! CHECKLIST = Some CHECKLIST_literal /\
    get_checklist_for_loan_type later h1 = Some (l2, h2) /\
    h2 !! l2 = Some bindings2 /\
    (exists l0 h0, get_checklist_for_loan_type later h = Some (l0, h0) /\
                   h0 !! l0 = Some bindings2) /\
    (forall category, In category (Dict.keys CHECKLIST_literal) ->
       Dict.get bindings2 category = Dict.get CHECKLIST_literal category) /\
    (later <> "FHA" -> Dict.get bindings2 "fha_specific" = None) /\
    (later <> "FHA" -> later <> "VA" -> bindings2 = CHECKLIST_literal) /\
    h2 !! CHECKLIST = Some CHECKLIST_literal /\
    h2 !! fha = h1 !! fha.
Proof.
  intros Hh.
  pose proof (get_checklist_run "FHA" h _ Hh) as Hfha.
  set (fha := fresh (dom h)) in *.
  set (h1 := <[fha := extended "FHA" CHECKLIST_literal]> h) in *.
  assert (Hnew : h !! fha = None) by apply fresh_not_bound.
  assert (Hne : fha <> CHECKLIST) by congruence.
  assert (Hh1 : h1 !! CHECKLIST = Some CHECKLIST_literal).
  { unfold h1. rewrite lookup_insert_ne by exact Hne. exact Hh. }
  pose proof (get_checklist_run later h1 _ Hh1) as Hlater.
  set (l2 := fresh (dom h1)) in *.
  set (h2 := <[l2 := extended later CHECKLIST_literal]> h1) in *.
  assert (Hnew2 : h1 !! l2 = None) by apply fresh_not_bound.
  exists fha, h1, l2, h2, (extended later CHECKLIST_literal).
  repeat match goal with |- _ /\ _ => split end.
  - exact Hfha.
  - unfold h1. rewrite lookup_insert_eq. reflexivity.
  - exact Hne.
  - exact Hnew.
  - intros l Hl. unfold h1. apply lookup_insert_ne. congruence.
  - exact Hh1.
  - exact Hlater.
  - unfold h2. apply lookup_insert_eq.
  - exists (fresh (dom h)), (<[fresh (dom h) := extended later CHECKLIST_literal]> h).
    split; [apply get_checklist_run; exact Hh|apply lookup_insert_eq].
  - intros category. apply extended_base.
  - intros Hnot. unfold extended.
    destruct (String.eqb_spec later "FHA"); [contradiction|].
    destruct (String.eqb later "VA"); reflexivity.
  - intros Hnot1 Hnot2. unfold extended.
    destruct (String.eqb_spec later "FHA"); [contradiction|].
    destruct (String.eqb_spec later "VA"); [contradiction|reflexivity].
  - unfold h2. rewrite lookup_insert_ne by congruence. exact Hh1.
  - unfold h2. apply lookup_insert_ne.
    intros Heq. rewrite Heq in Hnew2. unfold h1 in Hnew2.
    rewrite lookup_insert_eq in Hnew2. discriminate.
Qed.

Lemma get_checklist_no_leak_witness :
  exists fha h1 l2 h2,
    get_checklist_for_loan_type "FHA" module_store = Some (fha, h1) /\
    h1 !! CHECKLIST = Some CHECKLIST_literal /\
    get_checklist_for_loan_type "Conventional" h1 = Some (l2, h2) /\
    h2 !! l2 = Some CHECKLIST_literal.
Proof.
  assert (Hh : module_store !! CHECKLIST = Some CHECKLIST_literal)
    by apply lookup_singleton_eq.
  destruct (get_checklist_no_leak module_store "Conventional" Hh)
    as (fha & h1 & l2 & h2 & bindings2 & H1 & _ & _ & _ & _ & H2 & H3 & H4
        & _ & _ & _ & H5 & _).
  exists fha, h1, l2, h2.
  rewrite (H5 ltac:(discriminate) ltac:(discriminate)) in H4.
  repeat split; assumption.
Defined.

(** ** agents.py: the fallback of the gap checker *)

(** The gaps of a category. *)
Definition in_category (category : string) (g : Gap.t) : bool :=
  String.eqb (Gap.category g) category.

Definition of_category (category : string) (gaps : list Gap.t) : Prop :=
  Forall (fun g => Gap.category g = category) gaps.

Lemma filter_of_category (category : string) (gaps : list Gap.t) :
  of_category category gaps -> List.filter (in_category category) gaps = gaps.
Proof.
  induction 1 as [|g gaps Hg _ IH]; cbn [List.filter]; [reflexivity|].
  unfold in_category at 1. rewrite Hg, String.eqb_refl, IH. reflexivity.
Qed.

Lemma filter_other_category (category other : string) (gaps : list Gap.t) :
  other <> category -> of_category other gaps ->
  List.filter (in_category category) gaps = [].
Proof.
  intros Hne. induction 1 as [|g gaps Hg _ IH]; cbn [List.filter]; [reflexivity|].
  unfold in_category at 1. rewrite Hg.
  destruct (String.eqb_spec other category); [contradiction|exact IH].
Qed.

Lemma keyword_gaps_of_category `{StrCase} (requirements_text category : string)
    (items : list ChecklistItem.t) :
  of_category category (keyword_gaps requirements_text category items).
Proof.
  unfold of_category, keyword_gaps. apply List.Forall_forall. intros g Hg.
  apply in_map_iff in Hg as (item & <- & _). reflexivity.
Qed.

(** Whatever the backend does, the [try] branch appends gaps of its own
    category only, also when it raises. *)
Lemma llm_check_of_category `{StrCase} `{Backend} (requirements_text category : string)
    (items : list ChecklistItem.t) (gaps : list Gap.t) :
  exists extra,
    snd (llm_check requirements_text category items gaps) = gaps ++ extra /\
    of_category category extra.
Proof.
  assert (Hnone : exists extra, gaps = gaps ++ extra /\ of_category category extra)
    by (exists []; rewrite app_nil_r; split; [reflexivity|constructor]).
  unfold llm_check.
  unfold GapLoop.bind at 1. unfold GapLoop.lift at 1.
  destruct (llm_invoke _) as [response|e]; [|exact Hnone].
  unfold GapLoop.bind at 1. unfold GapLoop.lift at 1.
  destruct (json_loads _) as [results|e]; [|exact Hnone].
  clear Hnone. revert gaps.
  induction items as [|item items IH]; intros gaps; cbn [GapLoop.for_each].
  - exists []. rewrite app_nil_r. split; [reflexivity|constructor].
  - unfold GapLoop.bind at 1. unfold GapLoop.bind at 1. unfold GapLoop.lift at 1.
    destruct (py_get results (ChecklistItem.key item) (JString "NO")) as [value|e];
      [|exists []; rewrite app_nil_r; split; [reflexivity|constructor]].
    unfold GapLoop.bind at 1. unfold GapLoop.lift at 1.
    destruct (py_upper value) as [status|e];
      [|exists []; rewrite app_nil_r; split; [reflexivity|constructor]].
    destruct (str_in "NO" status); cbn [GapLoop.when GapLoop.append GapLoop.ret].
    + destruct (IH (gaps ++ [gap_of category item])) as (extra & -> & Hextra).
      exists (gap_of category item :: extra). rewrite <- app_assoc.
      split; [reflexivity|constructor; [reflexivity|exact Hextra]].
    + apply IH.
Qed.

Lemma check_category_of_category `{StrCase} `{Backend} (requirements_text category : string)
    (items : list ChecklistItem.t) (gaps : list Gap.t) :
  exists extra,
    check_category requirements_text (category, items) gaps = (Ok tt, gaps ++ extra) /\
    of_category category extra.
Proof.
  unfold check_category, GapLoop.try_except.
  destruct (llm_check_of_category requirements_text category items gaps)
    as (extra & Hsnd & Hextra).
  destruct (llm_check requirements_text category items gaps) as [[[]|e] gaps'];
    cbn [snd] in Hsnd; subst gaps'.
  - exists extra. split; [reflexivity|exact Hextra].
  - rewrite keyword_fallback_run.
    exists (extra ++ keyword_gaps requirements_text category items).
    rewrite <- app_assoc. split; [reflexivity|].
    apply Forall_app. split; [exact Hextra|apply keyword_gaps_of_category].
Qed.

(** The categories after a failed one leave its gaps alone. *)
Lemma check_loop_other `{StrCase} `{Backend} (requirements_text category : string)
    (checklist : Dict.t (list ChecklistItem.t)) (gaps : list Gap.t) :
  ~ In category (Dict.keys checklist) ->
  exists result,
    GapLoop.for_each checklist (check_category requirements_text) gaps = (Ok tt, result) /\
    List.filter (in_category category) result = List.filter (in_category category) gaps.
Proof.
  revert gaps. induction checklist as [|[other items] rest IH]; intros gaps Hnot;
    cbn [GapLoop.for_each].
  - exists gaps. split; reflexivity.
  - destruct (check_category_of_category requirements_text other items gaps)
      as (extra & Hrun & Hextra).
    rewrite (bind_ok _ _ gaps tt _ Hrun).
    destruct (IH (gaps ++ extra)) as (result & -> & Hfilter).
    { intros Hin. apply Hnot. right. exact Hin. }
    exists result. split; [reflexivity|].
    rewrite Hfilter, List.filter_app, (filter_other_category category other extra).
    + apply app_nil_r.
    + intros ->. apply Hnot. left. reflexivity.
    + exact Hextra.
Qed.

(** In the result of the whole loop, the gaps of a category whose backend
    call failed are those of the keyword rule. *)
Lemma check_loop_category `{StrCase} `{Backend} (requirements_text category : string)
    (items : list ChecklistItem.t) (checklist : Dict.t (list ChecklistItem.t))
    (gaps : list Gap.t) :
  NoDup (Dict.keys checklist) ->
  In (category, items) checklist ->
  backend_failed requirements_text items ->
  exists result,
    GapLoop.for_each checklist (check_category requirements_text) gaps = (Ok tt, result) /\
    List.filter (in_category category) result
    = List.filter (in_category category) gaps
        ++ keyword_gaps requirements_text category items.
Proof.
  revert gaps. induction checklist as [|[other items'] rest IH];
    intros gaps Hnodup Hin Hfail; [destruct Hin|].
  cbn [GapLoop.for_each]. cbn [Dict.keys map fst] in Hnodup.
  inversion Hnodup as [|? ? Hfresh Hnodup']; subst. clear Hnodup.
  rewrite list_elem_of_In in Hfresh.
  destruct Hin as [[= -> ->]|Hin].
  - rewrite (bind_ok _ _ gaps tt _ (check_category_failed _ _ _ gaps Hfail)).
    destruct (check_loop_other requirements_text category rest
                (gaps ++ keyword_gaps requirements_text category items))
      as (result & -> & Hfilter); [exact Hfresh|].
    exists result. split; [reflexivity|].
    rewrite Hfilter, List.filter_app.
    rewrite (filter_of_category _ _ (keyword_gaps_of_category _ _ _)). reflexivity.
  - destruct (check_category_of_category requirements_text other items' gaps)
      as (extra & Hrun & Hextra).
    rewrite (bind_ok _ _ gaps tt _ Hrun).
    destruct (IH (gaps ++ extra) Hnodup' Hin Hfail) as (result & -> & Hfilter).
    exists result. split; [reflexivity|].
    rewrite Hfilter, List.filter_app, (filter_other_category category other extra).
    + rewrite app_nil_r. reflexivity.
    + intros ->. apply Hfresh. unfold Dict.keys. apply in_map_iff.
      exists (category, items). auto.
    + exact Hextra.
Qed.

(** The checklist a call resolves, from the table as imported. *)
Lemma checklist_bindings_cases (loan_type : string) :
  checklist_bindings loan_type = extended loan_type CHECKLIST_literal.
Proof.
  unfold checklist_bindings.
  rewrite (get_checklist_run loan_type module_store CHECKLIST_literal)
    by apply lookup_singleton_eq.
  rewrite lookup_insert_eq. reflexivity.
Qed.

(** The categories of a resolved checklist are pairwise distinct. *)
Lemma checklist_categories_distinct (loan_type : string) :
  NoDup (Dict.keys (checklist_bindings loan_type)).
Proof.
  rewrite checklist_bindings_cases. unfold extended.
  destruct (String.eqb loan_type "FHA"); [|destruct (String.eqb loan_type "VA")];
    apply (@bool_decide_unpack _ (NoDup_dec _)); vm_compute; exact I.
Qed.

Lemma keyword_rule `{StrCase} (requirements_text category : string)
    (items : list ChecklistItem.t) (item : ChecklistItem.t) :
  In item items ->
  In (gap_of category item) (keyword_gaps requirements_text category items)
  <-> str_in (replace_char "_" " " (ChecklistItem.key item))
             (lower requirements_text) = false.
Proof.
  intros Hitem. unfold keyword_gaps. rewrite in_map_iff. split.
  - intros (item' & Heq & Hin). apply List.filter_In in Hin as [_ Hneg].
    apply negb_true_iff in Hneg.
    assert (Hkey : ChecklistItem.key item' = ChecklistItem.key item)
      by (apply (f_equal Gap.key) in Heq; exact Heq).
    rewrite <- Hkey. exact Hneg.
  - intros Hnot. exists item. split; [reflexivity|].
    apply List.filter_In. split; [exact Hitem|]. rewrite Hnot. reflexivity.
Qed.

(** C3. When the backend call of a category errors or its payload does not
    parse as a JSON object, the iteration appends exactly the gaps of the
    keyword rule: an item of the category becomes a gap if and only if its
    key, underscores replaced by spaces, is not a substring of the
    lower-cased requirements text.  When this happens for every category
    the checker returns those gaps, category by category.  Whatever the
    backend does, [check_items] returns a gap list and raises nothing.
    And [check_against_checklist] itself, on every author output, returns
    a gap list in which the gaps of each category whose backend call
    failed are exactly those of the keyword rule, item by item, whatever
    the backend answered for the other categories; when the call fails
    for every category of the resolved checklist, the list is that of the
    keyword rule throughout. *)
Theorem gap_checker_fallback `{StrCase} `{Backend} (requirements_text : string) :
  (forall category items gaps,
      backend_failed requirements_text items ->
      check_category requirements_text (category, items) gaps
      = (Ok tt, gaps ++ keyword_gaps requirements_text category items) /\
      forall item, In item items ->
        (In (gap_of category item) (keyword_gaps requirements_text category items)
         <-> str_in (replace_char "_" " " (ChecklistItem.key item))
                    (lower requirements_text) = false)) /\
  (forall checklist,
      (forall category items,
          In (category, items) checklist -> backend_failed requirements_text items) ->
      check_items requirements_text checklist
      = Ok (flat_map (fun '(category, items) =>
                        keyword_gaps requirements_text category items) checklist)) /\
  (forall checklist, exists gaps, check_items requirements_text checklist = Ok gaps) /\
  (forall author_output,
      AuthorOutput.structured_requirements author_output = requirements_text ->
      let checklist :=
        checklist_bindings
          (LoanClassification.primary_type
             (AuthorOutput.loan_classification author_output)) in
      exists gaps,
        check_against_checklist author_output = Ok gaps /\
        (forall category items,
            In (category, items) checklist ->
            backend_failed requirements_text items ->
            List.filter (in_category category) gaps
            = keyword_gaps requirements_text category items /\
            forall item, In item items ->
              (In (gap_of category item) gaps
               <-> str_in (replace_char "_" " " (ChecklistItem.key item))
                          (lower requirements_text) = false)) /\
        ((forall category items,
             In (category, items) checklist ->
             backend_failed requirements_text items) ->
         gaps = flat_map (fun '(category, items) =>
                            keyword_gaps requirements_text category items) checklist)).
Proof.
  split; [|split; [|split]].
  - intros category items gaps Hfail.
    split; [apply check_category_failed; exact Hfail|].
    intros item Hitem. apply keyword_rule. exact Hitem.
  - intros checklist Hfail. unfold check_items, Dict.items.
    rewrite check_loop_failed by exact Hfail. reflexivity.
  - intros checklist. apply check_items_returns.
  - intros author_output Htext checklist.
    unfold check_against_checklist. rewrite Htext. fold checklist.
    destruct (check_items_returns requirements_text checklist) as [gaps Hgaps].
    exists gaps. split; [exact Hgaps|]. split.
    + intros category items Hin Hfail.
      assert (Hfilter : List.filter (in_category category) gaps
                        = keyword_gaps requirements_text category items).
      { destruct (check_loop_category requirements_text category items checklist []
                    (checklist_categories_distinct _) Hin Hfail)
          as (result & Hrun & Hfilter).
        unfold check_items, Dict.items in Hgaps. rewrite Hrun in Hgaps.
        injection Hgaps as <-. exact Hfilter. }
      split; [exact Hfilter|].
      intros item Hitem.
      rewrite <- (keyword_rule requirements_text category items item Hitem).
      rewrite <- Hfilter, List.filter_In. unfold in_category.
      split; [intros Hg; split; [exact Hg|apply String.eqb_refl]|intros [Hg _]; exact Hg].
    + intros Hfail. unfold check_items, Dict.items in Hgaps.
      rewrite check_loop_failed in Hgaps by exact Hfail.
      injection Hgaps as <-. reflexivity.
Qed.

Lemma gap_checker_fallback_witness :
  exists gaps,
    @check_against_checklist ascii_case backend_down
      (AuthorOutput.Build (@detect_loan_type ascii_case "an FHA loan")
         "Loan Type: FHA, loan term 30 years, credit score 640" "an FHA loan")
    = Ok gaps /\
    map Gap.key gaps
    = [ "loan_amount"; "interest_rate_type"; "ltv_limits"; "dti_thresholds";
        "income_verification"; "employment_history"; "reserves"; "property_types";
        "occupancy"; "appraisal"; "trid_timing"; "hmda_fields"; "fair_lending";
        "state_specific"; "mip_calculation"; "fha_limits" ] /\
    List.filter (in_category "fha_specific") gaps
    = [ Gap.Build "fha_specific" "mip_calculation" "MIP calculation rules" "critical"
          "How should upfront and annual MIP be calculated?";
        Gap.Build "fha_specific" "fha_limits" "FHA loan limits by county" "high"
          "How will FHA loan limits be determined?" ].
Proof.
  destruct (@gap_checker_fallback ascii_case backend_down
              "Loan Type: FHA, loan term 30 years, credit score 640")
    as (_ & _ & _ & Hchecker).
  destruct (Hchecker
              (AuthorOutput.Build (@detect_loan_type ascii_case "an FHA loan")
                 "Loan Type: FHA, loan term 30 years, credit score 640" "an FHA loan")
              eq_refl)
    as (gaps & Hrun & Hcategory & Hall).
  exists gaps. split; [exact Hrun|].
  assert (Hdown : forall items,
             @backend_failed backend_down
               "Loan Type: FHA, loan term 30 years, credit score 640" items)
    by (intros items; left; eexists; reflexivity).
  split.
  - rewrite Hall by (intros category items _; apply Hdown). vm_compute. reflexivity.
  - destruct (Hcategory "fha_specific" fha_specific_items) as [-> _].
    + vm_compute. right. right. right. right. left. reflexivity.
    + apply Hdown.
    + vm_compute. reflexivity.
Defined.

(** ** agents.py: the question generator *)

Section SortedBy.
Context {A : Type} (key : A -> Z).

Definition key_le (a b : A) : Prop := key a <= key b.

Lemma insert_by_perm (x : A) (l : list A) : Permutation (insert_by key x l) (x :: l).
Proof.
  induction l as [|y l IH]; simpl; [reflexivity|].
  destruct (key x <=? key y); [reflexivity|].
  rewrite IH. apply perm_swap.
Qed.

Lemma sorted_perm (l : list A) : Permutation (sorted key l) l.
Proof.
  induction l as [|x l IH]; simpl; [reflexivity|].
  rewrite insert_by_perm, IH. reflexivity.
Qed.

Lemma insert_by_sorted (x : A) (l : list A) :
  StronglySorted key_le l -> StronglySorted key_le (insert_by key x l).
Proof.
  induction 1 as [|y l Hs IH Hy]; simpl.
  - repeat constructor.
  - destruct (Z.leb_spec (key x) (key y)) as [Hle|Hgt].
    + constructor; [constructor; assumption|].
      constructor; [exact Hle|].
      eapply List.Forall_impl; [|exact Hy].
      intros z Hz. unfold key_le in *. lia.
    + constructor; [exact IH|].
      rewrite insert_by_perm. constructor; [unfold key_le; lia|exact Hy].
Qed.

Lemma sorted_sorted (l : list A) : StronglySorted key_le (sorted key l).
Proof.
  induction l as [|x l IH]; simpl; [constructor|].
  apply insert_by_sorted, IH.
Qed.

(** Insertion passes only elements of a smaller key, so the elements of
    each key keep their order. *)
Lemma filter_insert_by (k : Z) (x : A) (l : list A) :
  List.filter (fun y => key y =? k) (insert_by key x l)
  = if key x =? k then x :: List.filter (fun y => key y =? k) l
    else List.filter (fun y => key y =? k) l.
Proof.
  induction l as [|y l IH]; simpl; [reflexivity|].
  destruct (Z.leb_spec (key x) (key y)) as [Hle|Hgt]; simpl; [reflexivity|].
  rewrite IH.
  destruct (Z.eqb_spec (key y) k), (Z.eqb_spec (key x) k); try reflexivity; lia.
Qed.

Lemma sorted_stable (k : Z) (l : list A) :
  List.filter (fun y => key y =? k) (sorted key l)
  = List.filter (fun y => key y =? k) l.
Proof.
  induction l as [|x l IH]; simpl; [reflexivity|].
  rewrite filter_insert_by, IH. reflexivity.
Qed.

(** A stable sort has one possible result: two lists sorted by key whose
    elements of each key come in the same order are equal.  So [sorted]
    is what any stable sorting algorithm returns. *)
Lemma stable_sort_unique (l1 l2 : list A) :
  StronglySorted key_le l1 -> StronglySorted key_le l2 ->
  (forall k, List.filter (fun y => key y =? k) l1
             = List.filter (fun y => key y =? k) l2) ->
  l1 = l2.
Proof.
  intros Hs1. revert l2.
  induction Hs1 as [|x l1 Hs1 IH Hx]; intros l2 Hs2 Hf.
  - destruct l2 as [|y l2]; [reflexivity|].
    specialize (Hf (key y)). simpl in Hf. rewrite Z.eqb_refl in Hf. discriminate.
  - destruct Hs2 as [|y l2 Hs2 Hy].
    + specialize (Hf (key x)). simpl in Hf. rewrite Z.eqb_refl in Hf. discriminate.
    + assert (Hxy : key x = key y).
      { assert (Hle1 : key y <= key x).
        { pose proof (Hf (key x)) as H1. simpl in H1. rewrite Z.eqb_refl in H1.
          assert (Hin : In x (List.filter (fun z => key z =? key x) (y :: l2)))
            by (simpl; rewrite <- H1; left; reflexivity).
          apply List.filter_In in Hin as [[<-|Hin] _]; [lia|].
          rewrite List.Forall_forall in Hy. apply Hy, Hin. }
        assert (Hle2 : key x <= key y).
        { pose proof (Hf (key y)) as H1. simpl in H1. rewrite Z.eqb_refl in H1.
          assert (Hin : In y (List.filter (fun z => key z =? key y) (x :: l1)))
            by (simpl; rewrite H1; left; reflexivity).
          apply List.filter_In in Hin as [[<-|Hin] _]; [lia|].
          rewrite List.Forall_forall in Hx. apply Hx, Hin. }
        lia. }
      assert (x = y).
      { specialize (Hf (key x)). simpl in Hf.
        rewrite <- Hxy, Z.eqb_refl in Hf. congruence. }
      subst y. f_equal. apply IH; [exact Hs2|].
      intros k. specialize (Hf k). simpl in Hf.
      destruct (key x =? k); congruence.
Qed.

End SortedBy.

Lemma fold_left_snoc {A B} (f : A -> B) (l : list A) (acc : list B) :
  fold_left (fun acc x => acc ++ [f x]) l acc = acc ++ map f l.
Proof.
  revert acc. induction l as [|x l IH]; intros acc; simpl.
  - rewrite app_nil_r. reflexivity.
  - rewrite IH, <- app_assoc. reflexivity.
Qed.

Lemma filter_filter_implies {A} (p q : A -> bool) (l : list A) :
  (forall x, p x = true -> q x = true) ->
  List.filter p (List.filter q l) = List.filter p l.
Proof.
  intros Hpq. induction l as [|x l IH]; simpl; [reflexivity|].
  destruct (q x) eqn:Hq; simpl.
  - rewrite IH. reflexivity.
  - destruct (p x) eqn:Hp; [|exact IH].
    rewrite (Hpq x Hp) in Hq. discriminate.
Qed.

Lemma firstn_incl {A} (n : nat) (l : list A) (x : A) : In x (firstn n l) -> In x l.
Proof.
  intros Hin. rewrite <- (firstn_skipn n l). apply in_or_app. left. exact Hin.
Qed.

Lemma slice_to_incl {A} (l : list A) (stop : Z) (x : A) :
  In x (slice_to l stop) -> In x l.
Proof. unfold slice_to. destruct (0 <=? stop); apply firstn_incl. Qed.

Definition gap_rank (g : Gap.t) : Z := severity_rank (Gap.severity g).

Lemma generate_questions_map (gaps : list Gap.t) (max_questions : Z) :
  generate_questions gaps max_questions
  = map question_of (slice_to (sorted gap_rank gaps) max_questions).
Proof. unfold generate_questions. apply (fold_left_snoc question_of _ []). Qed.

(** The claim of C9 fails for a negative [max_questions]: the slice
    [sorted_gaps[:-1]] drops the last gap only, so three gaps give two
    records, which is more than [-1]. *)
Lemma generate_questions_negative_bound :
  let gaps := [ Gap.Build "c1" "k1" "d1" "high" "q1";
                Gap.Build "c2" "k2" "d2" "low" "q2";
                Gap.Build "c3" "k3" "d3" "critical" "q3" ] in
  generate_questions gaps (-1)
    = [ Question.Build "q3" "critical" "c3"; Question.Build "q1" "high" "c1" ] /\
  ~ (Z.of_nat (length (generate_questions gaps (-1))) <= -1).
Proof. split; [reflexivity|]. vm_compute. intros H. apply H. reflexivity. Qed.

(** C9, amended. [generate_questions] sorts the gaps by severity rank
    (critical 0, high 1, medium 2, low 3, anything else 4) with a stable
    sort: the result is an ascending permutation in which the gaps of each
    severity keep their input order.  It emits the records
    [{question, severity, category}] of the gaps of a slice of that order;
    for [max_questions >= 0] (5 by default) the slice is the first
    [max_questions] gaps, so at most [max_questions] records are
    returned. *)
Theorem generate_questions_spec (gaps : list Gap.t) (max_questions : Z) :
  let sorted_gaps := sorted gap_rank gaps in
  (severity_rank "critical" = 0 /\ severity_rank "high" = 1 /\
   severity_rank "medium" = 2 /\ severity_rank "low" = 3 /\
   forall s, s <> "critical" -> s <> "high" -> s <> "medium" -> s <> "low" ->
             severity_rank s = 4) /\
  Permutation sorted_gaps gaps /\
  StronglySorted (fun a b => gap_rank a <= gap_rank b) sorted_gaps /\
  (forall severity,
      List.filter (fun g => String.eqb (Gap.severity g) severity) sorted_gaps
      = List.filter (fun g => String.eqb (Gap.severity g) severity) gaps) /\
  (forall k, List.filter (fun g => gap_rank g =? k) sorted_gaps
             = List.filter (fun g => gap_rank g =? k) gaps) /\
  generate_questions gaps max_questions
    = map question_of (slice_to sorted_gaps max_questions) /\
  (forall q, In q (generate_questions gaps max_questions) ->
             exists g, In g gaps /\ q = question_of g) /\
  (0 <= max_questions ->
   generate_questions gaps max_questions
     = map question_of (firstn (Z.to_nat max_questions) sorted_gaps) /\
   Z.of_nat (length (generate_questions gaps max_questions)) <= max_questions) /\
  (length (generate_questions gaps default_max_questions) <= 5)%nat.
Proof.
  intros sorted_gaps. subst sorted_gaps.
  repeat match goal with |- _ /\ _ => split end; try reflexivity.
  - intros s H1 H2 H3 H4. unfold severity_rank. cbn [Dict.get].
    repeat match goal with
    | |- context [String.eqb ?a ?b] => destruct (String.eqb_spec a b); [congruence|]
    end.
    reflexivity.
  - apply sorted_perm.
  - apply (sorted_sorted gap_rank).
  - intros severity.
    rewrite <- (filter_filter_implies _ (fun g => gap_rank g =? severity_rank severity)
                  (sorted gap_rank gaps)).
    + rewrite sorted_stable. apply filter_filter_implies.
      intros g Hg. apply String.eqb_eq in Hg. unfold gap_rank. rewrite Hg. apply Z.eqb_refl.
    + intros g Hg. apply String.eqb_eq in Hg. unfold gap_rank. rewrite Hg. apply Z.eqb_refl.
  - intros k. apply sorted_stable.
  - apply generate_questions_map.
  - intros q. rewrite generate_questions_map, in_map_iff.
    intros (g & <- & Hin). exists g. split; [|reflexivity].
    apply slice_to_incl in Hin. eapply Permutation_in; [apply sorted_perm|exact Hin].
  - intros Hbound. rewrite generate_questions_map, length_map. unfold slice_to.
    destruct (Z.leb_spec 0 max_questions); [|lia].
    split; [reflexivity|]. rewrite length_firstn. lia.
  - rewrite generate_questions_map, length_map. unfold slice_to, default_max_questions.
    simpl. rewrite length_firstn. lia.
Qed.

Lemma generate_questions_spec_witness :
  generate_questions
    [ Gap.Build "c1" "k1" "d1" "low" "q1"; Gap.Build "c2" "k2" "d2" "odd" "q2";
      Gap.Build "c3" "k3" "d3" "critical" "q3"; Gap.Build "c4" "k4" "d4" "low" "q4";
      Gap.Build "c5" "k5" "d5" "critical" "q5" ] 3
  = [ Question.Build "q3" "critical" "c3"; Question.Build "q5" "critical" "c5";
      Question.Build "q1" "low" "c1" ].
Proof.
  destruct (generate_questions_spec
    [ Gap.Build "c1" "k1" "d1" "low" "q1"; Gap.Build "c2" "k2" "d2" "odd" "q2";
      Gap.Build "c3" "k3" "d3" "critical" "q3"; Gap.Build "c4" "k4" "d4" "low" "q4";
      Gap.Build "c5" "k5" "d5" "critical" "q5" ] 3)
    as (_ & _ & _ & _ & _ & _ & _ & Hcap & _).
  destruct (Hcap ltac:(lia)) as [-> _]. reflexivity.
Defined.

(** ** main.py: the workflow *)

Definition iteration_of (s : State.t) : Z := State.get (State.iteration s) 0.
Definition approved_of (s : State.t) : bool := State.get (State.approved s) false.
Definition outcome_of (s : State.t) : string := State.get (State.outcome s) "clarify".

Lemma author_node_writes `{StrCase} `{Backend} (s u : State.t) :
  author_node s = Ok u -> State.iteration u = None /\ State.approved u = None.
Proof.
  unfold author_node. destruct (State.raw_requirements s); [|discriminate].
  destruct (extract _); simpl; [|discriminate].
  intros [= <-]. auto.
Qed.

Lemma critic_node_writes `{StrCase} `{Backend} (s u : State.t) :
  critic_node s = Ok u ->
  State.iteration u = Some (iteration_of s + 1) /\ State.approved u = None.
Proof.
  unfold critic_node. destruct (State.author_output s); [|discriminate].
  destruct (check_against_checklist _); simpl; [|discriminate].
  destruct (critique _ _); simpl; [|discriminate].
  intros [= <-]. auto.
Qed.

Lemma decision_input_writes (d : decision) (s : State.t) :
  State.iteration (decision_input d s) = None.
Proof. destruct d; reflexivity. Qed.

Lemma update_empty (s : State.t) : State.update s State.empty = s.
Proof. destruct s. reflexivity. Qed.

(** The three ways out of the critic. *)
Lemma after_critic_cases (s : State.t) :
  (approved_of s = true /\ after_critic s = Finished "end") \/
  (approved_of s = false /\ iteration_of s >= 3 /\ after_critic s = Finished "escalate") \/
  (approved_of s = false /\ iteration_of s < 3 /\ outcome_of s = "complete" /\
   after_critic s = Finished "end") \/
  (approved_of s = false /\ iteration_of s < 3 /\ outcome_of s <> "complete" /\
   after_critic s = At gate).
Proof.
  unfold after_critic, should_continue.
  fold (approved_of s) (iteration_of s) (outcome_of s).
  destruct (approved_of s); [left; auto|right].
  destruct (Z.geb_spec (iteration_of s) 3) as [Hge|Hlt].
  - left. split; [reflexivity|]. split; [lia|reflexivity].
  - right. destruct (String.eqb_spec (outcome_of s) "complete") as [Hc|Hc].
    + left. split; [reflexivity|]. split; [lia|]. split; [exact Hc|reflexivity].
    + right. split; [reflexivity|]. split; [lia|]. split; [exact Hc|].
      destruct (String.eqb (outcome_of s) "partial"); reflexivity.
Qed.

Lemma after_gate_cases (s : State.t) :
  after_gate s = Finished "end" \/ after_gate s = At author.
Proof.
  unfold after_gate, gate_router. destruct (State.get (State.approved s) false); auto.
Qed.

(** The author passes a configuration still allows. *)
Definition passes_left (c : config) : Z :=
  match fst c with
  | At author => Z.max 1 (3 - iteration_of (snd c))
  | At critic => Z.max 0 (2 - iteration_of (snd c))
  | At gate => Z.max 1 (3 - iteration_of (snd c))
  | Finished _ => 0
  end.

Definition at_author (c : config) : Z :=
  match fst c with
  | At author => 1
  | _ => 0
  end.

Lemma step_iteration `{StrCase} (c c' : config) :
  step c c' -> iteration_of (snd c) <= iteration_of (snd c').
Proof.
  intros Hstep. destruct Hstep as [B s u Hu|B s u Hu|d s s' u -> Hu|d s]; simpl.
  - apply author_node_writes in Hu as [Hi _].
    unfold iteration_of, State.update. simpl. rewrite Hi. simpl. lia.
  - apply critic_node_writes in Hu as [Hi _].
    unfold iteration_of at 2. unfold State.update. simpl. rewrite Hi. simpl. lia.
  - injection Hu as <-. rewrite update_empty.
    unfold iteration_of, State.update. simpl.
    rewrite decision_input_writes. simpl. lia.
  - unfold iteration_of, State.update. simpl.
    rewrite decision_input_writes. simpl. lia.
Qed.

Lemma step_passes_left `{StrCase} (c c' : config) :
  step c c' -> passes_left c' + at_author c <= passes_left c.
Proof.
  intros Hstep. destruct Hstep as [B s u Hu|B s u Hu|d s s' u -> Hu|d s].
  - apply author_node_writes in Hu as [Hi _].
    unfold passes_left, at_author, iteration_of, State.update. simpl.
    rewrite Hi. simpl. lia.
  - apply critic_node_writes in Hu as [Hi _].
    assert (Hit : iteration_of (State.update s u) = iteration_of s + 1).
    { unfold iteration_of at 1. unfold State.update. simpl. rewrite Hi. reflexivity. }
    unfold passes_left, at_author.
    destruct (after_critic_cases (State.update s u))
      as [[_ ->]|[(_ & _ & ->)|[(_ & _ & _ & ->)|(_ & Hlt & _ & ->)]]];
      simpl; lia.
  - injection Hu as <-. rewrite update_empty.
    assert (Hit : iteration_of (State.update s (decision_input d s)) = iteration_of s).
    { unfold iteration_of, State.update. simpl.
      rewrite decision_input_writes. reflexivity. }
    unfold passes_left, at_author.
    destruct (after_gate_cases (State.update s (decision_input d s))) as [->| ->];
      simpl; lia.
  - unfold passes_left, at_author, iteration_of, State.update. simpl.
    rewrite decision_input_writes. simpl. lia.
Qed.

Lemma passes_left_nonneg (c : config) : 0 <= passes_left c.
Proof. unfold passes_left. destruct (fst c) as [[]|]; lia. Qed.

Lemma run_passes_left `{StrCase} (c c' : config) (n : nat) :
  run c n c' -> Z.of_nat n + passes_left c' <= passes_left c.
Proof.
  induction 1 as [c|s c' c'' n Hstep _ IH|p s c' c'' n Hp Hstep _ IH].
  - lia.
  - apply step_passes_left in Hstep. unfold at_author in Hstep. simpl in Hstep. lia.
  - apply step_passes_left in Hstep.
    assert (0 <= at_author (p, s)) by (unfold at_author; destruct p as [[]|]; simpl; lia).
    lia.
Qed.

Lemma finished_stuck `{StrCase} (reason : string) (s : State.t) (c : config) :
  ~ step (Finished reason, s) c.
Proof. intros Hstep. inversion Hstep. Qed.

(** An interpreter of the controller for a given backend and a list of
    decisions; every run it makes is a run of the relation. *)
Fixpoint simulate `{StrCase} (B : Backend) (fuel : nat) (decisions : list decision)
    (c : config) : nat * config :=
  match fuel with
  | O => (O, c)
  | S fuel =>
      match c with
      | (At author, s) =>
          match author_node s with
          | Ok u =>
              let '(n, c') :=
                simulate B fuel decisions (position_of "" author_edge, State.update s u) in
              (S n, c')
          | Raise _ => (O, c)
          end
      | (At critic, s) =>
          match critic_node s with
          | Ok u =>
              simulate B fuel decisions
                (after_critic (State.update s u), State.update s u)
          | Raise _ => (O, c)
          end
      | (At gate, s) =>
          match decisions with
          | d :: rest =>
              let s' := State.update s (decision_input d s) in
              simulate B fuel rest (after_gate (State.update s' State.empty),
                                    State.update s' State.empty)
          | [] => (O, c)
          end
      | (Finished _, _) => (O, c)
      end
  end.

Lemma simulate_run `{StrCase} (B : Backend) (fuel : nat) (decisions : list decision)
    (c : config) :
  run c (fst (simulate B fuel decisions c)) (snd (simulate B fuel decisions c)).
Proof.
  revert decisions c. induction fuel as [|fuel IH]; intros decisions [p s]; simpl.
  - constructor.
  - destruct p as [[| |]|reason].
    + destruct (author_node s) as [u|e] eqn:Hu; [|constructor].
      specialize (IH decisions (position_of "" author_edge, State.update s u)).
      destruct (simulate B fuel decisions _) as [n c']. simpl in *.
      eapply run_author; [exact (step_author B s u Hu)|exact IH].
    + destruct (critic_node s) as [u|e] eqn:Hu; [|constructor].
      eapply run_other; [discriminate|exact (step_critic B s u Hu)|apply IH].
    + destruct decisions as [|d rest]; [constructor|].
      eapply run_other; [discriminate| |apply IH].
      eapply step_gate; reflexivity.
    + constructor.
Qed.

(** A pass of author and critic that returns has run the author, counted
    one iteration, left [approved] as it was and stored the position the
    router of the critic gave. *)
Lemma run_from_author_counts `{StrCase} `{Backend} (s s' : State.t) (cp : Checkpoint.t) :
  run_from_author s = (cp, Ok s') ->
  (exists u, author_node s = Ok u) /\
  iteration_of s' = iteration_of s + 1 /\
  approved_of s' = approved_of s /\
  cp = Checkpoint.Build s' (after_critic s').
Proof.
  unfold run_from_author.
  destruct (author_node s) as [u|e] eqn:Hu; [|discriminate].
  destruct (critic_node (State.update s u)) as [u'|e] eqn:Hu'; [|discriminate].
  intros [= <- <-]. split; [eauto|].
  apply author_node_writes in Hu as [Hi Ha].
  apply critic_node_writes in Hu' as [Hi' Ha'].
  split; [|split; [|reflexivity]].
  - unfold iteration_of at 1. unfold State.update at 1. simpl. rewrite Hi'. simpl.
    unfold iteration_of, State.update. simpl. rewrite Hi. reflexivity.
  - unfold approved_of, State.update. simpl. rewrite Ha', Ha. reflexivity.
Qed.

(** A submission to a thread whose run has ended starts a run at the
    entry point, from the stored values. *)
Lemma invoke_ended `{StrCase} `{Backend} (input : State.t) (thread_id reason : string)
    (st : threads) (cp : Checkpoint.t) :
  st !! thread_id = Some cp ->
  Checkpoint.next cp = Finished reason ->
  invoke input thread_id st
  = (snd (run_from_author (State.update (Checkpoint.values cp) input)),
     <[thread_id := fst (run_from_author (State.update (Checkpoint.values cp) input))]> st).
Proof.
  intros Hcp Hnext. unfold invoke, get_state. rewrite Hcp.
  cbn [fmap option_fmap option_map]. rewrite Hnext.
  destruct (run_from_author _). reflexivity.
Qed.

(** C2, amended. The way out of the critic is decided in order: approved
    gives the terminal "end"; otherwise an iteration counter of at least 3
    gives the terminal "escalate"; otherwise the outcome "complete" gives
    the terminal "end"; otherwise the gate.  Hence, within one run of the
    workflow, a critic pass that leaves the thread unapproved with the
    counter at 3 or more ends the run with reason "escalate", whatever the
    outcome, and the run has no further transition; a run from the author
    with the counter at [i] executes the author at most [max 1 (3 - i)]
    times, so at most three times on the input of [run_analysis], which
    sets the counter to 0; and no transition decreases the iteration
    counter.  The bound is that of one run, not of the thread: no
    operation looks at how the last run of a thread ended.  On a thread
    whose run has ended, [reject_and_refine] runs author and critic once
    more from the stored values, unapproved and with the counter one
    further, and [run_analysis] starts the counter again at 0, so that it
    is 1 after the pass. *)
Theorem critic_routing_bounds_retries `{StrCase} :
  (forall s,
      (approved_of s = true ->
       should_continue s = "end" /\ after_critic s = Finished "end") /\
      (approved_of s = false -> iteration_of s >= 3 ->
       should_continue s = "escalate" /\ after_critic s = Finished "escalate") /\
      (approved_of s = false -> iteration_of s < 3 -> outcome_of s = "complete" ->
       should_continue s = "end" /\ after_critic s = Finished "end") /\
      (approved_of s = false -> iteration_of s < 3 -> outcome_of s <> "complete" ->
       should_continue s = "gate" /\ after_critic s = At gate)) /\
  (forall s c,
      step (At critic, s) c ->
      approved_of (snd c) = false -> iteration_of (snd c) >= 3 ->
      fst c = Finished "escalate" /\ forall c', ~ step c c') /\
  (forall s n c,
      run (At author, s) n c -> Z.of_nat n <= Z.max 1 (3 - iteration_of s)) /\
  (forall values requirements n c,
      run (At author, State.update values (analysis_input requirements)) n c ->
      (n <= 3)%nat) /\
  (forall c c', step c c' -> iteration_of (snd c) <= iteration_of (snd c')) /\
  (forall (B : Backend) thread_id feedback st cp reason s',
      st !! thread_id = Some cp ->
      Checkpoint.next cp = Finished reason ->
      fst (reject_and_refine thread_id feedback st) = Ok s' ->
      (exists u,
          author_node
            (State.update (Checkpoint.values cp)
               (reject_input (Checkpoint.values cp) feedback)) = Ok u) /\
      iteration_of s' = iteration_of (Checkpoint.values cp) + 1 /\
      approved_of s' = false /\
      snd (reject_and_refine thread_id feedback st) !! thread_id
      = Some (Checkpoint.Build s' (after_critic s'))) /\
  (forall (B : Backend) (P : PyHash) requirements st cp reason a,
      st !! thread_id_of requirements = Some cp ->
      Checkpoint.next cp = Finished reason ->
      fst (run_analysis requirements st) = Ok a ->
      exists s',
        snd (run_analysis requirements st) !! thread_id_of requirements
        = Some (Checkpoint.Build s' (after_critic s')) /\
        iteration_of s' = 1).
Proof.
  split; [|split; [|split; [|split; [|split; [|split]]]]].
  - intros s. unfold after_critic, should_continue.
    fold (approved_of s) (iteration_of s) (outcome_of s).
    destruct (approved_of s); destruct (Z.geb_spec (iteration_of s) 3);
      destruct (String.eqb_spec (outcome_of s) "complete");
      destruct (String.eqb (outcome_of s) "partial");
      repeat split; intros; try reflexivity; try congruence; try lia.
  - intros s c Hstep Happ Hit.
    inversion Hstep as [|B s0 u Hu Heq| |]; subst.
    cbn [fst snd] in *.
    destruct (after_critic_cases (State.update s u))
      as [[Hc _]|[(_ & _ & He)|[(_ & Hc & _)|(_ & Hc & _)]]];
      try congruence; try lia.
    rewrite He. split; [reflexivity|apply finished_stuck].
  - intros s n c Hrun. apply run_passes_left in Hrun.
    pose proof (passes_left_nonneg c).
    unfold passes_left in Hrun at 2. simpl in Hrun. lia.
  - intros values requirements n c Hrun. apply run_passes_left in Hrun.
    pose proof (passes_left_nonneg c).
    unfold passes_left in Hrun at 2. simpl in Hrun.
    unfold iteration_of in Hrun. simpl in Hrun. lia.
  - apply @step_iteration.
  - intros B thread_id feedback st cp reason s' Hcp Hnext.
    unfold reject_and_refine. rewrite (invoke_ended _ _ reason _ cp Hcp Hnext).
    cbn [fst snd]. unfold get_state. rewrite Hcp.
    destruct (run_from_author _) as [cp' r] eqn:Hrun. cbn [fst snd].
    intros ->. apply run_from_author_counts in Hrun as (Hu & Hi & Ha & ->).
    split; [exact Hu|]. split; [|split; [|apply lookup_insert_eq]].
    + rewrite Hi. unfold iteration_of, State.update. reflexivity.
    + rewrite Ha. reflexivity.
  - intros B P requirements st cp reason a Hcp Hnext.
    unfold run_analysis. rewrite (invoke_ended _ _ reason _ cp Hcp Hnext).
    destruct (run_from_author _) as [cp' [s'|e]] eqn:Hrun; cbn [fst snd exc_bind];
      [|discriminate].
    intros _. apply run_from_author_counts in Hrun as (_ & Hi & _ & ->).
    exists s'. split; [apply lookup_insert_eq|].
    rewrite Hi. unfold iteration_of, State.update. reflexivity.
Qed.

Lemma critic_routing_bounds_retries_witness :
  should_continue
    {| State.raw_requirements := Some "An FHA loan";
       State.author_output := None; State.critic_output := None;
       State.confidence := None; State.outcome := Some "partial";
       State.questions := None; State.human_feedback := None;
       State.iteration := Some 3; State.approved := Some false |} = "escalate" /\
  (fst (@simulate ascii_case backend_down 20 [Reject "more detail"; Reject "even more"]
          (At author, analysis_input "A jumbo loan product")) <= 3)%nat.
Proof.
  destruct (@critic_routing_bounds_retries ascii_case) as (Horder & _ & _ & Hruns & _).
  split.
  - destruct (Horder
      {| State.raw_requirements := Some "An FHA loan";
         State.author_output := None; State.critic_output := None;
         State.confidence := None; State.outcome := Some "partial";
         State.questions := None; State.human_feedback := None;
         State.iteration := Some 3; State.approved := Some false |})
      as (_ & Hesc & _).
    apply Hesc; [reflexivity|]. unfold iteration_of. simpl. lia.
  - apply (Hruns State.empty "A jumbo loan product" _
             (snd (@simulate ascii_case backend_down 20
                     [Reject "more detail"; Reject "even more"]
                     (At author, analysis_input "A jumbo loan product")))).
    apply (@simulate_run ascii_case backend_down).
Defined.

(** The bound is reached: two rejections give three author passes, and the
    third critic pass escalates. *)
Example three_passes :
  let r := @simulate ascii_case backend_down 20 [Reject "more detail"; Reject "even more"]
             (At author, analysis_input "A jumbo loan product") in
  fst r = 3%nat /\ fst (snd r) = Finished "escalate".
Proof. vm_compute. tauto. Qed.

(** *** A thread after its run has ended *)

(** A stand-in for the interpreter's string hash, for the examples. *)
Definition length_hash : PyHash := {| hash := fun s => Z.of_nat (String.length s) |}.

(** The store after [run_analysis] on one text and two rejections of its
    thread, with a backend whose model is down. *)
Definition escalated_store : threads :=
  let analysed :=
    snd (@run_analysis ascii_case backend_down length_hash "A jumbo loan product" ∅) in
  let refined :=
    snd (@reject_and_refine ascii_case backend_down "demo-20" "more detail" analysed) in
  snd (@reject_and_refine ascii_case backend_down "demo-20" "even more" refined).

(** The claim of C2 fails for the thread.  The thread of the text, "demo-20",
    has reached iteration 3 unapproved with the outcome "clarify" and has
    ended with reason "escalate".  One more [reject_and_refine] nevertheless
    runs the author a fourth time, on the text with the third feedback, and
    leaves the counter at 4; and [run_analysis] on the same text takes the
    counter of the thread from 3 down to 1 and pauses the thread before the
    gate. *)
Lemma escalated_thread_runs_again :
  @thread_id_of length_hash "A jumbo loan product" = "demo-20" /\
  (exists s,
      escalated_store !! "demo-20" = Some (Checkpoint.Build s (Finished "escalate")) /\
      iteration_of s = 3 /\ approved_of s = false /\ outcome_of s = "clarify") /\
  (exists s,
      fst (@reject_and_refine ascii_case backend_down "demo-20" "once again"
             escalated_store) = Ok s /\
      option_map AuthorOutput.raw_input (State.author_output s)
      = Some ("A jumbo loan product"
              +:+ nl +:+ nl +:+ "Additional context: more detail"
              +:+ nl +:+ nl +:+ "Additional context: even more"
              +:+ nl +:+ nl +:+ "Additional context: once again") /\
      iteration_of s = 4 /\
      snd (@reject_and_refine ascii_case backend_down "demo-20" "once again"
             escalated_store) !! "demo-20"
      = Some (Checkpoint.Build s (Finished "escalate"))) /\
  (exists s,
      snd (@run_analysis ascii_case backend_down length_hash "A jumbo loan product"
             escalated_store) !! "demo-20"
      = Some (Checkpoint.Build s (At gate)) /\
      iteration_of s = 1 /\ approved_of s = false).
Proof.
  split; [vm_compute; reflexivity|]. split; [|split].
  - eexists. split; [vm_compute; reflexivity|]. vm_compute. auto.
  - eexists. split; [vm_compute; reflexivity|]. vm_compute. auto.
  - eexists. split; [vm_compute; reflexivity|]. vm_compute. auto.
Qed.

(** ** main.py: resuming a thread *)

Lemma update_from_empty (u : State.t) : State.update State.empty u = u.
Proof.
  destruct u as [a b c d e f g h i]. unfold State.update, State.over. simpl.
  destruct a, b, c, d, e, f, g, h, i; reflexivity.
Qed.

Lemma invoke_unknown `{StrCase} `{Backend} (input : State.t) (thread_id : string)
    (st : threads) :
  st !! thread_id = None ->
  invoke input thread_id st
  = (snd (run_from_author input), <[thread_id := fst (run_from_author input)]> st).
Proof.
  intros Hnone. unfold invoke, get_state. rewrite Hnone. simpl.
  rewrite update_from_empty. destruct (run_from_author input). reflexivity.
Qed.

(** A run that [app.invoke] makes from the entry point is two steps of the
    controller, and its checkpoint is where they lead. *)
Lemma run_from_author_steps `{StrCase} `{Backend} (s s' : State.t) (cp : Checkpoint.t) :
  run_from_author s = (cp, Ok s') ->
  exists s1,
    step (At author, s) (At critic, s1) /\
    step (At critic, s1) (Checkpoint.next cp, s') /\
    Checkpoint.values cp = s'.
Proof.
  unfold run_from_author.
  destruct (author_node s) as [u|e] eqn:Hu; [|discriminate].
  destruct (critic_node (State.update s u)) as [u'|e] eqn:Hu'; [|discriminate].
  intros [= <- <-]. exists (State.update s u).
  split; [exact (step_author _ s u Hu)|].
  split; [exact (step_critic _ _ u' Hu')|reflexivity].
Qed.

(** The claim of C4 fails: on a store without the thread, with a backend
    whose model is down, [reject_and_refine] returns a state and leaves a
    thread under the unknown id. *)
Lemma reject_unknown_thread_runs :
  (∅ : threads) !! "no-such-thread" = None /\
  (exists s,
      fst (@reject_and_refine ascii_case backend_down
             "no-such-thread" "add the loan amount" ∅) = Ok s) /\
  is_Some (snd (@reject_and_refine ascii_case backend_down
                  "no-such-thread" "add the loan amount" ∅) !! "no-such-thread").
Proof.
  split; [apply lookup_empty|].
  unfold reject_and_refine. rewrite invoke_unknown by apply lookup_empty.
  cbn [fst snd]. split.
  - eexists. vm_compute. reflexivity.
  - rewrite lookup_insert_eq. eauto.
Qed.

(** C4, amended. For a thread id without persisted state neither resume
    operation checks that the thread exists.  [reject_and_refine] reads the
    missing requirements as the empty string and starts a run at the author
    on the feedback alone, with [approved] false; its result is that run's
    result and the store then holds a thread under the id.
    [approve_and_continue] starts a run on its two keys only, which the
    author node aborts with a [KeyError] on [raw_requirements], and the
    store holds that thread too. *)
Theorem resume_unknown_thread `{StrCase} `{Backend} (thread_id feedback : string)
    (st : threads) :
  st !! thread_id = None ->
  reject_and_refine thread_id feedback st
    = (snd (run_from_author (reject_input State.empty feedback)),
       <[thread_id := fst (run_from_author (reject_input State.empty feedback))]> st) /\
  State.raw_requirements (reject_input State.empty feedback)
    = Some (nl +:+ nl +:+ "Additional context: " +:+ feedback) /\
  State.approved (reject_input State.empty feedback) = Some false /\
  is_Some (snd (reject_and_refine thread_id feedback st) !! thread_id) /\
  approve_and_continue thread_id feedback st
    = (Raise (Exception "KeyError"),
       <[thread_id := Checkpoint.Build (approve_input feedback) (At author)]> st).
Proof.
  intros Hnone. unfold reject_and_refine, approve_and_continue.
  assert (Hget : get_state thread_id st = State.empty)
    by (unfold get_state; rewrite Hnone; reflexivity).
  rewrite Hget, !invoke_unknown by exact Hnone.
  split; [reflexivity|]. split; [reflexivity|]. split; [reflexivity|].
  split; [cbn [snd]; rewrite lookup_insert_eq; eauto|reflexivity].
Qed.

Lemma resume_unknown_thread_witness :
  @approve_and_continue ascii_case backend_down "no-such-thread" "fine" ∅
  = (Raise (Exception "KeyError"),
     <["no-such-thread" := Checkpoint.Build (approve_input "fine") (At author)]> ∅).
Proof.
  destruct (@resume_unknown_thread ascii_case backend_down "no-such-thread" "fine" ∅
              (lookup_empty _)) as (_ & _ & _ & _ & Happrove).
  exact Happrove.
Defined.

(** ** Binary64 subtraction yields numbers *)

Lemma iter_pos_invariant {A} (P : A -> Prop) (f : A -> A) :
  (forall x, P x -> P (f x)) -> forall p x, P x -> P (SpecFloat.iter_pos f p x).
Proof.
  intros Hf. induction p as [p IH|p IH|]; intros x Hx; simpl; auto.
Qed.

Lemma shr_1_nonneg (mrs : shr_record) : 0 <= shr_m mrs -> 0 <= shr_m (shr_1 mrs).
Proof.
  destruct mrs as [m r s]. simpl. destruct m as [|[p|p|]|p]; simpl; lia.
Qed.

Lemma shr_nonneg (mrs : shr_record) (e n : Z) :
  0 <= shr_m mrs -> 0 <= shr_m (fst (shr mrs e n)).
Proof.
  intros Hm. unfold shr. destruct n as [|p|p]; simpl; try exact Hm.
  apply (iter_pos_invariant (fun r => 0 <= shr_m r)); [apply shr_1_nonneg|exact Hm].
Qed.

Lemma shr_fexp_nonneg (m e : Z) (l : location) :
  0 <= m -> 0 <= shr_m (fst (shr_fexp prec emax m e l)).
Proof.
  intros Hm. unfold shr_fexp. apply shr_nonneg.
  destruct l as [|[]]; exact Hm.
Qed.

Lemma round_nearest_even_nonneg (m : Z) (l : location) :
  0 <= m -> 0 <= round_nearest_even m l.
Proof.
  intros Hm. unfold round_nearest_even.
  destruct l as [|[]]; try destruct (Z.even m); lia.
Qed.

Lemma binary_round_aux_number (s : bool) (m e : Z) (l : location) :
  0 <= m -> binary_round_aux prec emax s m e l <> S754_nan.
Proof.
  intros Hm. unfold binary_round_aux.
  pose proof (shr_fexp_nonneg m e l Hm) as H1.
  destruct (shr_fexp prec emax m e l) as [mrs' e'].
  pose proof (shr_fexp_nonneg
                (round_nearest_even (shr_m mrs') (loc_of_shr_record mrs')) e' loc_Exact
                (round_nearest_even_nonneg _ _ H1)) as H2.
  destruct (shr_fexp prec emax _ e' loc_Exact) as [mrs'' e''].
  simpl in H2. destruct (shr_m mrs'') as [|p|p]; try discriminate; [|lia].
  destruct (e'' <=? emax - prec); discriminate.
Qed.

Lemma binary_normalize_number (m e : Z) (szero : bool) :
  binary_normalize prec emax m e szero <> S754_nan.
Proof.
  unfold binary_normalize, binary_round.
  destruct m as [|p|p]; [discriminate| |];
    destruct (shl_align _ _ _) as [mz ez];
    apply binary_round_aux_number; lia.
Qed.

Definition is_number (x : float) : Prop := x <> S754_nan.

Definition is_finite (x : float) : Prop :=
  match x with
  | S754_zero _ | S754_finite _ _ _ => True
  | _ => False
  end.

(** Subtracting a finite double from a number leaves a number. *)
Lemma sub_number (x c : float) : is_number x -> is_finite c -> is_number (sub x c).
Proof.
  unfold is_number, sub, SFsub.
  destruct x as [sx|sx| |sx mx ex], c as [sc|sc| |sc mc ec]; simpl;
    intros Hx Hc; try contradiction; try discriminate.
  - destruct sx, sc; discriminate.
  - apply binary_normalize_number.
Qed.

Lemma literals_finite :
  is_finite f_0_0 /\ is_finite f_0_02 /\ is_finite f_0_05 /\ is_finite f_0_10 /\
  is_finite f_0_20 /\ is_finite f_1_0.
Proof. vm_compute. tauto. Qed.

Lemma deduct_number (r : float) (gap : Gap.t) : is_number r -> is_number (deduct r gap).
Proof.
  intros Hr. destruct literals_finite as (_ & H2 & H5 & H10 & _).
  unfold deduct.
  repeat match goal with
  | |- context [if ?b then _ else _] => destruct b
  end; try exact Hr; apply sub_number; assumption.
Qed.

Lemma fold_deduct_number (gaps : list Gap.t) (r : float) :
  is_number r -> is_number (fold_left deduct gaps r).
Proof.
  revert r. induction gaps as [|g gaps IH]; intros r Hr; simpl; [exact Hr|].
  apply IH, deduct_number, Hr.
Qed.

Lemma lt_is_number (x y : float) : lt x y = true -> is_number x /\ is_number y.
Proof.
  intros H. apply lt_rank3 in H as (a & b & Ha & Hb & _).
  split; intros ->; discriminate.
Qed.

Lemma lt_0_1 : lt f_0_0 f_1_0 = true.
Proof. vm_compute. reflexivity. Qed.

Lemma le_0_0 : le f_0_0 f_0_0 = true.
Proof. vm_compute. reflexivity. Qed.

Lemma le_1_1 : le f_1_0 f_1_0 = true.
Proof. vm_compute. reflexivity. Qed.

Lemma py_max_number (a b : float) : is_number a -> is_number (py_max a b).
Proof.
  intros Ha. unfold py_max, gt. destruct (SFltb a b) eqn:Hlt; [|exact Ha].
  apply (lt_is_number a b Hlt).
Qed.

(** ** agents.py: the confidence scorer *)

(** The score before the final clamp. *)
Definition final_score `{StrCase} (gaps : list Gap.t) (llm_critique : string) : float :=
  let rule_score := py_max f_0_0 (fold_left deduct gaps f_1_0) in
  let critique_lower := lower llm_critique in
  let llm_penalty :=
    if str_in "catastrophic" critique_lower || str_in "critical failure" critique_lower
    then f_0_20
    else if str_in "major gap" critique_lower || str_in "serious" critique_lower
    then f_0_10
    else f_0_0 in
  sub rule_score llm_penalty.

Lemma calculate_confidence_clamp `{StrCase} (gaps : list Gap.t) (llm_critique : string) :
  calculate_confidence gaps llm_critique
  = py_max f_0_0 (py_min f_1_0 (final_score gaps llm_critique)).
Proof. reflexivity. Qed.

(** The final clamp lands in [0, 1], whatever it is given. *)
Lemma clamp_range (x : float) :
  le f_0_0 (py_max f_0_0 (py_min f_1_0 x)) = true /\
  le (py_max f_0_0 (py_min f_1_0 x)) f_1_0 = true.
Proof.
  unfold py_max, py_min, gt.
  destruct (lt x f_1_0) eqn:H1.
  - destruct (SFltb f_0_0 x) eqn:H0.
    + split; apply lt_le; assumption.
    + split; [exact le_0_0|apply lt_le, lt_0_1].
  - fold (lt f_0_0 f_1_0). rewrite lt_0_1.
    split; [apply lt_le, lt_0_1|exact le_1_1].
Qed.

(** *** The score in the words of the specification

    The definitions below follow the specification, not the code: a
    deduction per listed severity, a floor at 0.0 after all deductions, a
    penalty by the first matching tier of phrases, and a clamp to [0, 1]. *)

Definition claim_deduction (severity : string) : option float :=
  match Dict.get [("critical", f_0_10); ("high", f_0_05); ("medium", f_0_02)] severity with
  | Some d => Some d
  | None => None
  end.

Definition claim_deductions (gaps : list Gap.t) : list float :=
  flat_map (fun g => match claim_deduction (Gap.severity g) with
                     | Some d => [d]
                     | None => []
                     end) gaps.

Definition claim_rule_score (gaps : list Gap.t) : float :=
  let total := fold_left sub (claim_deductions gaps) f_1_0 in
  if le total f_0_0 then f_0_0 else total.

Definition claim_tiers : list (list string * float) :=
  [ (["catastrophic"; "critical failure"], f_0_20);
    (["major gap"; "serious"], f_0_10) ].

Definition claim_penalty `{StrCase} (critique : string) : float :=
  match find (fun tier => existsb (fun phrase => str_in phrase (lower critique)) (fst tier))
             claim_tiers with
  | Some tier => snd tier
  | None => f_0_0
  end.

Definition clamp (x lo hi : float) : float :=
  if le x lo then lo else if le hi x then hi else x.

Definition claim_confidence `{StrCase} (gaps : list Gap.t) (critique : string) : float :=
  clamp (sub (claim_rule_score gaps) (claim_penalty critique)) f_0_0 f_1_0.

Lemma fold_deduct_claim (gaps : list Gap.t) (r : float) :
  fold_left deduct gaps r = fold_left sub (claim_deductions gaps) r.
Proof.
  revert r. induction gaps as [|g gaps IH]; intros r; [reflexivity|].
  unfold claim_deductions. cbn [flat_map fold_left].
  rewrite fold_left_app. fold (claim_deductions gaps). rewrite <- IH.
  f_equal. unfold deduct, claim_deduction. cbn [Dict.get].
  rewrite !(String.eqb_sym (Gap.severity g)).
  destruct (String.eqb "critical" (Gap.severity g)); [reflexivity|].
  destruct (String.eqb "high" (Gap.severity g)); [reflexivity|].
  destruct (String.eqb "medium" (Gap.severity g)); reflexivity.
Qed.

(** Between numbers, [<=] is the negation of the converse [<]. *)
Lemma le_negb_lt (x y : float) :
  is_number x -> is_number y -> le x y = negb (lt y x).
Proof.
  intros Hx Hy. destruct (le_or_gt x y Hx Hy) as [Hle|Hlt].
  - rewrite Hle. destruct (lt y x) eqn:Hlt; [|reflexivity].
    apply lt_not_ge in Hlt. unfold ge in Hlt. fold (le x y) in Hlt. congruence.
  - rewrite Hlt. apply lt_not_ge in Hlt. exact Hlt.
Qed.

Lemma number_0 : is_number f_0_0.
Proof. discriminate. Qed.

Lemma number_1 : is_number f_1_0.
Proof. vm_compute. discriminate. Qed.

Lemma py_max_floor (t : float) :
  is_number t -> py_max f_0_0 t = if le t f_0_0 then f_0_0 else t.
Proof.
  intros Ht. rewrite (le_negb_lt t f_0_0 Ht number_0).
  unfold py_max, gt. fold (lt f_0_0 t). destruct (lt f_0_0 t); reflexivity.
Qed.

Lemma py_clamp (x : float) :
  is_number x -> py_max f_0_0 (py_min f_1_0 x) = clamp x f_0_0 f_1_0.
Proof.
  intros Hx. unfold clamp.
  rewrite (le_negb_lt x f_0_0 Hx number_0), (le_negb_lt f_1_0 x number_1 Hx).
  unfold py_max, py_min, gt.
  destruct (lt x f_1_0) eqn:H1.
  - fold (lt f_0_0 x). destruct (lt f_0_0 x); reflexivity.
  - fold (lt f_0_0 f_1_0). rewrite lt_0_1.
    fold (lt f_0_0 x). destruct (lt f_0_0 x) eqn:H0; [reflexivity|].
    assert (Hle : le x f_0_0 = true)
      by (rewrite (le_negb_lt x f_0_0 Hx number_0), H0; reflexivity).
    rewrite (le_lt_trans _ _ _ Hle lt_0_1) in H1. discriminate.
Qed.

Lemma penalty_claim `{StrCase} (critique : string) :
  (if str_in "catastrophic" (lower critique) || str_in "critical failure" (lower critique)
   then f_0_20
   else if str_in "major gap" (lower critique) || str_in "serious" (lower critique)
   then f_0_10
   else f_0_0)
  = claim_penalty critique.
Proof.
  unfold claim_penalty, claim_tiers. cbn [find existsb fst snd].
  rewrite !orb_false_r.
  destruct (str_in "catastrophic" (lower critique) || str_in "critical failure" (lower critique));
    [reflexivity|].
  destruct (str_in "major gap" (lower critique) || str_in "serious" (lower critique));
    reflexivity.
Qed.

Lemma final_score_number `{StrCase} (gaps : list Gap.t) (llm_critique : string) :
  is_number (final_score gaps llm_critique).
Proof.
  destruct literals_finite as (H0 & _ & _ & H10 & H20 & _).
  unfold final_score. apply sub_number.
  - apply py_max_number, number_0.
  - repeat match goal with
    | |- context [if ?b then _ else _] => destruct b
    end; assumption.
Qed.

(** C1. [calculate_confidence] is the clamp to [0, 1] of the rule score
    minus the penalty, where the rule score starts at 1.0, loses 0.10 per
    critical gap, 0.05 per high gap, 0.02 per medium gap and nothing for any
    other severity, and is floored at 0.0 after all deductions, and where
    the penalty is 0.20 when the lower-cased critique contains "catastrophic"
    or "critical failure", else 0.10 when it contains "major gap" or
    "serious", else 0. *)
Theorem calculate_confidence_claim `{StrCase} (gaps : list Gap.t) (llm_critique : string) :
  calculate_confidence gaps llm_critique = claim_confidence gaps llm_critique.
Proof.
  rewrite calculate_confidence_clamp.
  rewrite py_clamp by apply final_score_number.
  unfold claim_confidence, final_score, claim_rule_score. f_equal.
  rewrite penalty_claim, <- fold_deduct_claim.
  rewrite py_max_floor by apply fold_deduct_number, number_1.
  reflexivity.
Qed.

(** ** Binary64 rounding *)

(** *** Powers of two and digit counts *)

Lemma pow2_pos (k : Z) : 0 <= k -> 0 < 2 ^ k.
Proof. intros Hk. apply Z.pow_pos_nonneg; lia. Qed.

Lemma pow2_split (a b : Z) : 0 <= a -> 0 <= b -> 2 ^ (a + b) = 2 ^ a * 2 ^ b.
Proof. intros Ha Hb. apply Z.pow_add_r; assumption. Qed.

Lemma pow2_le (a b : Z) : 0 <= a <= b -> 2 ^ a <= 2 ^ b.
Proof. intros Hab. apply Z.pow_le_mono_r; lia. Qed.

Lemma pow2_lt (a b : Z) : 0 <= a < b -> 2 ^ a < 2 ^ b.
Proof. intros Hab. apply Z.pow_lt_mono_r; lia. Qed.

(** The number of binary digits of a positive integer. *)
Definition digits (n : Z) : Z := Z.log2 n + 1.

Lemma digits2_pos_size (m : positive) : digits2_pos m = Pos.size m.
Proof. induction m as [m IH|m IH|]; simpl; congruence. Qed.

Lemma digits2_pos_digits (m : positive) : Zpos (digits2_pos m) = digits (Zpos m).
Proof.
  unfold digits. rewrite digits2_pos_size.
  destruct m as [m|m|]; simpl; try reflexivity; rewrite Pos2Z.inj_succ; lia.
Qed.

Lemma digits_bounds (n : Z) : 0 < n -> 2 ^ (digits n - 1) <= n < 2 ^ digits n.
Proof.
  intros Hn. unfold digits. destruct (Z.log2_spec n Hn) as [H1 H2].
  replace (Z.log2 n + 1 - 1) with (Z.log2 n) by lia.
  replace (Z.log2 n + 1) with (Z.succ (Z.log2 n)) by lia. auto.
Qed.

Lemma digits_unique (n d : Z) : 0 < d -> 2 ^ (d - 1) <= n < 2 ^ d -> digits n = d.
Proof.
  intros Hd Hn. unfold digits.
  rewrite (Z.log2_unique n (d - 1)); [lia|lia|].
  replace (Z.succ (d - 1)) with d by lia. exact Hn.
Qed.

Lemma digits_pos (n : Z) : 0 < n -> 0 < digits n.
Proof. intros Hn. unfold digits. pose proof (Z.log2_nonneg n). lia. Qed.

Lemma digits_le (a b : Z) : 0 < a <= b -> digits a <= digits b.
Proof. intros Hab. unfold digits. pose proof (Z.log2_le_mono a b). lia. Qed.

Lemma digits_shift (n k : Z) : 0 < n -> 0 <= k -> digits (n * 2 ^ k) = digits n + k.
Proof.
  intros Hn Hk. pose proof (digits_bounds n Hn) as [H1 H2].
  pose proof (digits_pos n Hn). pose proof (pow2_pos k Hk).
  apply digits_unique; [lia|].
  replace (digits n + k - 1) with (digits n - 1 + k) by lia.
  rewrite !pow2_split by lia. split; nia.
Qed.

(** At least [d] digits means at least [2^(d-1)]. *)
Lemma digits_ge (n d : Z) : 0 < n -> d <= digits n -> 2 ^ (d - 1) <= n.
Proof.
  intros Hn Hd. destruct (Z.le_gt_cases 1 d) as [H1|H1].
  - pose proof (digits_bounds n Hn) as [H2 _].
    pose proof (pow2_le (d - 1) (digits n - 1)). lia.
  - rewrite Z.pow_neg_r by lia. lia.
Qed.

Lemma digits_lt (n d : Z) : 0 < n -> digits n <= d -> n < 2 ^ d.
Proof.
  intros Hn Hd. pose proof (digits_bounds n Hn) as [_ H2].
  pose proof (digits_pos n Hn). pose proof (pow2_le (digits n) d). lia.
Qed.

(** *** Right shifts with round and sticky bits *)

Lemma iter_pos_nat {A} (f : A -> A) (p : positive) (x : A) :
  SpecFloat.iter_pos f p x = Nat.iter (Pos.to_nat p) f x.
Proof.
  revert x. induction p as [p IH|p IH|]; intros x; cbn [SpecFloat.iter_pos].
  - rewrite !IH, Pos2Nat.inj_xI.
    replace (S (2 * Pos.to_nat p)) with (Pos.to_nat p + (Pos.to_nat p + 1))%nat by lia.
    rewrite !Nat.iter_add. reflexivity.
  - rewrite !IH, Pos2Nat.inj_xO.
    replace (2 * Pos.to_nat p)%nat with (Pos.to_nat p + Pos.to_nat p)%nat by lia.
    rewrite Nat.iter_add. reflexivity.
  - reflexivity.
Qed.

Lemma shr_1_nonneg_eq (m : Z) (r s : bool) :
  0 <= m ->
  shr_1 (Build_shr_record m r s) = Build_shr_record (m / 2) (Z.odd m) (r || s).
Proof.
  intros Hm. rewrite <- Z.div2_div.
  destruct m as [|[p|p|]|p]; simpl; try reflexivity; lia.
Qed.

(** [j] right shifts of [m], started without round and sticky bits. *)
Definition shifted (m j : Z) : shr_record :=
  Build_shr_record (m / 2 ^ j) (Z.odd (m / 2 ^ (j - 1)))
    (negb (m mod 2 ^ (j - 1) =? 0)).

Lemma shifted_succ (m j : Z) :
  0 <= m -> 1 <= j -> shr_1 (shifted m j) = shifted m (j + 1).
Proof.
  intros Hm Hj. unfold shifted.
  pose proof (pow2_pos (j - 1) ltac:(lia)) as Hp.
  pose proof (pow2_pos j ltac:(lia)) as Hpj.
  rewrite shr_1_nonneg_eq by (apply Z.div_pos; lia).
  replace (j + 1 - 1) with j by lia.
  assert (E1 : m / 2 ^ j / 2 = m / 2 ^ (j + 1)).
  { rewrite Z.div_div by lia. rewrite pow2_split by lia. reflexivity. }
  assert (E3 : (Z.odd (m / 2 ^ (j - 1)) || negb (m mod 2 ^ (j - 1) =? 0))%bool
               = negb (m mod 2 ^ j =? 0)).
  { assert (Hj2 : 2 ^ j = 2 ^ (j - 1) * 2).
    { replace j with ((j - 1) + 1) at 1 by lia. rewrite pow2_split by lia. reflexivity. }
    rewrite Hj2, Z.rem_mul_r by lia.
    rewrite <- Z.bit0_mod, Z.bit0_odd.
    pose proof (Z.mod_pos_bound m (2 ^ (j - 1)) Hp).
    destruct (Z.odd (m / 2 ^ (j - 1))); simpl Z.b2z;
      destruct (Z.eqb_spec (m mod 2 ^ (j - 1)) 0); simpl;
      match goal with |- _ = negb (?a =? 0) => destruct (Z.eqb_spec a 0) end;
      try reflexivity; lia. }
  rewrite E1, E3. reflexivity.
Qed.

Lemma shifted_iter (m : Z) (n : nat) :
  0 <= m ->
  Nat.iter (S n) shr_1 (Build_shr_record m false false) = shifted m (Z.of_nat (S n)).
Proof.
  intros Hm. induction n as [|n IH].
  - change (Nat.iter 1 shr_1 ?x) with (shr_1 x).
    rewrite shr_1_nonneg_eq by exact Hm.
    unfold shifted. change (Z.of_nat 1) with 1.
    change (2 ^ (1 - 1)) with 1. change (2 ^ 1) with 2.
    rewrite Z.div_1_r, Z.mod_1_r. reflexivity.
  - change (Nat.iter (S (S n)) shr_1 ?x) with (shr_1 (Nat.iter (S n) shr_1 x)).
    rewrite IH, shifted_succ by lia. f_equal. lia.
Qed.

Lemma shr_shifted (m e n : Z) :
  0 <= m -> 0 < n ->
  shr (Build_shr_record m false false) e n = (shifted m n, e + n).
Proof.
  intros Hm Hn. destruct n as [|p|p]; try lia. unfold shr.
  rewrite iter_pos_nat.
  destruct (Pos.to_nat p) as [|k] eqn:Hk; [lia|].
  rewrite shifted_iter by exact Hm. rewrite <- Hk, positive_nat_Z. reflexivity.
Qed.

(** *** Rounding to nearest, ties to even, as arithmetic *)

(** Whether [N / 2^n] is rounded up: the remainder is above half, or is a
    half and the quotient is odd. *)
Definition round_up (N n : Z) : bool :=
  (2 ^ (n - 1) <? N mod 2 ^ n) || ((N mod 2 ^ n =? 2 ^ (n - 1)) && Z.odd (N / 2 ^ n)).

Definition finite_or_inf (s : bool) (m e : Z) : float :=
  if e <=? 971 then S754_finite s (Z.to_pos m) e else S754_infinity s.

(** The double nearest to [N * 2^-1074], for [N > 0], with sign [s]. *)
Definition round_pos (s : bool) (N : Z) : float :=
  let d := digits N in
  if d <=? 53 then S754_finite s (Z.to_pos N) (-1074)
  else
    let n := d - 53 in
    let q := N / 2 ^ n + Z.b2z (round_up N n) in
    if q <? 2 ^ 53 then finite_or_inf s q (-1074 + n)
    else finite_or_inf s (2 ^ 52) (-1074 + n + 1).

(** The double nearest to [z * 2^-1074]. *)
Definition round_int (z : Z) : float :=
  match z with
  | Z0 => S754_zero false
  | Zpos p => round_pos false (Zpos p)
  | Zneg p => round_pos true (Zpos p)
  end.

Lemma fexp_eq (d : Z) : fexp prec emax d = Z.max (d - 53) (-1074).
Proof. reflexivity. Qed.

Lemma round_shifted (m k : Z) :
  0 <= m -> 1 <= k ->
  round_nearest_even (shr_m (shifted m k)) (loc_of_shr_record (shifted m k))
  = m / 2 ^ k + Z.b2z (round_up m k).
Proof.
  intros Hm Hk. unfold shifted, round_up. cbn [shr_m loc_of_shr_record].
  pose proof (pow2_pos (k - 1) ltac:(lia)) as Hp.
  assert (Hk2 : 2 ^ k = 2 ^ (k - 1) * 2).
  { replace k with ((k - 1) + 1) at 1 by lia. rewrite pow2_split by lia. reflexivity. }
  assert (Hrem : m mod 2 ^ k
                 = m mod 2 ^ (k - 1) + 2 ^ (k - 1) * Z.b2z (Z.odd (m / 2 ^ (k - 1)))).
  { rewrite Hk2, Z.rem_mul_r by lia. rewrite <- Z.bit0_mod, Z.bit0_odd. reflexivity. }
  rewrite Hrem.
  pose proof (Z.mod_pos_bound m (2 ^ (k - 1)) Hp) as Hlow.
  destruct (Z.odd (m / 2 ^ (k - 1))); simpl Z.b2z;
    destruct (Z.eqb_spec (m mod 2 ^ (k - 1)) 0) as [H0|H0]; simpl negb;
    cbn [round_nearest_even]; rewrite <- ?Z.negb_odd;
    repeat match goal with
    | |- context [?a <? ?b] => destruct (Z.ltb_spec a b); try lia
    | |- context [?a =? ?b] => destruct (Z.eqb_spec a b); try lia
    end;
    simpl; try destruct (Z.odd (m / 2 ^ k)); simpl; lia.
Qed.

Lemma shl_iter (m d : positive) : Zpos (Pos.iter xO m d) = Zpos m * 2 ^ Zpos d.
Proof.
  induction d as [|d IH] using Pos.peano_ind.
  - change (2 ^ 1) with 2. cbn [Pos.iter]. lia.
  - rewrite Pos.iter_succ, Pos2Z.inj_succ, Z.pow_succ_r by lia.
    rewrite Pos2Z.inj_xO, IH. lia.
Qed.

(** Alignment to a smaller exponent multiplies the mantissa. *)
Lemma shl_align_eq (m : positive) (e e' : Z) :
  e' <= e -> shl_align m e e' = (Z.to_pos (Zpos m * 2 ^ (e - e')), e').
Proof.
  intros He. unfold shl_align.
  destruct (e' - e) as [|d|d] eqn:Hd; try lia.
  - assert (e' = e) as -> by lia. rewrite Z.sub_diag, Z.mul_1_r. reflexivity.
  - replace (e - e') with (Zpos d) by lia.
    rewrite <- shl_iter. reflexivity.
Qed.

Lemma shl_align_ge (m : positive) (e e' : Z) : e <= e' -> shl_align m e e' = (m, e).
Proof.
  intros He. unfold shl_align. destruct (e' - e) as [|d|d] eqn:Hd; try lia; reflexivity.
Qed.

(** A mantissa that already has the exponent of its format is kept. *)
Lemma binary_round_aux_kept (s : bool) (m e : Z) :
  0 < m -> fexp prec emax (digits m + e) = e ->
  binary_round_aux prec emax s m e loc_Exact = finite_or_inf s m e.
Proof.
  intros Hm He. unfold binary_round_aux, shr_fexp.
  destruct m as [|p|p]; try lia.
  cbn [Zdigits2 shr_record_of_loc]. rewrite digits2_pos_digits, He, Z.sub_diag.
  cbn [shr shr_m loc_of_shr_record round_nearest_even Zdigits2].
  rewrite digits2_pos_digits, He, Z.sub_diag. cbn [shr shr_m].
  unfold finite_or_inf. reflexivity.
Qed.

(** A mantissa of more than 53 digits is shifted and rounded. *)
Lemma binary_round_aux_shift (s : bool) (m e : Z) :
  0 < m -> -1074 <= e -> 53 < digits m ->
  binary_round_aux prec emax s m e loc_Exact
  = let n := digits m - 53 in
    let q := m / 2 ^ n + Z.b2z (round_up m n) in
    if q <? 2 ^ 53 then finite_or_inf s q (e + n)
    else finite_or_inf s (2 ^ 52) (e + n + 1).
Proof.
  intros Hm He Hd. cbv zeta.
  set (n := digits m - 53).
  pose proof (digits_bounds m Hm) as [Hlo Hhi].
  pose proof (pow2_pos n ltac:(lia)) as Hpn.
  assert (Hq : 2 ^ 52 <= m / 2 ^ n < 2 ^ 53).
  { replace (digits m - 1) with (52 + n) in Hlo by lia.
    replace (digits m) with (53 + n) in Hhi by lia.
    rewrite pow2_split in Hlo, Hhi by lia.
    split; [apply Z.div_le_lower_bound; lia|apply Z.div_lt_upper_bound; lia]. }
  unfold binary_round_aux, shr_fexp.
  destruct m as [|p|p]; try lia.
  cbn [Zdigits2 shr_record_of_loc]. rewrite digits2_pos_digits, fexp_eq.
  replace (Z.max (digits (Zpos p) + e - 53) (-1074) - e) with n by lia.
  rewrite shr_shifted by lia.
  rewrite round_shifted by lia.
  set (q := Zpos p / 2 ^ n + Z.b2z (round_up (Zpos p) n)).
  assert (Hq' : 2 ^ 52 <= q <= 2 ^ 53) by (unfold q; destruct (round_up _ _); simpl; lia).
  destruct (Z.ltb_spec q (2 ^ 53)) as [Hlt|Hge].
  - assert (Hdq : digits q = 53) by (apply digits_unique; [lia|simpl; lia]).
    destruct q as [|pq|pq] eqn:Eq; try lia.
    cbn [Zdigits2 shr_record_of_loc]. rewrite digits2_pos_digits, fexp_eq, Hdq.
    replace (Z.max (53 + (e + n) - 53) (-1074) - (e + n)) with 0 by lia.
    cbn [shr shr_m]. unfold finite_or_inf. reflexivity.
  - assert (q = 2 ^ 53) as -> by lia.
    change (2 ^ 53) with (Zpos (2 ^ 53)%positive) at 1 2.
    cbn [Zdigits2 shr_record_of_loc].
    rewrite fexp_eq.
    replace (Zpos (digits2_pos (2 ^ 53))) with 54 by reflexivity.
    replace (Z.max (54 + (e + n) - 53) (-1074) - (e + n)) with 1 by lia.
    rewrite shr_shifted by lia.
    unfold shifted, finite_or_inf. cbn [shr_m].
    change (Zpos (2 ^ 53) / 2 ^ 1) with (2 ^ 52).
    reflexivity.
Qed.

Lemma round_up_scale (m k j : Z) :
  0 < k -> 0 <= j -> round_up (m * 2 ^ j) (k + j) = round_up m k.
Proof.
  intros Hk Hj. unfold round_up.
  pose proof (pow2_pos j Hj) as Hpj.
  pose proof (pow2_pos k ltac:(lia)) as Hpk.
  pose proof (pow2_pos (k - 1) ltac:(lia)) as Hpk1.
  replace (k + j - 1) with ((k - 1) + j) by lia.
  rewrite !pow2_split by lia.
  rewrite Z.mul_mod_distr_r by lia.
  rewrite Z.div_mul_cancel_r by lia.
  f_equal; [|f_equal].
  - destruct (Z.ltb_spec (2 ^ (k - 1)) (m mod 2 ^ k)),
      (Z.ltb_spec (2 ^ (k - 1) * 2 ^ j) (m mod 2 ^ k * 2 ^ j)); try reflexivity; nia.
  - destruct (Z.eqb_spec (m mod 2 ^ k) (2 ^ (k - 1))),
      (Z.eqb_spec (m mod 2 ^ k * 2 ^ j) (2 ^ (k - 1) * 2 ^ j)); try reflexivity; nia.
Qed.

Lemma round_up_exact (m n : Z) : 0 < n -> round_up (m * 2 ^ n) n = false.
Proof.
  intros Hn. unfold round_up.
  pose proof (pow2_pos n ltac:(lia)). pose proof (pow2_pos (n - 1) ltac:(lia)).
  rewrite Z.mod_mul by lia.
  destruct (Z.ltb_spec (2 ^ (n - 1)) 0); [lia|].
  destruct (Z.eqb_spec 0 (2 ^ (n - 1))); [lia|]. reflexivity.
Qed.

(** [binary_round] rounds the value it is given, whatever the exponent the
    value comes with. *)
Lemma binary_round_char (s : bool) (m : positive) (e : Z) :
  -1074 <= e ->
  binary_round prec emax s m e = round_pos s (Zpos m * 2 ^ (e + 1074)).
Proof.
  intros He.
  pose proof (pow2_pos (e + 1074) ltac:(lia)) as Hpj.
  assert (HN : 0 < Zpos m * 2 ^ (e + 1074)) by lia.
  assert (HD : digits (Zpos m * 2 ^ (e + 1074)) = digits (Zpos m) + (e + 1074))
    by (apply digits_shift; lia).
  pose proof (digits_pos (Zpos m) ltac:(lia)) as Hdm.
  unfold binary_round. rewrite digits2_pos_digits, fexp_eq.
  set (E := Z.max (digits (Zpos m) + e - 53) (-1074)).
  destruct (Z.le_gt_cases E e) as [HE|HE].
  - rewrite shl_align_eq by exact HE.
    pose proof (pow2_pos (e - E) ltac:(lia)) as HpE.
    set (mz := Zpos m * 2 ^ (e - E)).
    assert (Hmz : 0 < mz) by (unfold mz; lia).
    rewrite Z2Pos.id by exact Hmz.
    assert (Hdz : digits mz = digits (Zpos m) + (e - E))
      by (apply digits_shift; lia).
    rewrite binary_round_aux_kept; [|exact Hmz|rewrite fexp_eq, Hdz; lia].
    unfold round_pos. rewrite HD.
    destruct (Z.leb_spec (digits (Zpos m) + (e + 1074)) 53) as [Hle|Hgt].
    + assert (E = -1074) as HE' by lia.
      unfold finite_or_inf, mz. rewrite HE'. simpl (_ <=? 971).
      replace (e - -1074) with (e + 1074) by lia. reflexivity.
    + cbv zeta.
      set (n := digits (Zpos m) + (e + 1074) - 53).
      assert (HEn : E = -1074 + n) by lia.
      assert (HNn : Zpos m * 2 ^ (e + 1074) = mz * 2 ^ n).
      { unfold mz. rewrite <- Z.mul_assoc, <- (pow2_split (e - E) n) by lia.
        do 2 f_equal. lia. }
      rewrite HNn, round_up_exact by lia.
      pose proof (pow2_pos n ltac:(lia)).
      rewrite Z.div_mul by lia. simpl Z.b2z. rewrite Z.add_0_r.
      assert (mz < 2 ^ 53) by (apply digits_lt; lia).
      destruct (Z.ltb_spec mz (2 ^ 53)); [|lia].
      rewrite HEn. reflexivity.
  - rewrite shl_align_ge by lia.
    assert (Hdm' : 53 < digits (Zpos m)) by lia.
    rewrite binary_round_aux_shift by lia. cbv zeta.
    unfold round_pos. rewrite HD.
    destruct (Z.leb_spec (digits (Zpos m) + (e + 1074)) 53) as [Hle|Hgt]; [lia|].
    cbv zeta.
    set (k := digits (Zpos m) - 53).
    replace (digits (Zpos m) + (e + 1074) - 53) with (k + (e + 1074)) by lia.
    rewrite round_up_scale by lia.
    pose proof (pow2_pos k ltac:(lia)).
    rewrite (pow2_split k (e + 1074)), Z.div_mul_cancel_r by lia.
    replace (-1074 + (k + (e + 1074))) with (e + k) by lia.
    reflexivity.
Qed.

Lemma round_int_pos (N : Z) : 0 < N -> round_int N = round_pos false N.
Proof. destruct N; try lia. reflexivity. Qed.

Lemma round_int_neg (N : Z) : 0 < N -> round_int (- N) = round_pos true N.
Proof. destruct N; try lia. reflexivity. Qed.

Lemma binary_normalize_char (z e : Z) :
  -1074 <= e ->
  binary_normalize prec emax z e false = round_int (z * 2 ^ (e + 1074)).
Proof.
  intros He. pose proof (pow2_pos (e + 1074) ltac:(lia)) as Hp.
  unfold binary_normalize. destruct z as [|p|p].
  - reflexivity.
  - rewrite binary_round_char, round_int_pos by lia. reflexivity.
  - rewrite binary_round_char by lia.
    replace (Zneg p * 2 ^ (e + 1074)) with (- (Zpos p * 2 ^ (e + 1074))) by lia.
    rewrite round_int_neg by lia. reflexivity.
Qed.

(** *** The rounded value is monotone *)

(** Exponent and mantissa of the rounding of [N * 2^-1074], before the
    overflow test. *)
Definition round_key (N : Z) : Z * Z :=
  let d := digits N in
  if d <=? 53 then (-1074, N)
  else
    let n := d - 53 in
    let q := N / 2 ^ n + Z.b2z (round_up N n) in
    if q <? 2 ^ 53 then (-1074 + n, q) else (-1074 + n + 1, 2 ^ 52).

Lemma round_pos_key (s : bool) (N : Z) :
  round_pos s N = finite_or_inf s (snd (round_key N)) (fst (round_key N)).
Proof.
  unfold round_pos, round_key. cbv zeta.
  destruct (digits N <=? 53); [reflexivity|].
  destruct (_ <? 2 ^ 53); reflexivity.
Qed.

Lemma quotient_53 (N : Z) :
  0 < N -> 53 < digits N -> 2 ^ 52 <= N / 2 ^ (digits N - 53) < 2 ^ 53.
Proof.
  intros HN Hd. destruct (digits_bounds N HN) as [Hlo Hhi].
  set (n := digits N - 53) in *.
  pose proof (pow2_pos n ltac:(lia)).
  assert (E1 : 2 ^ (digits N - 1) = 2 ^ 52 * 2 ^ n)
    by (rewrite <- pow2_split by lia; f_equal; lia).
  assert (E2 : 2 ^ digits N = 2 ^ 53 * 2 ^ n)
    by (rewrite <- pow2_split by lia; f_equal; lia).
  rewrite E1 in Hlo. rewrite E2 in Hhi.
  split; [apply Z.div_le_lower_bound; lia|apply Z.div_lt_upper_bound; lia].
Qed.

(** The shape of a rounded positive value. *)
Lemma round_key_shape (N : Z) :
  0 < N ->
  let n := Z.max (digits N - 53) 0 in
  let '(e, m) := round_key N in
  (digits N <= 53 /\ e = -1074 /\ m = N) \/
  (53 < digits N /\ e = -1074 + n /\ 2 ^ 52 <= m < 2 ^ 53) \/
  (53 < digits N /\ e = -1074 + n + 1 /\ m = 2 ^ 52).
Proof.
  intros HN. cbv zeta. unfold round_key. cbv zeta.
  destruct (Z.leb_spec (digits N) 53) as [Hd|Hd]; [left; lia|].
  pose proof (quotient_53 N HN Hd) as Hq.
  destruct (Z.ltb_spec (N / 2 ^ (digits N - 53) + Z.b2z (round_up N (digits N - 53)))
              (2 ^ 53)) as [Hlt|Hge]; right.
  - left. destruct (round_up N (digits N - 53)); simpl Z.b2z in *; lia.
  - right. lia.
Qed.

Lemma round_up_mono (N1 N2 n : Z) :
  0 < n -> N1 <= N2 -> N1 / 2 ^ n = N2 / 2 ^ n ->
  Z.b2z (round_up N1 n) <= Z.b2z (round_up N2 n).
Proof.
  intros Hn Hle Hq. unfold round_up. rewrite Hq.
  pose proof (pow2_pos n ltac:(lia)) as Hp.
  pose proof (Z.div_mod N1 (2 ^ n) ltac:(lia)) as H1.
  pose proof (Z.div_mod N2 (2 ^ n) ltac:(lia)) as H2.
  rewrite Hq in H1.
  assert (Hrem : N1 mod 2 ^ n <= N2 mod 2 ^ n) by lia.
  destruct (Z.odd (N2 / 2 ^ n));
    repeat match goal with
    | |- context [?a <? ?b] => destruct (Z.ltb_spec a b)
    | |- context [?a =? ?b] => destruct (Z.eqb_spec a b)
    end; simpl; lia.
Qed.

Definition key_le2 (a b : Z * Z) : Prop :=
  fst a < fst b \/ (fst a = fst b /\ snd a <= snd b).

Lemma round_key_mono (N1 N2 : Z) :
  0 < N1 <= N2 -> key_le2 (round_key N1) (round_key N2).
Proof.
  intros [H1 H12]. assert (H2 : 0 < N2) by lia.
  pose proof (digits_le N1 N2 ltac:(lia)) as Hd.
  pose proof (round_key_shape N1 H1) as S1.
  pose proof (round_key_shape N2 H2) as S2.
  cbv zeta in S1, S2. unfold key_le2.
  destruct (Z.eq_dec (digits N1) (digits N2)) as [Heq|Hne].
  - (* the same number of digits: the same shift *)
    destruct (Z.leb_spec (digits N1) 53) as [Hs|Hs].
    + unfold round_key. cbv zeta.
      destruct (Z.leb_spec (digits N1) 53); [|lia].
      destruct (Z.leb_spec (digits N2) 53); [|lia]. simpl. lia.
    + unfold round_key. cbv zeta.
      destruct (Z.leb_spec (digits N1) 53); [lia|].
      destruct (Z.leb_spec (digits N2) 53); [lia|].
      rewrite <- Heq.
      set (n := digits N1 - 53).
      pose proof (pow2_pos n ltac:(unfold n; lia)) as Hp.
      assert (Hq : N1 / 2 ^ n <= N2 / 2 ^ n) by (apply Z.div_le_mono; lia).
      assert (Hq' : N1 / 2 ^ n + Z.b2z (round_up N1 n)
                    <= N2 / 2 ^ n + Z.b2z (round_up N2 n)).
      { destruct (Z.eq_dec (N1 / 2 ^ n) (N2 / 2 ^ n)) as [Hqe|Hqn].
        - pose proof (round_up_mono N1 N2 n ltac:(unfold n; lia) H12 Hqe). lia.
        - destruct (round_up N1 n), (round_up N2 n); simpl; lia. }
      pose proof (quotient_53 N1 H1 ltac:(lia)) as Hb1. fold n in Hb1.
      destruct (Z.ltb_spec (N1 / 2 ^ n + Z.b2z (round_up N1 n)) (2 ^ 53)),
        (Z.ltb_spec (N2 / 2 ^ n + Z.b2z (round_up N2 n)) (2 ^ 53));
        simpl; lia.
  - (* fewer digits: a smaller exponent, or the carry into the next one *)
    destruct (round_key N1) as [e1 m1], (round_key N2) as [e2 m2]. simpl.
    destruct S1 as [S1|[S1|S1]], S2 as [S2|[S2|S2]]; lia.
Qed.

Definition signed_rank (s : bool) (e m : Z) : Z * Z * Z :=
  if e <=? 971 then (if s then (-1, - e, - m) else (1, e, m))
  else (if s then (-2, 0, 0) else (2, 0, 0)).

Lemma finite_or_inf_rank3 (s : bool) (m e : Z) :
  0 < m -> rank3 (finite_or_inf s m e) = Some (signed_rank s e m).
Proof.
  intros Hm. unfold finite_or_inf, signed_rank.
  destruct (e <=? 971); destruct s; simpl; try reflexivity.
  - rewrite <- (Pos2Z.opp_pos (Z.to_pos m)), Z2Pos.id by lia. reflexivity.
  - rewrite Z2Pos.id by lia. reflexivity.
Qed.

Lemma round_key_mantissa (N : Z) : 0 < N -> 0 < snd (round_key N).
Proof.
  intros HN. pose proof (round_key_shape N HN) as S. cbv zeta in S.
  destruct (round_key N) as [e m]. simpl. destruct S as [S|[S|S]]; lia.
Qed.

Lemma round_pos_rank3 (s : bool) (N : Z) :
  0 < N ->
  rank3 (round_pos s N)
  = Some (signed_rank s (fst (round_key N)) (snd (round_key N))).
Proof.
  intros HN. rewrite round_pos_key.
  apply finite_or_inf_rank3, round_key_mantissa, HN.
Qed.

Lemma round_int_rank3 (z : Z) :
  rank3 (round_int z)
  = Some (match z with
          | Z0 => (0, 0, 0)
          | Zpos p => signed_rank false (fst (round_key (Zpos p))) (snd (round_key (Zpos p)))
          | Zneg p => signed_rank true (fst (round_key (Zpos p))) (snd (round_key (Zpos p)))
          end).
Proof.
  destruct z as [|p|p]; [reflexivity| |]; simpl round_int;
    apply round_pos_rank3; lia.
Qed.

Lemma signed_rank_class (s : bool) (e m : Z) :
  let '(c, _, _) := signed_rank s e m in if s then c <= -1 else 1 <= c.
Proof. unfold signed_rank. destruct (e <=? 971), s; lia. Qed.

(** Rounding is monotone. *)
Lemma round_int_mono (z1 z2 : Z) :
  z1 <= z2 -> le (round_int z1) (round_int z2) = true.
Proof.
  intros Hz. apply le_rank3. do 2 eexists.
  split; [apply round_int_rank3|]. split; [apply round_int_rank3|].
  destruct z1 as [|p1|p1], z2 as [|p2|p2]; try lia.
  - simpl. lia.
  - pose proof (signed_rank_class false (fst (round_key (Zpos p2))) (snd (round_key (Zpos p2)))).
    destruct (signed_rank false _ _) as [[c ?] ?]. simpl. lia.
  - pose proof (round_key_mono (Zpos p1) (Zpos p2) ltac:(lia)) as Hk.
    pose proof (round_key_mantissa (Zpos p1) ltac:(lia)).
    pose proof (round_key_mantissa (Zpos p2) ltac:(lia)).
    unfold key_le2 in Hk. unfold signed_rank.
    destruct (Z.leb_spec (fst (round_key (Zpos p1))) 971),
      (Z.leb_spec (fst (round_key (Zpos p2))) 971); simpl; lia.
  - pose proof (signed_rank_class true (fst (round_key (Zpos p1))) (snd (round_key (Zpos p1)))).
    destruct (signed_rank true _ _) as [[c ?] ?]. simpl. lia.
  - pose proof (signed_rank_class true (fst (round_key (Zpos p1))) (snd (round_key (Zpos p1)))).
    pose proof (signed_rank_class false (fst (round_key (Zpos p2))) (snd (round_key (Zpos p2)))).
    destruct (signed_rank true _ _) as [[c ?] ?].
    destruct (signed_rank false _ _) as [[c' ?] ?]. simpl. lia.
  - pose proof (round_key_mono (Zpos p2) (Zpos p1) ltac:(lia)) as Hk.
    pose proof (round_key_mantissa (Zpos p1) ltac:(lia)).
    pose proof (round_key_mantissa (Zpos p2) ltac:(lia)).
    unfold key_le2 in Hk. unfold signed_rank.
    destruct (Z.leb_spec (fst (round_key (Zpos p1))) 971),
      (Z.leb_spec (fst (round_key (Zpos p2))) 971); simpl; lia.
Qed.

(** *** Valid doubles and their integer value *)

Lemma bounded_facts (m : positive) (e : Z) :
  bounded prec emax m e = true <->
  -1074 <= e <= 971 /\ digits (Zpos m) <= 53 /\
  (e = -1074 \/ digits (Zpos m) = 53).
Proof.
  unfold bounded, canonical_mantissa.
  rewrite andb_true_iff, Z.eqb_eq, Z.leb_le, digits2_pos_digits, fexp_eq.
  change (emax - prec) with 971. lia.
Qed.

Lemma round_pos_valid (s : bool) (N : Z) : 0 < N -> valid (round_pos s N) = true.
Proof.
  intros HN. rewrite round_pos_key.
  pose proof (round_key_shape N HN) as S. cbv zeta in S.
  destruct (round_key N) as [e m]. simpl. unfold finite_or_inf.
  destruct (Z.leb_spec e 971) as [He|He]; [|reflexivity].
  unfold valid. cbn [valid_binary]. apply bounded_facts.
  assert (Hm : 0 < m) by (destruct S as [S|[S|S]]; lia).
  rewrite Z2Pos.id by exact Hm.
  pose proof (digits_pos N HN).
  destruct S as [(Hd & -> & ->)|[(Hd & -> & Hb)|(Hd & -> & ->)]].
  - lia.
  - assert (digits m = 53) by (apply digits_unique; [lia|simpl; lia]). lia.
  - change (digits (2 ^ 52)) with 53. lia.
Qed.

Lemma round_int_valid (z : Z) : valid (round_int z) = true.
Proof. destruct z; [reflexivity| |]; apply round_pos_valid; lia. Qed.

Lemma round_int_number (z : Z) : is_number (round_int z).
Proof.
  intros Hn. pose proof (round_int_rank3 z) as H. rewrite Hn in H. discriminate.
Qed.

(** The value of a finite double, in units of [2^-1074]. *)
Definition scaled (x : float) : Z :=
  match x with
  | S754_finite s m e => cond_Zopp s (Zpos m * 2 ^ (e + 1074))
  | _ => 0
  end.

(** A valid finite double is the rounding of its own value. *)
Lemma round_pos_id (s : bool) (m : positive) (e : Z) :
  bounded prec emax m e = true ->
  round_pos s (Zpos m * 2 ^ (e + 1074)) = S754_finite s m e.
Proof.
  intros Hb. apply bounded_facts in Hb as (He & Hd & Hc).
  rewrite <- binary_round_char by lia.
  unfold binary_round. rewrite digits2_pos_digits, fexp_eq.
  replace (Z.max (digits (Zpos m) + e - 53) (-1074)) with e by lia.
  rewrite shl_align_ge by lia.
  rewrite binary_round_aux_kept; [|lia|rewrite fexp_eq; lia].
  unfold finite_or_inf. destruct (Z.leb_spec e 971); [reflexivity|lia].
Qed.

Lemma round_int_scaled (x : float) :
  is_finite x -> valid x = true -> rank3 (round_int (scaled x)) = rank3 x.
Proof.
  destruct x as [s|s| |s m e]; simpl; try contradiction; intros _ Hv.
  - reflexivity.
  - unfold valid in Hv. cbn [valid_binary] in Hv.
    pose proof (pow2_pos (e + 1074)
                  ltac:(apply bounded_facts in Hv; lia)) as Hp.
    destruct s; simpl cond_Zopp.
    + rewrite round_int_neg, round_pos_id by (try exact Hv; lia). reflexivity.
    + rewrite round_int_pos, round_pos_id by (try exact Hv; lia). reflexivity.
Qed.

(** *** Subtraction rounds the exact difference *)

Lemma cond_Zopp_mul (s : bool) (a b : Z) : cond_Zopp s a * b = cond_Zopp s (a * b).
Proof. destruct s; simpl; lia. Qed.

Lemma sub_finite_char (sx sc : bool) (mx mc : positive) (ex ec : Z) :
  bounded prec emax mx ex = true -> bounded prec emax mc ec = true ->
  sub (S754_finite sx mx ex) (S754_finite sc mc ec)
  = round_int (scaled (S754_finite sx mx ex) - scaled (S754_finite sc mc ec)).
Proof.
  intros Hx Hc. apply bounded_facts in Hx as (Hex & _). apply bounded_facts in Hc as (Hec & _).
  unfold sub, SFsub. cbv zeta.
  set (ez := Z.min ex ec).
  rewrite !shl_align_eq by (unfold ez; lia). cbn [fst].
  pose proof (pow2_pos (ex - ez) ltac:(unfold ez; lia)).
  pose proof (pow2_pos (ec - ez) ltac:(unfold ez; lia)).
  rewrite !Z2Pos.id by lia.
  rewrite binary_normalize_char by (unfold ez; lia).
  f_equal. cbn [scaled].
  rewrite Z.mul_sub_distr_r, !cond_Zopp_mul, <- !Z.mul_assoc.
  rewrite <- !pow2_split by (unfold ez; lia).
  replace (ex - ez + (ez + 1074)) with (ex + 1074) by lia.
  replace (ec - ez + (ez + 1074)) with (ec + 1074) by lia.
  reflexivity.
Qed.

(** What is subtracted from a score: the zero penalty or a positive valid
    double. *)
Definition deductible (c : float) : Prop :=
  c = S754_zero false \/
  exists m e, c = S754_finite false m e /\ bounded prec emax m e = true.

Lemma sub_char (x : float) (m : positive) (e : Z) :
  is_finite x -> valid x = true -> bounded prec emax m e = true ->
  sub x (S754_finite false m e)
  = round_int (scaled x - scaled (S754_finite false m e)).
Proof.
  intros Hf Hv Hc. destruct x as [s|s| |s mx ex]; simpl in Hf; try contradiction.
  - pose proof (pow2_pos (e + 1074)
                  ltac:(apply bounded_facts in Hc; lia)).
    cbn [scaled cond_Zopp]. rewrite Z.sub_0_l, round_int_neg, round_pos_id by (try exact Hc; lia).
    reflexivity.
  - apply sub_finite_char; assumption.
Qed.

Lemma sub_zero_rank3 (x : float) : rank3 (sub x (S754_zero false)) = rank3 x.
Proof. destruct x as [[]|[]| |[] ? ?]; reflexivity. Qed.

(** *** The order of valid doubles is the order of their values *)

Lemma canonical_order (m1 m2 : positive) (e1 e2 : Z) :
  bounded prec emax m1 e1 = true -> bounded prec emax m2 e2 = true ->
  e1 < e2 -> Zpos m1 * 2 ^ (e1 + 1074) < Zpos m2 * 2 ^ (e2 + 1074).
Proof.
  intros H1 H2 He.
  apply bounded_facts in H1 as (He1 & Hd1 & _).
  apply bounded_facts in H2 as (He2 & Hd2 & Hc2).
  assert (Hm1 : Zpos m1 < 2 ^ 53) by (apply digits_lt; lia).
  assert (Hm2 : 2 ^ 52 <= Zpos m2) by (apply (digits_ge _ 53); lia).
  pose proof (pow2_pos (e1 + 1074) ltac:(lia)) as Hp1.
  assert (Hp2 : 2 * 2 ^ (e1 + 1074) <= 2 ^ (e2 + 1074)).
  { rewrite <- Z.pow_succ_r by lia. apply pow2_le. lia. }
  change (2 ^ 53) with (2 * 2 ^ 52) in Hm1. nia.
Qed.

Lemma le_scaled (x y : float) :
  is_finite x -> is_finite y -> valid x = true -> valid y = true ->
  le x y = true -> scaled x <= scaled y.
Proof.
  intros Hfx Hfy Hvx Hvy Hle.
  apply le_rank3 in Hle as (a & b & Ha & Hb & Hab).
  destruct x as [sx|sx| |sx mx ex], y as [sy|sy| |sy my ey];
    simpl in Hfx, Hfy; try contradiction;
    unfold valid in Hvx, Hvy; cbn [valid_binary] in Hvx, Hvy; cbn [scaled].
  - lia.
  - pose proof (pow2_pos (ey + 1074) ltac:(apply bounded_facts in Hvy; lia)).
    destruct sy; simpl in Ha, Hb; injection Ha as <-; injection Hb as <-;
      simpl in Hab; simpl; lia.
  - pose proof (pow2_pos (ex + 1074) ltac:(apply bounded_facts in Hvx; lia)).
    destruct sx; simpl in Ha, Hb; injection Ha as <-; injection Hb as <-;
      simpl in Hab; simpl; lia.
  - pose proof (pow2_pos (ex + 1074) ltac:(apply bounded_facts in Hvx; lia)).
    pose proof (pow2_pos (ey + 1074) ltac:(apply bounded_facts in Hvy; lia)).
    destruct sx, sy; simpl in Ha, Hb; injection Ha as <-; injection Hb as <-;
      simpl in Hab; simpl cond_Zopp; try lia.
    + destruct Hab as [Hab|(_ & [Hab|(Hab & Hm)])]; try lia.
      * pose proof (canonical_order my mx ey ex Hvy Hvx ltac:(lia)). lia.
      * assert (ex = ey) as -> by lia. nia.
    + destruct Hab as [Hab|(_ & [Hab|(Hab & Hm)])]; try lia.
      * pose proof (canonical_order mx my ex ey Hvx Hvy ltac:(lia)). lia.
      * subst ey. nia.
Qed.

(** *** Subtraction is monotone, decreasing and stays valid *)

(** A valid number. *)
Definition sound (x : float) : Prop := valid x = true /\ is_number x.

Lemma le_rank3_eq_r (a b b' : float) : rank3 b = rank3 b' -> le a b = le a b'.
Proof. intros H. unfold le, SFleb. rewrite !SFcompare_rank3, H. reflexivity. Qed.

Lemma le_rank3_eq_l (a a' b : float) : rank3 a = rank3 a' -> le a b = le a' b.
Proof. intros H. unfold le, SFleb. rewrite !SFcompare_rank3, H. reflexivity. Qed.

Lemma le_neg_inf (y : float) : is_number y -> le (S754_infinity true) y = true.
Proof. destruct y as [|[]| |[]]; try reflexivity. intros H. contradiction H. reflexivity. Qed.

Lemma le_pos_inf (x : float) : is_number x -> le x (S754_infinity false) = true.
Proof. destruct x as [|[]| |[]]; try reflexivity. intros H. contradiction H. reflexivity. Qed.

Lemma sub_sound (x c : float) : sound x -> deductible c -> sound (sub x c).
Proof.
  intros [Hv Hn] [->|(m & e & -> & Hb)].
  - split.
    + destruct x as [[]|[]| |[] ? ?]; try reflexivity; exact Hv.
    + destruct x as [[]|[]| |[] ? ?]; try discriminate. exact Hn.
  - destruct x as [s|s| |s mx ex].
    + rewrite sub_char by (simpl; auto). split; [apply round_int_valid|apply round_int_number].
    + split; [reflexivity|discriminate].
    + contradiction Hn. reflexivity.
    + rewrite sub_char by (simpl; auto). split; [apply round_int_valid|apply round_int_number].
Qed.

Lemma sub_mono (x y c : float) :
  sound x -> sound y -> deductible c ->
  le x y = true -> le (sub x c) (sub y c) = true.
Proof.
  intros [Hvx Hnx] [Hvy Hny] Hc Hle.
  destruct Hc as [->|(m & e & -> & Hb)].
  - rewrite (le_rank3_eq_l _ _ _ (sub_zero_rank3 x)), (le_rank3_eq_r _ _ _ (sub_zero_rank3 y)).
    exact Hle.
  - assert (Hsy : is_number (sub y (S754_finite false m e)))
      by (apply sub_sound; [split; assumption|right; eauto]).
    assert (Hsx : is_number (sub x (S754_finite false m e)))
      by (apply sub_sound; [split; assumption|right; eauto]).
    assert (Hmain : forall x y, is_finite x -> is_finite y ->
                      valid x = true -> valid y = true -> le x y = true ->
                      le (sub x (S754_finite false m e)) (sub y (S754_finite false m e)) = true).
    { intros x' y' Hfx Hfy Hvx' Hvy' Hle'.
      rewrite !sub_char by assumption. apply round_int_mono.
      pose proof (le_scaled _ _ Hfx Hfy Hvx' Hvy' Hle'). lia. }
    destruct x as [sx|sx| |sx mx ex].
    + destruct y as [sy|sy| |sy my ey].
      * apply Hmain; simpl; auto.
      * destruct sy; [discriminate Hle|apply le_pos_inf; exact Hsx].
      * contradiction Hny. reflexivity.
      * apply Hmain; simpl; auto.
    + destruct sx; [apply le_neg_inf; exact Hsy|].
      destruct y as [sy|[]| |[] my ey]; try discriminate Hle.
      reflexivity.
    + contradiction Hnx. reflexivity.
    + destruct y as [sy|sy| |sy my ey].
      * apply Hmain; simpl; auto.
      * destruct sy; [destruct sx; discriminate Hle|apply le_pos_inf; exact Hsx].
      * contradiction Hny. reflexivity.
      * apply Hmain; simpl; auto.
Qed.

Lemma sub_le (x c : float) : sound x -> deductible c -> le (sub x c) x = true.
Proof.
  intros [Hv Hn] [->|(m & e & -> & Hb)].
  - rewrite (le_rank3_eq_l _ _ _ (sub_zero_rank3 x)). apply le_refl. exact Hn.
  - destruct x as [s|s| |s mx ex].
    + rewrite sub_char by (simpl; auto).
      rewrite <- (le_rank3_eq_r _ _ _ (round_int_scaled (S754_zero s) I Hv)).
      apply round_int_mono.
      pose proof (pow2_pos (e + 1074) ltac:(apply bounded_facts in Hb; lia)).
      simpl. lia.
    + destruct s; reflexivity.
    + contradiction Hn. reflexivity.
    + rewrite sub_char by (simpl; auto).
      rewrite <- (le_rank3_eq_r _ _ _ (round_int_scaled (S754_finite s mx ex) I Hv)).
      apply round_int_mono.
      pose proof (pow2_pos (e + 1074) ltac:(apply bounded_facts in Hb; lia)).
      cbn [scaled]. simpl cond_Zopp at 2. lia.
Qed.

(** ** agents.py: the score is bounded and monotone *)

Lemma literals_deductible :
  deductible f_0_0 /\ deductible f_0_02 /\ deductible f_0_05 /\
  deductible f_0_10 /\ deductible f_0_20.
Proof.
  destruct literals_eq as (_ & E2 & E5 & E10 & E20 & _).
  split; [left; reflexivity|].
  rewrite E2, E5, E10, E20.
  repeat split; right; do 2 eexists; (split; [reflexivity|vm_compute; reflexivity]).
Qed.

Lemma sound_1 : sound f_1_0.
Proof. split; [vm_compute; reflexivity|apply number_1]. Qed.

Lemma sound_0 : sound f_0_0.
Proof. split; [reflexivity|apply number_0]. Qed.

(** A gap deducts nothing, or one amount whatever the running score. *)
Lemma deduct_uniform (gap : Gap.t) :
  (forall r, deduct r gap = r) \/
  exists c, deductible c /\ forall r, deduct r gap = sub r c.
Proof.
  destruct literals_deductible as (_ & D2 & D5 & D10 & _).
  unfold deduct.
  destruct (String.eqb _ "critical"); [right; eauto|].
  destruct (String.eqb _ "high"); [right; eauto|].
  destruct (String.eqb _ "medium"); [right; eauto|].
  left. reflexivity.
Qed.

Lemma deduct_sound (r : float) (gap : Gap.t) : sound r -> sound (deduct r gap).
Proof.
  intros Hr. destruct (deduct_uniform gap) as [H|(c & Hc & H)]; rewrite H;
    [exact Hr|apply sub_sound; assumption].
Qed.

Lemma deduct_le (r : float) (gap : Gap.t) : sound r -> le (deduct r gap) r = true.
Proof.
  intros Hr. destruct (deduct_uniform gap) as [H|(c & Hc & H)]; rewrite H.
  - apply le_refl, Hr.
  - apply sub_le; assumption.
Qed.

Lemma deduct_mono (x y : float) (gap : Gap.t) :
  sound x -> sound y -> le x y = true -> le (deduct x gap) (deduct y gap) = true.
Proof.
  intros Hx Hy Hle. destruct (deduct_uniform gap) as [H|(c & Hc & H)]; rewrite !H.
  - exact Hle.
  - apply sub_mono; assumption.
Qed.

Lemma fold_deduct_sound (gaps : list Gap.t) (r : float) :
  sound r -> sound (fold_left deduct gaps r).
Proof.
  revert r. induction gaps as [|g gaps IH]; intros r Hr; simpl; [exact Hr|].
  apply IH, deduct_sound, Hr.
Qed.

Lemma fold_deduct_mono (gaps : list Gap.t) (x y : float) :
  sound x -> sound y -> le x y = true ->
  le (fold_left deduct gaps x) (fold_left deduct gaps y) = true.
Proof.
  revert x y. induction gaps as [|g gaps IH]; intros x y Hx Hy Hle; simpl; [exact Hle|].
  apply IH; [apply deduct_sound, Hx|apply deduct_sound, Hy|apply deduct_mono; assumption].
Qed.

(** One more gap, anywhere in the list, never raises the running score. *)
Lemma fold_deduct_insert (gaps1 gaps2 : list Gap.t) (gap : Gap.t) :
  le (fold_left deduct (gaps1 ++ gap :: gaps2) f_1_0)
     (fold_left deduct (gaps1 ++ gaps2) f_1_0) = true.
Proof.
  rewrite !fold_left_app. cbn [fold_left].
  pose proof (fold_deduct_sound gaps1 f_1_0 sound_1) as Hs.
  apply fold_deduct_mono; [apply deduct_sound, Hs|exact Hs|apply deduct_le, Hs].
Qed.

Lemma py_max_0_sound (x : float) : sound x -> sound (py_max f_0_0 x).
Proof.
  intros Hx. unfold py_max. destruct (gt x f_0_0); [exact Hx|exact sound_0].
Qed.

Lemma py_max_0_mono (x y : float) :
  le x y = true -> le (py_max f_0_0 x) (py_max f_0_0 y) = true.
Proof.
  intros Hle. unfold py_max, gt. fold (lt f_0_0 x) (lt f_0_0 y).
  destruct (lt f_0_0 x) eqn:Hx, (lt f_0_0 y) eqn:Hy.
  - exact Hle.
  - rewrite (lt_le_trans _ _ _ Hx Hle) in Hy. discriminate.
  - apply lt_le, Hy.
  - exact le_0_0.
Qed.

Lemma py_min_1_mono (x y : float) :
  is_number x -> is_number y ->
  le x y = true -> le (py_min f_1_0 x) (py_min f_1_0 y) = true.
Proof.
  intros Hnx Hny Hle. unfold py_min.
  destruct (lt x f_1_0) eqn:Hx, (lt y f_1_0) eqn:Hy.
  - exact Hle.
  - apply lt_le, Hx.
  - rewrite (le_lt_trans _ _ _ Hle Hy) in Hx. discriminate.
  - exact le_1_1.
Qed.

(** C5. The confidence score lies in [0, 1] for every gap list and critique,
    and a gap added anywhere to a gap list, whatever its severity, never
    raises the score computed for the same critique. *)
Theorem confidence_bounded_monotone `{StrCase} (llm_critique : string) :
  (forall gaps,
      le f_0_0 (calculate_confidence gaps llm_critique) = true /\
      le (calculate_confidence gaps llm_critique) f_1_0 = true) /\
  (forall gaps1 gap gaps2,
      le (calculate_confidence (gaps1 ++ gap :: gaps2) llm_critique)
         (calculate_confidence (gaps1 ++ gaps2) llm_critique) = true).
Proof.
  split.
  - intros gaps. rewrite calculate_confidence_clamp. apply clamp_range.
  - intros gaps1 gap gaps2. rewrite !calculate_confidence_clamp.
    apply py_max_0_mono, py_min_1_mono; try apply final_score_number.
    unfold final_score. apply sub_mono.
    + apply py_max_0_sound, fold_deduct_sound, sound_1.
    + apply py_max_0_sound, fold_deduct_sound, sound_1.
    + destruct literals_deductible as (D0 & _ & _ & D10 & D20).
      repeat match goal with
      | |- context [if ?b then _ else _] => destruct b
      end; assumption.
    + apply py_max_0_mono, fold_deduct_insert.
Qed.

(** ** Worked examples *)

Definition critical_gap : Gap.t := Gap.Build "borrower" "credit_score" "d" "critical" "q".

(** Three critical gaps and a neutral critique: [1.0 - 0.1 - 0.1 - 0.1] is
    the double [0.7000000000000001], which is still "partial". *)
Example three_critical_gaps :
  @calculate_confidence ascii_case [critical_gap; critical_gap; critical_gap] ""
    = S754_finite false 6305039478318695 (-53) /\
  f_0_70 = S754_finite false 6305039478318694 (-53) /\
  determine_outcome
    (@calculate_confidence ascii_case [critical_gap; critical_gap; critical_gap] "")
    = "partial".
Proof. vm_compute. tauto. Qed.

(** Enough gaps exhaust the rule score, and the penalty cannot take the
    result below zero. *)
Example exhausted_score :
  @calculate_confidence ascii_case (repeat critical_gap 12) "A Serious omission"
    = f_0_0.
Proof. vm_compute. reflexivity. Qed.

(** The jumbo sample of [test_samples.py]: "Private" contains "va", and
    "VA" comes before "Jumbo" in the trigger mapping. *)
Example jumbo_sample :
  LoanClassification.all_detected
    (@detect_loan_type ascii_case
       "Create a jumbo loan product for high-net-worth individuals. Private banking integration required.")
  = ["VA"; "Jumbo"].
Proof. vm_compute. reflexivity. Qed.

(** A verdict that is not a string makes [.upper()] raise in the middle of
    the loop: the gap already appended stays, and the keyword rule then
    runs over the whole category. *)
Definition backend_odd_verdict : Backend :=
  {| llm_invoke := fun _ => Ok "{}";
     json_loads := fun _ =>
       Ok (JObject (<["loan_type" := JString "no"]> (<["loan_amount" := JNotString]> ∅)));
     author_chain := fun _ requirements => Ok requirements;
     critic_chain := fun _ _ => Ok "" |}.

Example verdict_not_a_string :
  @check_items ascii_case backend_odd_verdict "the loan type is FHA"
    [("loan_product",
       [ Item "loan_type" "Loan type clearly specified" Severity.CRITICAL "q1";
         Item "loan_amount" "Loan amount or range specified" Severity.CRITICAL "q2" ])]
  = Ok [ Gap.Build "loan_product" "loan_type" "Loan type clearly specified" "critical" "q1";
         Gap.Build "loan_product" "loan_amount" "Loan amount or range specified"
           "critical" "q2" ].
Proof. vm_compute. reflexivity. Qed.

(** * Further properties

    More of the same code: the verdicts of the language
    model in the gap checker, the outcome as a function of the gap counts,
    the questions, the shape of a classification, and the runs of the
    workflow with its three public operations. *)

(** ** agents.py: the verdicts of the language model *)

(** What the loop reads for an item: the member under the item's key, or
    the default ["NO"]. *)
Definition verdict (members : gmap string json_value) (item : ChecklistItem.t)
    : json_value :=
  match members !! ChecklistItem.key item with
  | Some v => v
  | None => JString "NO"
  end.

(** The item is reported: its verdict is a string whose upper-cased form
    contains ["NO"]. *)
Definition reported `{StrCase} (members : gmap string json_value)
    (item : ChecklistItem.t) : bool :=
  match verdict members item with
  | JString s => str_in "NO" (upper s)
  | JNotString => false
  end.

Definition llm_gaps `{StrCase} (members : gmap string json_value) (category : string)
    (items : list ChecklistItem.t) : list Gap.t :=
  map (gap_of category) (List.filter (reported members) items).

(** Every verdict the loop reads is a string. *)
Definition answered (members : gmap string json_value)
    (items : list ChecklistItem.t) : Prop :=
  forall item, In item items -> verdict members item <> JNotString.

(** The backend call of a category returns a payload that parses to the
    JSON object [members]. *)
Definition backend_answers `{Backend} (requirements_text : string)
    (items : list ChecklistItem.t) (members : gmap string json_value) : Prop :=
  exists response,
    llm_invoke (check_prompt requirements_text items) = Ok response /\
    json_loads (payload response) = Ok (JObject members).

(** The verdict loop of the [try] branch. *)
Definition verdict_loop `{StrCase} (results : json_doc) (category : string)
    (items : list ChecklistItem.t) : GapLoop.M unit :=
  GapLoop.for_each items (fun item =>
    value <- GapLoop.lift (py_get results (ChecklistItem.key item) (JString "NO")) ;;
    status <- GapLoop.lift (py_upper value) ;;
    GapLoop.when (str_in "NO" status) (GapLoop.append (gap_of category item))).

Lemma verdict_loop_run `{StrCase} (members : gmap string json_value) (category : string)
    (items : list ChecklistItem.t) (gaps : list Gap.t) :
  answered members items ->
  verdict_loop (JObject members) category items gaps
  = (Ok tt, gaps ++ llm_gaps members category items).
Proof.
  unfold verdict_loop, llm_gaps. revert gaps.
  induction items as [|item items IH]; intros gaps Hall; cbn [GapLoop.for_each List.filter map].
  - unfold GapLoop.ret. rewrite app_nil_r. reflexivity.
  - assert (Hitem : verdict members item <> JNotString) by (apply Hall; left; reflexivity).
    assert (Hrest : answered members items) by (intros i Hi; apply Hall; right; exact Hi).
    unfold reported. unfold verdict in *.
    destruct (members !! ChecklistItem.key item) as [[s|]|] eqn:Hm; try congruence.
    + unfold GapLoop.bind at 1. unfold GapLoop.bind at 1. unfold GapLoop.lift at 1.
      unfold py_get. rewrite Hm. unfold GapLoop.bind at 1. unfold GapLoop.lift, py_upper.
      destruct (str_in "NO" (upper s)); cbn [GapLoop.when GapLoop.append GapLoop.ret map].
      * rewrite IH by exact Hrest. rewrite <- app_assoc. reflexivity.
      * apply IH, Hrest.
    + unfold GapLoop.bind at 1. unfold GapLoop.bind at 1. unfold GapLoop.lift at 1.
      unfold py_get. rewrite Hm. unfold GapLoop.bind at 1. unfold GapLoop.lift, py_upper.
      destruct (str_in "NO" (upper "NO")); cbn [GapLoop.when GapLoop.append GapLoop.ret map].
      * rewrite IH by exact Hrest. rewrite <- app_assoc. reflexivity.
      * apply IH, Hrest.
Qed.

(** The loop stops at the first verdict that is not a string; what the
    items before it appended stays. *)
Lemma verdict_loop_stops `{StrCase} (members : gmap string json_value) (category : string)
    (before after : list ChecklistItem.t) (item : ChecklistItem.t) (gaps : list Gap.t) :
  answered members before ->
  verdict members item = JNotString ->
  verdict_loop (JObject members) category (before ++ item :: after) gaps
  = (Raise (Exception "AttributeError"), gaps ++ llm_gaps members category before).
Proof.
  intros Hbefore Hitem. unfold verdict_loop, llm_gaps. revert gaps.
  induction before as [|b before IH]; intros gaps; cbn [app GapLoop.for_each List.filter map].
  - rewrite app_nil_r. unfold verdict in Hitem.
    destruct (members !! ChecklistItem.key item) as [[s|]|] eqn:Hm; try discriminate.
    unfold GapLoop.bind at 1. unfold GapLoop.bind at 1. unfold GapLoop.lift at 1.
    unfold py_get. rewrite Hm. reflexivity.
  - assert (Hb : verdict members b <> JNotString) by (apply Hbefore; left; reflexivity).
    assert (Hrest : answered members before) by (intros i Hi; apply Hbefore; right; exact Hi).
    specialize (IH Hrest).
    unfold reported. unfold verdict in *.
    destruct (members !! ChecklistItem.key b) as [[s|]|] eqn:Hm; try congruence.
    + unfold GapLoop.bind at 1. unfold GapLoop.bind at 1. unfold GapLoop.lift at 1.
      unfold py_get. rewrite Hm. unfold GapLoop.bind at 1. unfold GapLoop.lift, py_upper.
      destruct (str_in "NO" (upper s)); cbn [GapLoop.when GapLoop.append GapLoop.ret map].
      * rewrite IH. rewrite <- app_assoc. reflexivity.
      * apply IH.
    + unfold GapLoop.bind at 1. unfold GapLoop.bind at 1. unfold GapLoop.lift at 1.
      unfold py_get. rewrite Hm. unfold GapLoop.bind at 1. unfold GapLoop.lift, py_upper.
      destruct (str_in "NO" (upper "NO")); cbn [GapLoop.when GapLoop.append GapLoop.ret map].
      * rewrite IH. rewrite <- app_assoc. reflexivity.
      * apply IH.
Qed.

Lemma llm_check_answers `{StrCase} `{Backend} (requirements_text category : string)
    (items : list ChecklistItem.t) (members : gmap string json_value) (gaps : list Gap.t) :
  backend_answers requirements_text items members ->
  llm_check requirements_text category items gaps
  = verdict_loop (JObject members) category items gaps.
Proof.
  intros (response & Hr & Hj). unfold llm_check.
  rewrite (bind_ok _ _ gaps response gaps)
    by (unfold GapLoop.lift; rewrite Hr; reflexivity).
  rewrite (bind_ok _ _ gaps (JObject members) gaps)
    by (unfold GapLoop.lift; fold (payload response); rewrite Hj; reflexivity).
  reflexivity.
Qed.

Lemma check_category_answered `{StrCase} `{Backend} (requirements_text category : string)
    (items : list ChecklistItem.t) (members : gmap string json_value) (gaps : list Gap.t) :
  backend_answers requirements_text items members ->
  answered members items ->
  check_category requirements_text (category, items) gaps
  = (Ok tt, gaps ++ llm_gaps members category items).
Proof.
  intros Hb Ha. unfold check_category, GapLoop.try_except.
  rewrite (llm_check_answers _ _ _ _ _ Hb), verdict_loop_run by exact Ha.
  reflexivity.
Qed.

Lemma check_category_interrupted `{StrCase} `{Backend} (requirements_text category : string)
    (before after : list ChecklistItem.t) (item : ChecklistItem.t)
    (members : gmap string json_value) (gaps : list Gap.t) :
  backend_answers requirements_text (before ++ item :: after) members ->
  answered members before ->
  verdict members item = JNotString ->
  check_category requirements_text (category, before ++ item :: after) gaps
  = (Ok tt, gaps ++ llm_gaps members category before
                 ++ keyword_gaps requirements_text category (before ++ item :: after)).
Proof.
  intros Hb Ha Hi. unfold check_category, GapLoop.try_except.
  rewrite (llm_check_answers _ _ _ _ _ Hb), verdict_loop_stops by assumption.
  rewrite keyword_fallback_run, <- app_assoc. reflexivity.
Qed.

Lemma reported_spec `{StrCase} (members : gmap string json_value) (category : string)
    (items : list ChecklistItem.t) (item : ChecklistItem.t) :
  In item items ->
  (In (gap_of category item) (llm_gaps members category items)
   <-> reported members item = true).
Proof.
  intros Hitem. unfold llm_gaps. rewrite in_map_iff. split.
  - intros (item' & Heq & Hin). apply List.filter_In in Hin as [_ Hrep].
    assert (Hkey : ChecklistItem.key item' = ChecklistItem.key item)
      by (apply (f_equal Gap.key) in Heq; exact Heq).
    unfold reported, verdict in *. rewrite <- Hkey. exact Hrep.
  - intros Hrep. exists item. split; [reflexivity|].
    apply List.filter_In. split; assumption.
Qed.

(** The categories the backend answers with string verdicts. *)
Lemma check_loop_answered `{StrCase} `{Backend} (requirements_text : string)
    (checklist : Dict.t (list ChecklistItem.t))
    (answers : string -> gmap string json_value) (gaps : list Gap.t) :
  (forall category items,
      In (category, items) checklist ->
      backend_answers requirements_text items (answers category) /\
      answered (answers category) items) ->
  GapLoop.for_each checklist (check_category requirements_text) gaps
  = (Ok tt,
     gaps ++ flat_map (fun '(category, items) =>
                         llm_gaps (answers category) category items) checklist).
Proof.
  revert gaps. induction checklist as [|[category items] rest IH];
    intros gaps Hall; cbn [GapLoop.for_each flat_map].
  - unfold GapLoop.ret. rewrite app_nil_r. reflexivity.
  - destruct (Hall category items ltac:(left; reflexivity)) as [Hb Ha].
    rewrite (bind_ok _ _ gaps tt (gaps ++ llm_gaps (answers category) category items))
      by (apply check_category_answered; assumption).
    rewrite IH by (intros c i Hin; apply Hall; right; exact Hin).
    rewrite <- app_assoc. reflexivity.
Qed.

(** X1. When the backend call of a category returns a payload that parses to
    a JSON object whose verdicts for the category's items are strings, the
    iteration appends, in item order, the record of every item whose
    verdict contains "NO" once upper-cased ("no", "None", "UNKNOWN", ...)
    and, as long as upper-casing keeps "NO", of every item the object does
    not mention, whose verdict defaults to "NO"; it appends nothing else.
    When this holds for every category the checker returns those gaps,
    category by category. *)
Theorem llm_verdict_rule `{StrCase} `{Backend} (requirements_text : string) :
  (forall category items members gaps,
      backend_answers requirements_text items members ->
      answered members items ->
      check_category requirements_text (category, items) gaps
      = (Ok tt, gaps ++ llm_gaps members category items) /\
      forall item, In item items ->
        (In (gap_of category item) (llm_gaps members category items) <->
         (exists s, members !! ChecklistItem.key item = Some (JString s) /\
                    str_in "NO" (upper s) = true) \/
         (members !! ChecklistItem.key item = None /\
          str_in "NO" (upper "NO") = true))) /\
  (forall checklist answers,
      (forall category items,
          In (category, items) checklist ->
          backend_answers requirements_text items (answers category) /\
          answered (answers category) items) ->
      check_items requirements_text checklist
      = Ok (flat_map (fun '(category, items) =>
                        llm_gaps (answers category) category items) checklist)).
Proof.
  split.
  - intros category items members gaps Hb Ha.
    split; [apply check_category_answered; assumption|].
    intros item Hitem. rewrite (reported_spec _ _ _ _ Hitem).
    specialize (Ha item Hitem). unfold reported, verdict in *.
    destruct (members !! ChecklistItem.key item) as [[s|]|]; try congruence.
    + split.
      * intros Hs. left. exists s. auto.
      * intros [(s' & [= <-] & Hs)|[[=] _]]. exact Hs.
    + split.
      * intros Hs. right. auto.
      * intros [(s' & [=] & _)|[_ Hs]]. exact Hs.
  - intros checklist answers Hall. unfold check_items, Dict.items.
    rewrite (check_loop_answered _ _ answers) by exact Hall. reflexivity.
Qed.

Definition backend_verdicts : Backend :=
  {| llm_invoke := fun _ => Ok "```json {} ```";
     json_loads := fun _ =>
       Ok (JObject (<["loan_type" := JString "yes"]>
                   (<["loan_amount" := JString "unknown"]> ∅)));
     author_chain := fun _ requirements => Ok requirements;
     critic_chain := fun _ _ => Ok "" |}.

Lemma llm_verdict_rule_witness :
  @check_items ascii_case backend_verdicts "the loan amount is open"
    [("loan_product",
       [ Item "loan_type" "Loan type clearly specified" Severity.CRITICAL "q1";
         Item "loan_amount" "Loan amount or range specified" Severity.CRITICAL "q2";
         Item "loan_term" "Loan term specified" Severity.HIGH "q3" ])]
  = Ok [ Gap.Build "loan_product" "loan_amount" "Loan amount or range specified"
           "critical" "q2";
         Gap.Build "loan_product" "loan_term" "Loan term specified" "high" "q3" ].
Proof.
  destruct (@llm_verdict_rule ascii_case backend_verdicts "the loan amount is open")
    as [_ Hall].
  rewrite (Hall _ (fun _ => <["loan_type" := JString "yes"]>
                            (<["loan_amount" := JString "unknown"]> ∅))).
  - vm_compute. reflexivity.
  - intros category items [[= <- <-]|[]]. split.
    + eexists. split; reflexivity.
    + intros item [<-|[<-|[<-|[]]]]; vm_compute; discriminate.
Defined.

(** X2. A verdict that is not a string makes [.upper()] raise in the middle
    of the verdict loop: the gaps appended for the items before it stay,
    and the keyword rule then runs over the whole category.  So an item
    before the stray verdict that the model reported, and whose key the
    text does not contain, is reported twice. *)
Theorem verdict_not_string_rechecks `{StrCase} `{Backend} (requirements_text category : string)
    (before after : list ChecklistItem.t) (item : ChecklistItem.t)
    (members : gmap string json_value) (gaps : list Gap.t) :
  backend_answers requirements_text (before ++ item :: after) members ->
  answered members before ->
  members !! ChecklistItem.key item = Some JNotString ->
  check_category requirements_text (category, before ++ item :: after) gaps
  = (Ok tt, gaps ++ llm_gaps members category before
                 ++ keyword_gaps requirements_text category (before ++ item :: after)) /\
  forall b, In b before ->
    reported members b = true ->
    str_in (replace_char "_" " " (ChecklistItem.key b)) (lower requirements_text) = false ->
    In (gap_of category b) (llm_gaps members category before) /\
    In (gap_of category b)
       (keyword_gaps requirements_text category (before ++ item :: after)).
Proof.
  intros Hb Ha Hi. split.
  - apply check_category_interrupted; [exact Hb|exact Ha|].
    unfold verdict. rewrite Hi. reflexivity.
  - intros b Hin Hrep Hkw. split.
    + apply reported_spec; assumption.
    + unfold keyword_gaps. apply in_map. apply List.filter_In. split.
      * apply in_or_app. left. exact Hin.
      * rewrite Hkw. reflexivity.
Qed.

Definition backend_half_verdicts : Backend :=
  {| llm_invoke := fun _ => Ok "{}";
     json_loads := fun _ =>
       Ok (JObject (<["loan_type" := JString "NO"]> (<["loan_amount" := JNotString]> ∅)));
     author_chain := fun _ requirements => Ok requirements;
     critic_chain := fun _ _ => Ok "" |}.

Lemma verdict_not_string_rechecks_witness :
  @check_category ascii_case backend_half_verdicts "a loan of 300000 dollars"
    ("loan_product",
       [ Item "loan_type" "Loan type clearly specified" Severity.CRITICAL "q1";
         Item "loan_amount" "Loan amount or range specified" Severity.CRITICAL "q2" ]) []
  = (Ok tt,
     [ Gap.Build "loan_product" "loan_type" "Loan type clearly specified" "critical" "q1";
       Gap.Build "loan_product" "loan_type" "Loan type clearly specified" "critical" "q1";
       Gap.Build "loan_product" "loan_amount" "Loan amount or range specified"
         "critical" "q2" ]).
Proof.
  destruct (@verdict_not_string_rechecks ascii_case backend_half_verdicts
              "a loan of 300000 dollars" "loan_product"
              [Item "loan_type" "Loan type clearly specified" Severity.CRITICAL "q1"] []
              (Item "loan_amount" "Loan amount or range specified" Severity.CRITICAL "q2")
              (<["loan_type" := JString "NO"]> (<["loan_amount" := JNotString]> ∅)) [])
    as [Hrun _].
  - eexists. split; reflexivity.
  - intros item [<-|[]]. vm_compute. discriminate.
  - vm_compute. reflexivity.
  - cbn [app] in Hrun. rewrite Hrun. vm_compute. reflexivity.
Defined.

(** *** Where the gaps come from *)

Lemma filter_sublist {A} (p : A -> bool) (l : list A) : sublist (List.filter p l) l.
Proof.
  induction l as [|x l IH]; simpl; [constructor|].
  destruct (p x); constructor; exact IH.
Qed.

Lemma map_sublist {A B} (f : A -> B) (l1 l2 : list A) :
  sublist l1 l2 -> sublist (map f l1) (map f l2).
Proof. induction 1; simpl; constructor; assumption. Qed.

Lemma sublist_In {A} (l1 l2 : list A) (x : A) : sublist l1 l2 -> In x l1 -> In x l2.
Proof.
  induction 1 as [|y l1 l2 _ IH|y l1 l2 _ IH]; simpl; intros Hin.
  - exact Hin.
  - destruct Hin as [->|Hin]; auto.
  - auto.
Qed.

Lemma keyword_gaps_sublist `{StrCase} (requirements_text category : string)
    (items : list ChecklistItem.t) :
  sublist (keyword_gaps requirements_text category items) (map (gap_of category) items).
Proof. unfold keyword_gaps. apply map_sublist, filter_sublist. Qed.

Lemma llm_gaps_sublist `{StrCase} (members : gmap string json_value) (category : string)
    (items : list ChecklistItem.t) :
  sublist (llm_gaps members category items) (map (gap_of category) items).
Proof. unfold llm_gaps. apply map_sublist, filter_sublist. Qed.

(** Whatever the parsed document holds, the verdict loop appends gaps of
    the category's items, in their order, each at most once. *)
Lemma verdict_loop_appends `{StrCase} (results : json_doc) (category : string)
    (items : list ChecklistItem.t) (gaps : list Gap.t) :
  exists extra,
    snd (verdict_loop results category items gaps) = gaps ++ extra /\
    sublist extra (map (gap_of category) items).
Proof.
  unfold verdict_loop. revert gaps.
  induction items as [|item items IH]; intros gaps; cbn [GapLoop.for_each map].
  - exists []. rewrite app_nil_r. split; [reflexivity|constructor].
  - unfold GapLoop.bind at 1. unfold GapLoop.bind at 1. unfold GapLoop.lift at 1.
    destruct (py_get results (ChecklistItem.key item) (JString "NO")) as [value|e].
    + unfold GapLoop.bind at 1. unfold GapLoop.lift at 1.
      destruct (py_upper value) as [status|e].
      * destruct (str_in "NO" status); cbn [GapLoop.when GapLoop.append GapLoop.ret].
        -- destruct (IH (gaps ++ [gap_of category item])) as (extra & -> & Hsub).
           exists (gap_of category item :: extra).
           rewrite <- app_assoc. split; [reflexivity|constructor; exact Hsub].
        -- destruct (IH gaps) as (extra & -> & Hsub).
           exists extra. split; [reflexivity|constructor; exact Hsub].
      * exists []. rewrite app_nil_r. split; [reflexivity|apply sublist_nil_l].
    + exists []. rewrite app_nil_r. split; [reflexivity|apply sublist_nil_l].
Qed.

Lemma llm_check_appends `{StrCase} `{Backend} (requirements_text category : string)
    (items : list ChecklistItem.t) (gaps : list Gap.t) :
  exists extra,
    snd (llm_check requirements_text category items gaps) = gaps ++ extra /\
    sublist extra (map (gap_of category) items).
Proof.
  unfold llm_check.
  unfold GapLoop.bind at 1. unfold GapLoop.lift at 1.
  destruct (llm_invoke _) as [response|e].
  - unfold GapLoop.bind at 1. unfold GapLoop.lift at 1.
    destruct (json_loads _) as [results|e].
    + apply verdict_loop_appends.
    + exists []. rewrite app_nil_r. split; [reflexivity|apply sublist_nil_l].
  - exists []. rewrite app_nil_r. split; [reflexivity|apply sublist_nil_l].
Qed.

(** One iteration of the category loop appends the gaps of a first pass
    over the items and, when that pass raised, those of the keyword pass. *)
Lemma check_category_appends `{StrCase} `{Backend} (requirements_text category : string)
    (items : list ChecklistItem.t) (gaps : list Gap.t) :
  exists first second,
    check_category requirements_text (category, items) gaps
    = (Ok tt, gaps ++ first ++ second) /\
    sublist first (map (gap_of category) items) /\
    sublist second (map (gap_of category) items).
Proof.
  unfold check_category, GapLoop.try_except.
  destruct (llm_check_appends requirements_text category items gaps)
    as (extra & Hsnd & Hsub).
  destruct (llm_check requirements_text category items gaps) as [[[]|e] gaps'];
    cbn [snd] in Hsnd; subst gaps'.
  - exists extra, []. rewrite app_nil_r.
    split; [reflexivity|]. split; [exact Hsub|apply sublist_nil_l].
  - rewrite keyword_fallback_run. exists extra, (keyword_gaps requirements_text category items).
    rewrite <- app_assoc. split; [reflexivity|].
    split; [exact Hsub|apply keyword_gaps_sublist].
Qed.

(** The gap is the record of an item of the checklist, under the item's
    category. *)
Definition from_checklist (checklist : Dict.t (list ChecklistItem.t)) (g : Gap.t) : Prop :=
  exists category items item,
    In (category, items) checklist /\ In item items /\ g = gap_of category item.

Lemma check_loop_from_checklist `{StrCase} `{Backend} (requirements_text : string)
    (checklist : Dict.t (list ChecklistItem.t)) (gaps : list Gap.t) :
  exists extra,
    GapLoop.for_each checklist (check_category requirements_text) gaps
    = (Ok tt, gaps ++ extra) /\
    Forall (from_checklist checklist) extra.
Proof.
  revert gaps. induction checklist as [|[category items] rest IH]; intros gaps;
    cbn [GapLoop.for_each].
  - exists []. rewrite app_nil_r. split; [reflexivity|constructor].
  - destruct (check_category_appends requirements_text category items gaps)
      as (first & second & Hrun & Hf & Hs).
    rewrite (bind_ok _ _ gaps tt _ Hrun).
    destruct (IH (gaps ++ first ++ second)) as (extra & -> & Hextra).
    exists (first ++ second ++ extra). rewrite <- !app_assoc.
    split; [reflexivity|].
    apply Forall_app. split; [|apply Forall_app; split].
    + apply List.Forall_forall. intros g Hg.
      apply (sublist_In _ _ _ Hf), in_map_iff in Hg as (item & <- & Hitem).
      exists category, items, item. split; [left; reflexivity|auto].
    + apply List.Forall_forall. intros g Hg.
      apply (sublist_In _ _ _ Hs), in_map_iff in Hg as (item & <- & Hitem).
      exists category, items, item. split; [left; reflexivity|auto].
    + eapply List.Forall_impl; [|exact Hextra].
      intros g (c & i & item & Hin & Hitem & ->).
      exists c, i, item. split; [right; exact Hin|auto].
Qed.

Lemma severity_value_listed (s : Severity.t) :
  In (Severity.value s) ["critical"; "high"; "medium"; "low"].
Proof. destruct s; simpl; auto. Qed.

(** X3. Whatever the backend does, every gap the checker returns is the
    record of an item of the checklist under that item's category: its
    category is a key of the checklist and its severity is one of
    "critical", "high", "medium" and "low". *)
Theorem gaps_from_checklist `{StrCase} `{Backend} (requirements_text : string)
    (checklist : Dict.t (list ChecklistItem.t)) :
  exists gaps,
    check_items requirements_text checklist = Ok gaps /\
    Forall (from_checklist checklist) gaps /\
    Forall (fun g => In (Gap.category g) (Dict.keys checklist) /\
                     In (Gap.severity g) ["critical"; "high"; "medium"; "low"]) gaps.
Proof.
  unfold check_items, Dict.items.
  destruct (check_loop_from_checklist requirements_text checklist [])
    as (extra & -> & Hfrom).
  exists extra. split; [reflexivity|]. split; [exact Hfrom|].
  eapply List.Forall_impl; [|exact Hfrom].
  intros g (category & items & item & Hin & _ & ->). split.
  - cbn [gap_of Gap.category]. unfold Dict.keys. apply in_map_iff.
    exists (category, items). auto.
  - apply severity_value_listed.
Qed.

(** *** Runs without a stray verdict *)

(** The records of all the items of a checklist, in its order. *)
Definition all_gaps (checklist : Dict.t (list ChecklistItem.t)) : list Gap.t :=
  flat_map (fun '(category, items) => map (gap_of category) items) checklist.

(** The backend fails for the category as a whole, or answers with string
    verdicts for all the items it mentions. *)
Definition settled `{StrCase} `{Backend} (requirements_text : string)
    (items : list ChecklistItem.t) : Prop :=
  backend_failed requirements_text items \/
  exists members,
    backend_answers requirements_text items members /\ answered members items.

Lemma check_loop_settled `{StrCase} `{Backend} (requirements_text : string)
    (checklist : Dict.t (list ChecklistItem.t)) (gaps : list Gap.t) :
  (forall category items,
      In (category, items) checklist -> settled requirements_text items) ->
  exists extra,
    GapLoop.for_each checklist (check_category requirements_text) gaps
    = (Ok tt, gaps ++ extra) /\
    sublist extra (all_gaps checklist).
Proof.
  revert gaps. induction checklist as [|[category items] rest IH]; intros gaps Hall;
    cbn [GapLoop.for_each all_gaps flat_map].
  - exists []. rewrite app_nil_r. split; [reflexivity|constructor].
  - assert (Hrest : forall c i, In (c, i) rest -> settled requirements_text i)
      by (intros c i Hin; apply (Hall c); right; exact Hin).
    destruct (Hall category items ltac:(left; reflexivity))
      as [Hfail|(members & Hb & Ha)].
    + rewrite (bind_ok _ _ gaps tt _ (check_category_failed _ _ _ _ Hfail)).
      destruct (IH (gaps ++ keyword_gaps requirements_text category items) Hrest)
        as (extra & -> & Hsub).
      exists (keyword_gaps requirements_text category items ++ extra).
      rewrite <- app_assoc. split; [reflexivity|].
      apply sublist_app; [apply keyword_gaps_sublist|exact Hsub].
    + rewrite (bind_ok _ _ gaps tt _ (check_category_answered _ _ _ _ _ Hb Ha)).
      destruct (IH (gaps ++ llm_gaps members category items) Hrest)
        as (extra & -> & Hsub).
      exists (llm_gaps members category items ++ extra).
      rewrite <- app_assoc. split; [reflexivity|].
      apply sublist_app; [apply llm_gaps_sublist|exact Hsub].
Qed.

(** The item keys of a resolved checklist are pairwise distinct, across
    its categories. *)
Lemma checklist_keys_distinct (loan_type : string) :
  NoDup (map Gap.key (all_gaps (checklist_bindings loan_type))).
Proof.
  rewrite checklist_bindings_cases. unfold extended.
  destruct (String.eqb loan_type "FHA"); [|destruct (String.eqb loan_type "VA")];
    apply (@bool_decide_unpack _ (NoDup_dec _)); vm_compute; exact I.
Qed.

(** X4. When, for every category of the resolved checklist, the backend call
    either fails as a whole or answers with string verdicts, the gaps come
    in checklist order with each item at most once: the result is a
    sub-sequence of the records of all the items, and no two gaps share a
    key. *)
Theorem settled_gaps_in_order `{StrCase} `{Backend} (author_output : AuthorOutput.t) :
  let loan_type :=
    LoanClassification.primary_type (AuthorOutput.loan_classification author_output) in
  let requirements_text := AuthorOutput.structured_requirements author_output in
  (forall category items,
      In (category, items) (checklist_bindings loan_type) ->
      settled requirements_text items) ->
  exists gaps,
    check_against_checklist author_output = Ok gaps /\
    sublist gaps (all_gaps (checklist_bindings loan_type)) /\
    NoDup (map Gap.key gaps).
Proof.
  intros loan_type requirements_text Hall.
  unfold check_against_checklist, check_items, Dict.items.
  fold loan_type requirements_text.
  destruct (check_loop_settled requirements_text (checklist_bindings loan_type) [] Hall)
    as (extra & -> & Hsub).
  exists extra. split; [reflexivity|]. split; [exact Hsub|].
  eapply sublist_NoDup; [apply checklist_keys_distinct|].
  apply map_sublist. exact Hsub.
Qed.

Lemma settled_gaps_in_order_witness :
  exists gaps,
    @check_against_checklist ascii_case backend_down
      (AuthorOutput.Build (@detect_loan_type ascii_case "a VA loan")
         "loan type VA, loan amount 200000, credit score 640" "a VA loan") = Ok gaps /\
    NoDup (map Gap.key gaps).
Proof.
  destruct (@settled_gaps_in_order ascii_case backend_down
              (AuthorOutput.Build (@detect_loan_type ascii_case "a VA loan")
                 "loan type VA, loan amount 200000, credit score 640" "a VA loan"))
    as (gaps & Hrun & _ & Hnodup).
  - intros category items _. left. left. eexists. reflexivity.
  - exists gaps. split; assumption.
Defined.

(** *** What the model is shown *)

Lemma check_prompt_prefix (text1 text2 : string) (items : list ChecklistItem.t) :
  prefix_to 4000 text1 = prefix_to 4000 text2 ->
  check_prompt text1 items = check_prompt text2 items.
Proof. intros Hp. unfold check_prompt. rewrite Hp. reflexivity. Qed.

(** X5. The language model is shown the first 4000 characters of the
    requirements text only: two texts that agree on them give the same
    prompt and, when the model answers with string verdicts, the same gaps
    for the category.  The keyword rule of the fallback, in contrast,
    reads the whole text. *)
Theorem model_reads_4000_characters `{StrCase} `{Backend} (text1 text2 category : string)
    (items : list ChecklistItem.t) (members : gmap string json_value)
    (gaps : list Gap.t) :
  prefix_to 4000 text1 = prefix_to 4000 text2 ->
  backend_answers text1 items members ->
  answered members items ->
  check_prompt text2 items = check_prompt text1 items /\
  check_category text2 (category, items) gaps
  = check_category text1 (category, items) gaps.
Proof.
  intros Hp Hb Ha.
  assert (Hprompt : check_prompt text2 items = check_prompt text1 items)
    by (symmetry; apply check_prompt_prefix, Hp).
  split; [exact Hprompt|].
  assert (Hb2 : backend_answers text2 items members)
    by (unfold backend_answers; rewrite Hprompt; exact Hb).
  rewrite !(check_category_answered _ _ _ members) by assumption.
  reflexivity.
Qed.

(** A text of [n] characters. *)
Definition filler (n : nat) : string := string_of_list_ascii (repeat "x"%char n).

Definition backend_yes : Backend :=
  {| llm_invoke := fun _ => Ok "{}";
     json_loads := fun _ => Ok (JObject (<["loan_term" := JString "YES"]> ∅));
     author_chain := fun _ requirements => Ok requirements;
     critic_chain := fun _ _ => Ok "" |}.

Lemma model_reads_4000_characters_witness :
  @check_category ascii_case backend_yes (filler 4000 +:+ " and no loan term")
    ("loan_product", [Item "loan_term" "Loan term specified" Severity.HIGH "q"]) []
  = @check_category ascii_case backend_yes (filler 4000 +:+ " loan term 30 years")
      ("loan_product", [Item "loan_term" "Loan term specified" Severity.HIGH "q"]) [].
Proof.
  apply (@model_reads_4000_characters ascii_case backend_yes
           (filler 4000 +:+ " loan term 30 years") (filler 4000 +:+ " and no loan term")
           "loan_product" _ (<["loan_term" := JString "YES"]> ∅)).
  - vm_compute. reflexivity.
  - eexists. split; reflexivity.
  - intros item [<-|[]]. vm_compute. discriminate.
Defined.

(** ** agents.py: the outcome as a function of the gap counts *)

(** The number of gaps of a severity. *)
Definition count (severity : string) (gaps : list Gap.t) : nat :=
  length (List.filter (fun g => String.eqb (Gap.severity g) severity) gaps).

(** The running score after [c] critical, [h] high and [m] medium gaps,
    deducted in that order. *)
Definition score_of (c h m : nat) : float :=
  Nat.iter m (fun x => sub x f_0_02)
    (Nat.iter h (fun x => sub x f_0_05)
       (Nat.iter c (fun x => sub x f_0_10) f_1_0)).

(** Deductions in hundredths. *)
Definition points (c h m : nat) : nat := 10 * c + 5 * h + 2 * m.

Definition penalty_of `{StrCase} (llm_critique : string) : float :=
  if str_in "catastrophic" (lower llm_critique)
     || str_in "critical failure" (lower llm_critique)
  then f_0_20
  else if str_in "major gap" (lower llm_critique) || str_in "serious" (lower llm_critique)
  then f_0_10
  else f_0_0.

Definition penalty_points `{StrCase} (llm_critique : string) : nat :=
  if str_in "catastrophic" (lower llm_critique)
     || str_in "critical failure" (lower llm_critique)
  then 20
  else if str_in "major gap" (lower llm_critique) || str_in "serious" (lower llm_critique)
  then 10
  else 0.

(** The score from the running score and the penalty. *)
Definition finish (rule_score penalty : float) : float :=
  py_max f_0_0 (py_min f_1_0 (sub (py_max f_0_0 rule_score) penalty)).

(** The outcome read off the counts: "complete" up to 5 points, "partial"
    up to 29, "clarify" from 31; at exactly 30 points, "partial" when at
    least 20 of them come from critical gaps and the penalty. *)
Definition outcome_for (c h m penalty : nat) : string :=
  let total := (points c h m + penalty)%nat in
  if (total <=? 5)%nat then "complete"
  else if (total <=? 29)%nat then "partial"
  else if ((total =? 30) && (20 <=? 10 * c + penalty))%nat then "partial"
  else "clarify".

Definition float_eqb (a b : float) : bool :=
  match a, b with
  | S754_zero s, S754_zero s' => Bool.eqb s s'
  | S754_infinity s, S754_infinity s' => Bool.eqb s s'
  | S754_nan, S754_nan => true
  | S754_finite s m e, S754_finite s' m' e' =>
      Bool.eqb s s' && Pos.eqb m m' && Z.eqb e e'
  | _, _ => false
  end.

Lemma float_eqb_eq (a b : float) : float_eqb a b = true -> a = b.
Proof.
  destruct a as [s|s| |s m e], b as [s'|s'| |s' m' e']; simpl; try discriminate.
  - intros Hs. apply Bool.eqb_prop in Hs. congruence.
  - intros Hs. apply Bool.eqb_prop in Hs. congruence.
  - reflexivity.
  - intros Hs. apply andb_true_iff in Hs as [Hs He].
    apply andb_true_iff in Hs as [Hs Hm].
    apply Bool.eqb_prop in Hs. apply Pos.eqb_eq in Hm. apply Z.eqb_eq in He.
    congruence.
Qed.

(** The counts of at most 30 points. *)
Definition light_counts : list (nat * nat * nat) :=
  List.filter (fun '(c, h, m) => (points c h m <=? 30)%nat)
    (flat_map (fun c => flat_map (fun h => map (fun m => (c, h, m)) (seq 0 16)) (seq 0 7))
       (seq 0 4)).

Lemma light_counts_spec (c h m : nat) :
  (points c h m <= 30)%nat -> In (c, h, m) light_counts.
Proof.
  intros Hle. unfold light_counts, points in *. apply List.filter_In. split.
  - apply in_flat_map. exists c. split; [apply in_seq; lia|].
    apply in_flat_map. exists h. split; [apply in_seq; lia|].
    apply in_map_iff. exists m. split; [reflexivity|apply in_seq; lia].
  - apply Nat.leb_le. exact Hle.
Qed.

(** One more deduction from a light score: the score of the new counts
    while they stay light, and a score under 0.70 once they do not. *)
Definition next_ok (c h m : nat) (amount : float) (c' h' m' : nat) : bool :=
  if (points c' h' m' <=? 30)%nat
  then float_eqb (sub (score_of c h m) amount) (score_of c' h' m')
  else lt (sub (score_of c h m) amount) f_0_70.

Definition deductions_checked : bool :=
  forallb (fun '(c, h, m) =>
             next_ok c h m f_0_10 (S c) h m &&
             next_ok c h m f_0_05 c (S h) m &&
             next_ok c h m f_0_02 c h (S m)) light_counts.

Definition outcomes_checked : bool :=
  forallb (fun '(c, h, m) =>
             forallb (fun '(penalty, p) =>
                        String.eqb (determine_outcome (finish (score_of c h m) penalty))
                                   (outcome_for c h m p))
               [(f_0_0, 0%nat); (f_0_10, 10%nat); (f_0_20, 20%nat)]) light_counts.

Lemma deductions_checked_true : deductions_checked = true.
Proof. vm_compute. reflexivity. Qed.

Lemma outcomes_checked_true : outcomes_checked = true.
Proof. vm_compute. reflexivity. Qed.

Lemma next_step (c h m : nat) :
  (points c h m <= 30)%nat ->
  next_ok c h m f_0_10 (S c) h m = true /\
  next_ok c h m f_0_05 c (S h) m = true /\
  next_ok c h m f_0_02 c h (S m) = true.
Proof.
  intros Hle. pose proof deductions_checked_true as Hall.
  unfold deductions_checked in Hall. rewrite forallb_forall in Hall.
  specialize (Hall _ (light_counts_spec c h m Hle)). cbn beta iota in Hall.
  apply andb_true_iff in Hall as [Hall H3]. apply andb_true_iff in Hall as [H1 H2].
  auto.
Qed.

Lemma score_of_sound (c h m : nat) : sound (score_of c h m).
Proof.
  destruct literals_deductible as (_ & D2 & D5 & D10 & _).
  unfold score_of.
  induction m as [|m IHm]; cbn [Nat.iter]; [|apply sub_sound; assumption].
  induction h as [|h IHh]; cbn [Nat.iter]; [|apply sub_sound; assumption].
  induction c as [|c IHc]; cbn [Nat.iter]; [exact sound_1|apply sub_sound; assumption].
Qed.

Lemma fold_deduct_le (gaps : list Gap.t) (x : float) :
  sound x -> le (fold_left deduct gaps x) x = true.
Proof.
  revert x. induction gaps as [|g gaps IH]; intros x Hx; cbn [fold_left].
  - apply le_refl, Hx.
  - eapply le_trans; [apply IH, deduct_sound, Hx|apply deduct_le, Hx].
Qed.

(** The severity of a gap selects its deduction and its count. *)
Lemma gap_cases (g : Gap.t) :
  ((forall x, deduct x g = sub x f_0_10) /\
   forall gaps, count "critical" (g :: gaps) = S (count "critical" gaps) /\
                count "high" (g :: gaps) = count "high" gaps /\
                count "medium" (g :: gaps) = count "medium" gaps) \/
  ((forall x, deduct x g = sub x f_0_05) /\
   forall gaps, count "critical" (g :: gaps) = count "critical" gaps /\
                count "high" (g :: gaps) = S (count "high" gaps) /\
                count "medium" (g :: gaps) = count "medium" gaps) \/
  ((forall x, deduct x g = sub x f_0_02) /\
   forall gaps, count "critical" (g :: gaps) = count "critical" gaps /\
                count "high" (g :: gaps) = count "high" gaps /\
                count "medium" (g :: gaps) = S (count "medium" gaps)) \/
  ((forall x, deduct x g = x) /\
   forall gaps, count "critical" (g :: gaps) = count "critical" gaps /\
                count "high" (g :: gaps) = count "high" gaps /\
                count "medium" (g :: gaps) = count "medium" gaps).
Proof.
  unfold deduct, count. cbn [List.filter].
  destruct (String.eqb_spec (Gap.severity g) "critical") as [E|E].
  - left. rewrite E. split; [reflexivity|]. intros gaps. repeat split.
  - destruct (String.eqb_spec (Gap.severity g) "high") as [E'|E'].
    + right. left. rewrite E'. split; [reflexivity|]. intros gaps. repeat split.
    + destruct (String.eqb_spec (Gap.severity g) "medium") as [E''|E''].
      * right. right. left. split; [reflexivity|]. intros gaps. repeat split.
      * right. right. right. split; [reflexivity|]. intros gaps. repeat split.
Qed.

(** While the counts stay light the running score is the score of the
    counts, in whatever order the gaps come. *)
Lemma fold_deduct_light (gaps : list Gap.t) (c h m : nat) :
  (points (c + count "critical" gaps) (h + count "high" gaps)
          (m + count "medium" gaps) <= 30)%nat ->
  fold_left deduct gaps (score_of c h m)
  = score_of (c + count "critical" gaps) (h + count "high" gaps)
             (m + count "medium" gaps).
Proof.
  revert c h m. induction gaps as [|g gaps IH]; intros c h m Hle.
  - cbn [fold_left]. unfold count. cbn [List.filter length].
    rewrite !Nat.add_0_r. reflexivity.
  - cbn [fold_left].
    destruct (gap_cases g) as [[Hd Hc]|[[Hd Hc]|[[Hd Hc]|[Hd Hc]]]];
      destruct (Hc gaps) as (Ec & Eh & Em); rewrite Ec, Eh, Em in *; rewrite Hd.
    + assert (Hl : (points c h m <= 30)%nat) by (unfold points in *; lia).
      destruct (next_step c h m Hl) as (H1 & _ & _). unfold next_ok in H1.
      destruct (Nat.leb_spec (points (S c) h m) 30) as [_|Hgt];
        [|unfold points in *; lia].
      rewrite (float_eqb_eq _ _ H1), IH by (unfold points in *; lia).
      f_equal; lia.
    + assert (Hl : (points c h m <= 30)%nat) by (unfold points in *; lia).
      destruct (next_step c h m Hl) as (_ & H1 & _). unfold next_ok in H1.
      destruct (Nat.leb_spec (points c (S h) m) 30) as [_|Hgt];
        [|unfold points in *; lia].
      rewrite (float_eqb_eq _ _ H1), IH by (unfold points in *; lia).
      f_equal; lia.
    + assert (Hl : (points c h m <= 30)%nat) by (unfold points in *; lia).
      destruct (next_step c h m Hl) as (_ & _ & H1). unfold next_ok in H1.
      destruct (Nat.leb_spec (points c h (S m)) 30) as [_|Hgt];
        [|unfold points in *; lia].
      rewrite (float_eqb_eq _ _ H1), IH by (unfold points in *; lia).
      f_equal; lia.
    + apply IH. exact Hle.
Qed.

(** Once the counts are no longer light the running score is under 0.70. *)
Lemma fold_deduct_heavy (gaps : list Gap.t) (c h m : nat) :
  (points c h m <= 30)%nat ->
  (30 < points (c + count "critical" gaps) (h + count "high" gaps)
               (m + count "medium" gaps))%nat ->
  lt (fold_left deduct gaps (score_of c h m)) f_0_70 = true.
Proof.
  destruct literals_deductible as (_ & D2 & D5 & D10 & _).
  revert c h m. induction gaps as [|g gaps IH]; intros c h m Hl Hgt.
  - unfold count in Hgt. cbn [List.filter length] in Hgt.
    rewrite !Nat.add_0_r in Hgt. lia.
  - cbn [fold_left]. pose proof (score_of_sound c h m) as Hs.
    destruct (next_step c h m Hl) as (H1 & H2 & H3). unfold next_ok in H1, H2, H3.
    destruct (gap_cases g) as [[Hd Hc]|[[Hd Hc]|[[Hd Hc]|[Hd Hc]]]];
      destruct (Hc gaps) as (Ec & Eh & Em); rewrite Ec, Eh, Em in *; rewrite Hd.
    + destruct (Nat.leb_spec (points (S c) h m) 30) as [Hle|_].
      * rewrite (float_eqb_eq _ _ H1). apply IH; [exact Hle|].
        replace (S c + count "critical" gaps)%nat
          with (c + S (count "critical" gaps))%nat by lia. exact Hgt.
      * eapply le_lt_trans; [|exact H1].
        apply fold_deduct_le, sub_sound; assumption.
    + destruct (Nat.leb_spec (points c (S h) m) 30) as [Hle|_].
      * rewrite (float_eqb_eq _ _ H2). apply IH; [exact Hle|].
        replace (S h + count "high" gaps)%nat
          with (h + S (count "high" gaps))%nat by lia. exact Hgt.
      * eapply le_lt_trans; [|exact H2].
        apply fold_deduct_le, sub_sound; assumption.
    + destruct (Nat.leb_spec (points c h (S m)) 30) as [Hle|_].
      * rewrite (float_eqb_eq _ _ H3). apply IH; [exact Hle|].
        replace (S m + count "medium" gaps)%nat
          with (m + S (count "medium" gaps))%nat by lia. exact Hgt.
      * eapply le_lt_trans; [|exact H3].
        apply fold_deduct_le, sub_sound; assumption.
    + apply IH; assumption.
Qed.

Lemma lt_0_070 : lt f_0_0 f_0_70 = true.
Proof. vm_compute. reflexivity. Qed.

Lemma le_070_1 : le f_0_70 f_1_0 = true.
Proof. vm_compute. reflexivity. Qed.

Lemma finish_low (x penalty : float) :
  sound x -> deductible penalty -> lt x f_0_70 = true ->
  lt (finish x penalty) f_0_70 = true.
Proof.
  intros Hx Hp Hlt. unfold finish.
  assert (Hy : lt (py_max f_0_0 x) f_0_70 = true)
    by (unfold py_max; destruct (gt x f_0_0); [exact Hlt|exact lt_0_070]).
  assert (Hz : lt (sub (py_max f_0_0 x) penalty) f_0_70 = true).
  { eapply le_lt_trans; [|exact Hy]. apply sub_le; [apply py_max_0_sound, Hx|exact Hp]. }
  set (z := sub (py_max f_0_0 x) penalty) in *.
  unfold py_min. rewrite (lt_le_trans _ _ _ Hz le_070_1).
  unfold py_max. destruct (gt z f_0_0); [exact Hz|exact lt_0_070].
Qed.

Lemma low_clarify (x : float) : lt x f_0_70 = true -> determine_outcome x = "clarify".
Proof.
  intros Hlt. unfold determine_outcome.
  rewrite (lt_not_ge _ _ (lt_le_trans _ _ _ Hlt le_070_095)), (lt_not_ge _ _ Hlt).
  reflexivity.
Qed.

Lemma calculate_confidence_finish `{StrCase} (gaps : list Gap.t) (llm_critique : string) :
  calculate_confidence gaps llm_critique
  = finish (fold_left deduct gaps f_1_0) (penalty_of llm_critique).
Proof. reflexivity. Qed.

Lemma penalty_cases `{StrCase} (llm_critique : string) :
  (penalty_of llm_critique = f_0_0 /\ penalty_points llm_critique = 0%nat) \/
  (penalty_of llm_critique = f_0_10 /\ penalty_points llm_critique = 10%nat) \/
  (penalty_of llm_critique = f_0_20 /\ penalty_points llm_critique = 20%nat).
Proof.
  unfold penalty_of, penalty_points.
  destruct (str_in "catastrophic" (lower llm_critique)
            || str_in "critical failure" (lower llm_critique)); [auto|].
  destruct (str_in "major gap" (lower llm_critique)
            || str_in "serious" (lower llm_critique)); auto.
Qed.

Lemma light_outcome (c h m : nat) (penalty : float) (p : nat) :
  (points c h m <= 30)%nat ->
  In (penalty, p) [(f_0_0, 0%nat); (f_0_10, 10%nat); (f_0_20, 20%nat)] ->
  determine_outcome (finish (score_of c h m) penalty) = outcome_for c h m p.
Proof.
  intros Hle Hin. pose proof outcomes_checked_true as Hall.
  unfold outcomes_checked in Hall. rewrite forallb_forall in Hall.
  specialize (Hall _ (light_counts_spec c h m Hle)). cbn beta iota in Hall.
  rewrite forallb_forall in Hall. specialize (Hall _ Hin). cbn beta iota in Hall.
  apply String.eqb_eq in Hall. exact Hall.
Qed.

Lemma penalty_listed `{StrCase} (llm_critique : string) :
  In (penalty_of llm_critique, penalty_points llm_critique)
     [(f_0_0, 0%nat); (f_0_10, 10%nat); (f_0_20, 20%nat)].
Proof.
  destruct (penalty_cases llm_critique) as [[-> ->]|[[-> ->]|[-> ->]]]; simpl; auto.
Qed.

Lemma penalty_deductible `{StrCase} (llm_critique : string) :
  deductible (penalty_of llm_critique).
Proof.
  destruct literals_deductible as (D0 & _ & _ & D10 & D20).
  destruct (penalty_cases llm_critique) as [[-> _]|[[-> _]|[-> _]]]; assumption.
Qed.

(** The outcome is the one read off the counts. *)
Lemma outcome_closed_form `{StrCase} (gaps : list Gap.t) (llm_critique : string) :
  determine_outcome (calculate_confidence gaps llm_critique)
  = outcome_for (count "critical" gaps) (count "high" gaps) (count "medium" gaps)
      (penalty_points llm_critique).
Proof.
  rewrite calculate_confidence_finish.
  change (fold_left deduct gaps f_1_0) with (fold_left deduct gaps (score_of 0 0 0)).
  destruct (Nat.leb_spec
              (points (count "critical" gaps) (count "high" gaps) (count "medium" gaps)) 30)
    as [Hle|Hgt].
  - rewrite (fold_deduct_light gaps 0 0 0) by exact Hle. cbn [Nat.add].
    apply light_outcome; [exact Hle|apply penalty_listed].
  - rewrite low_clarify.
    + unfold outcome_for.
      destruct (Nat.leb_spec
        (points (count "critical" gaps) (count "high" gaps) (count "medium" gaps)
         + penalty_points llm_critique) 5); [lia|].
      destruct (Nat.leb_spec
        (points (count "critical" gaps) (count "high" gaps) (count "medium" gaps)
         + penalty_points llm_critique) 29); [lia|].
      destruct (Nat.eqb_spec
        (points (count "critical" gaps) (count "high" gaps) (count "medium" gaps)
         + penalty_points llm_critique) 30); [lia|].
      reflexivity.
    + apply finish_low.
      * apply fold_deduct_sound, score_of_sound.
      * apply penalty_deductible.
      * apply (fold_deduct_heavy gaps 0 0 0); [unfold points; lia|exact Hgt].
Qed.

(** X6. The outcome is a function of the numbers of critical, high and
    medium gaps and of the penalty tier of the critique.  With the
    deductions counted in hundredths (10, 5 and 2 per gap; 20, 10 or 0 for
    the critique), up to 5 points give "complete", 6 to 29 give "partial"
    and 31 or more give "clarify".  At exactly 30 points the rounding of
    the doubles decides: "partial" when at least 20 of the points come
    from critical gaps and the penalty, "clarify" otherwise, as for six
    high gaps. *)
Theorem outcome_by_counts `{StrCase} (gaps : list Gap.t) (llm_critique : string) :
  let c := count "critical" gaps in
  let h := count "high" gaps in
  let m := count "medium" gaps in
  let p := penalty_points llm_critique in
  let total := (10 * c + 5 * h + 2 * m + p)%nat in
  let outcome := determine_outcome (calculate_confidence gaps llm_critique) in
  outcome = outcome_for c h m p /\
  ((total <= 5)%nat -> outcome = "complete") /\
  ((6 <= total <= 29)%nat -> outcome = "partial") /\
  ((31 <= total)%nat -> outcome = "clarify") /\
  (total = 30%nat -> (20 <= 10 * c + p)%nat -> outcome = "partial") /\
  (total = 30%nat -> (10 * c + p < 20)%nat -> outcome = "clarify").
Proof.
  intros c h m p total outcome.
  assert (Hform : outcome = outcome_for c h m p) by apply outcome_closed_form.
  split; [exact Hform|]. rewrite Hform. unfold outcome_for, points. fold total.
  repeat split; intros.
  - destruct (Nat.leb_spec total 5); [reflexivity|lia].
  - destruct (Nat.leb_spec total 5); [lia|].
    destruct (Nat.leb_spec total 29); [reflexivity|lia].
  - destruct (Nat.leb_spec total 5); [lia|].
    destruct (Nat.leb_spec total 29); [lia|].
    destruct (Nat.eqb_spec total 30); [lia|reflexivity].
  - destruct (Nat.leb_spec total 5); [lia|].
    destruct (Nat.leb_spec total 29); [lia|].
    destruct (Nat.eqb_spec total 30); [|lia].
    destruct (Nat.leb_spec 20 (10 * c + p)); [reflexivity|lia].
  - destruct (Nat.leb_spec total 5); [lia|].
    destruct (Nat.leb_spec total 29); [lia|].
    destruct (Nat.eqb_spec total 30); [|lia].
    destruct (Nat.leb_spec 20 (10 * c + p)); [lia|reflexivity].
Qed.

Definition high_gap : Gap.t := Gap.Build "property" "occupancy" "d" "high" "q".

Lemma outcome_by_counts_witness :
  determine_outcome
    (@calculate_confidence ascii_case (repeat high_gap 6) "Nothing else to add.")
    = "clarify" /\
  determine_outcome
    (@calculate_confidence ascii_case (repeat critical_gap 3) "Nothing else to add.")
    = "partial".
Proof.
  pose proof (@outcome_by_counts ascii_case (repeat high_gap 6) "Nothing else to add.")
    as (_ & _ & _ & _ & _ & Hhigh).
  pose proof (@outcome_by_counts ascii_case (repeat critical_gap 3) "Nothing else to add.")
    as (_ & _ & _ & _ & Hcritical & _).
  split.
  - apply Hhigh; vm_compute; lia.
  - apply Hcritical; vm_compute; lia.
Defined.

Lemma count_perm (severity : string) (gaps gaps' : list Gap.t) :
  Permutation gaps gaps' -> count severity gaps = count severity gaps'.
Proof.
  unfold count. induction 1 as [|g l l' _ IH|g g' l|l l' l'' _ IH1 _ IH2]; cbn [List.filter].
  - reflexivity.
  - destruct (String.eqb _ _); cbn [length]; congruence.
  - destruct (String.eqb (Gap.severity g) severity),
             (String.eqb (Gap.severity g') severity); reflexivity.
  - congruence.
Qed.

(** X7. The order of the gaps does not matter: two gap lists that are
    permutations of each other get the same outcome and, when their
    deductions sum to at most 30 hundredths, the very same confidence. *)
Theorem confidence_order_independent `{StrCase} (gaps gaps' : list Gap.t)
    (llm_critique : string) :
  Permutation gaps gaps' ->
  determine_outcome (calculate_confidence gaps llm_critique)
  = determine_outcome (calculate_confidence gaps' llm_critique) /\
  ((10 * count "critical" gaps + 5 * count "high" gaps + 2 * count "medium" gaps <= 30)%nat ->
   calculate_confidence gaps llm_critique = calculate_confidence gaps' llm_critique).
Proof.
  intros Hperm.
  pose proof (count_perm "critical" _ _ Hperm) as Ec.
  pose proof (count_perm "high" _ _ Hperm) as Eh.
  pose proof (count_perm "medium" _ _ Hperm) as Em.
  split.
  - rewrite !outcome_closed_form, Ec, Eh, Em. reflexivity.
  - intros Hle. rewrite !calculate_confidence_finish.
    change (fold_left deduct gaps f_1_0) with (fold_left deduct gaps (score_of 0 0 0)).
    change (fold_left deduct gaps' f_1_0) with (fold_left deduct gaps' (score_of 0 0 0)).
    rewrite (fold_deduct_light gaps 0 0 0) by exact Hle.
    rewrite (fold_deduct_light gaps' 0 0 0)
      by (cbn [Nat.add]; rewrite <- Ec, <- Eh, <- Em; exact Hle).
    cbn [Nat.add]. rewrite Ec, Eh, Em. reflexivity.
Qed.

Lemma confidence_order_independent_witness :
  @calculate_confidence ascii_case [critical_gap; high_gap; critical_gap] "A serious gap"
  = @calculate_confidence ascii_case [high_gap; critical_gap; critical_gap] "A serious gap".
Proof.
  apply (@confidence_order_independent ascii_case
           [critical_gap; high_gap; critical_gap] [high_gap; critical_gap; critical_gap]).
  - apply perm_swap.
  - vm_compute. lia.
Defined.

(** How good an outcome is. *)
Definition outcome_rank (outcome : string) : nat :=
  if String.eqb outcome "complete" then 2
  else if String.eqb outcome "partial" then 1
  else 0.

Lemma count_insert (severity : string) (gaps1 gaps2 : list Gap.t) (gap : Gap.t) :
  count severity (gaps1 ++ gap :: gaps2)
  = ((if String.eqb (Gap.severity gap) severity then 1 else 0)
     + count severity (gaps1 ++ gaps2))%nat.
Proof.
  unfold count. rewrite !List.filter_app, !length_app. cbn [List.filter].
  destruct (String.eqb (Gap.severity gap) severity); cbn [length]; lia.
Qed.

Lemma outcome_for_antitone (c h m p c' h' m' p' : nat) :
  (c <= c')%nat -> (h <= h')%nat -> (m <= m')%nat -> (p <= p')%nat ->
  (outcome_rank (outcome_for c' h' m' p') <= outcome_rank (outcome_for c h m p))%nat.
Proof.
  intros Hc Hh Hm Hp. unfold outcome_for, points.
  repeat match goal with
  | |- context [(?a <=? ?b)%nat] => destruct (Nat.leb_spec a b)
  | |- context [(?a =? ?b)%nat] => destruct (Nat.eqb_spec a b)
  end; cbn [andb outcome_rank String.eqb Ascii.eqb Bool.eqb]; try lia.
Qed.

(** X8. One more gap, anywhere in the list and whatever its severity, never
    improves the outcome, where "complete" is better than "partial" and
    "partial" better than "clarify". *)
Theorem more_gaps_no_better_outcome `{StrCase} (gaps1 gaps2 : list Gap.t) (gap : Gap.t)
    (llm_critique : string) :
  (outcome_rank (determine_outcome
                   (calculate_confidence (gaps1 ++ gap :: gaps2) llm_critique))
   <= outcome_rank (determine_outcome
                      (calculate_confidence (gaps1 ++ gaps2) llm_critique)))%nat /\
  outcome_rank "complete" = 2%nat /\ outcome_rank "partial" = 1%nat /\
  outcome_rank "clarify" = 0%nat.
Proof.
  split; [|repeat split].
  rewrite !outcome_closed_form, !count_insert.
  apply outcome_for_antitone; lia.
Qed.

(** ** agents.py: how many questions, and which *)

Lemma sorted_split {A} (R : A -> A -> Prop) (l1 l2 : list A) :
  StronglySorted R (l1 ++ l2) ->
  forall a b, In a l1 -> In b l2 -> R a b.
Proof.
  induction l1 as [|x l1 IH]; cbn [app]; intros Hs a b Ha Hb; [destruct Ha|].
  apply StronglySorted_inv in Hs as [Hs Hx].
  destruct Ha as [<-|Ha].
  - rewrite List.Forall_forall in Hx. apply Hx, in_or_app. right. exact Hb.
  - apply IH; assumption.
Qed.

Lemma sorted_firstn {A} (R : A -> A -> Prop) (n : nat) (l : list A) :
  StronglySorted R l -> StronglySorted R (firstn n l).
Proof.
  intros Hs. revert n. induction Hs as [|x l Hs IH Hx]; intros [|n]; cbn [firstn];
    try constructor.
  - apply IH.
  - rewrite List.Forall_forall in *. intros y Hy. apply Hx.
    rewrite <- (firstn_skipn n l). apply in_or_app. left. exact Hy.
Qed.

Lemma sorted_map {A B} (R : A -> A -> Prop) (R' : B -> B -> Prop) (f : A -> B)
    (l : list A) :
  (forall a b, R a b -> R' (f a) (f b)) ->
  StronglySorted R l -> StronglySorted R' (map f l).
Proof.
  intros Hf. induction 1 as [|x l Hs IH Hx]; cbn [map]; constructor; [exact IH|].
  rewrite List.Forall_forall in *. intros y Hy.
  apply in_map_iff in Hy as (a & <- & Ha). apply Hf, Hx, Ha.
Qed.

(** The gaps behind the questions: a prefix of the sorted gaps. *)
Lemma slice_to_prefix {A} (l : list A) (stop : Z) :
  exists n, slice_to l stop = firstn n l.
Proof. unfold slice_to. destruct (0 <=? stop); eauto. Qed.

(** X9. The number of questions, for every [max_questions]: the smaller of
    [max_questions] and the number of gaps when [max_questions] is not
    negative, and the number of gaps plus [max_questions], or 0 if that is
    negative, otherwise.  No gaps give no questions, and so does
    [max_questions = 0]. *)
Theorem generate_questions_length (gaps : list Gap.t) (max_questions : Z) :
  Z.of_nat (length (generate_questions gaps max_questions))
  = (if 0 <=? max_questions
     then Z.min max_questions (Z.of_nat (length gaps))
     else Z.max 0 (Z.of_nat (length gaps) + max_questions)) /\
  generate_questions [] max_questions = [] /\
  generate_questions gaps 0 = [].
Proof.
  split; [|split].
  - rewrite generate_questions_map, length_map. unfold slice_to.
    rewrite <- (Permutation_length (sorted_perm gap_rank gaps)).
    destruct (Z.leb_spec 0 max_questions); rewrite length_firstn; lia.
  - rewrite generate_questions_map. unfold slice_to. cbn [sorted length].
    destruct (0 <=? max_questions); rewrite firstn_nil; reflexivity.
  - rewrite generate_questions_map. reflexivity.
Qed.

(** X10. The questions come in ascending severity rank, and the cut never
    drops a gap in favour of a less severe one: when a question is
    emitted, the question of every gap of a strictly smaller rank is
    emitted too. *)
Theorem generate_questions_priority (gaps : list Gap.t) (max_questions : Z) :
  StronglySorted
    (fun a b => severity_rank (Question.severity a) <= severity_rank (Question.severity b))
    (generate_questions gaps max_questions) /\
  forall q g,
    In q (generate_questions gaps max_questions) ->
    In g gaps ->
    severity_rank (Gap.severity g) < severity_rank (Question.severity q) ->
    In (question_of g) (generate_questions gaps max_questions).
Proof.
  rewrite generate_questions_map.
  destruct (slice_to_prefix (sorted gap_rank gaps) max_questions) as [n ->].
  pose proof (sorted_sorted gap_rank gaps) as Hs.
  split.
  - apply (sorted_map (key_le gap_rank)); [intros a b Hab; exact Hab|].
    apply sorted_firstn, Hs.
  - intros q g Hq Hg Hlt.
    apply in_map_iff in Hq as (g0 & <- & Hg0). cbn [question_of Question.severity] in Hlt.
    apply in_map.
    assert (Hin : In g (sorted gap_rank gaps))
      by (eapply Permutation_in; [symmetry; apply sorted_perm|exact Hg]).
    rewrite <- (firstn_skipn n (sorted gap_rank gaps)) in Hin, Hs.
    apply in_app_or in Hin as [Hin|Hin]; [exact Hin|].
    pose proof (sorted_split _ _ _ Hs g0 g Hg0 Hin) as Hle.
    unfold key_le, gap_rank in Hle. lia.
Qed.

Lemma generate_questions_priority_witness :
  In (question_of (Gap.Build "compliance" "trid_timing" "d3" "critical" "q3"))
     (generate_questions
        [ Gap.Build "borrower" "reserves" "d1" "medium" "q1";
          Gap.Build "property" "occupancy" "d2" "high" "q2";
          Gap.Build "compliance" "trid_timing" "d3" "critical" "q3" ] 2).
Proof.
  destruct (generate_questions_priority
              [ Gap.Build "borrower" "reserves" "d1" "medium" "q1";
                Gap.Build "property" "occupancy" "d2" "high" "q2";
                Gap.Build "compliance" "trid_timing" "d3" "critical" "q3" ] 2)
    as [_ Hprio].
  apply (Hprio (Question.Build "q2" "high" "property")).
  - vm_compute. auto.
  - simpl. auto.
  - vm_compute. reflexivity.
Defined.

(** ** checklists.py: the shape of a classification *)

Definition loan_tags : list string :=
  ["FHA"; "VA"; "USDA"; "Conventional"; "Jumbo"; "Reverse"].

Lemma detected_sublist `{StrCase} (text : string) :
  sublist (LoanClassification.all_detected (detect_loan_type text)) loan_tags.
Proof.
  rewrite detect_all_detected.
  change loan_tags with (map fst LOAN_TYPE_TRIGGERS).
  apply map_sublist, filter_sublist.
Qed.

Lemma primary_head `{StrCase} (text : string) :
  LoanClassification.primary_type (detect_loan_type text)
  = match LoanClassification.all_detected (detect_loan_type text) with
    | first :: _ => first
    | [] => "Conventional"
    end.
Proof. reflexivity. Qed.

(** X11. [all_detected] is a sub-sequence of the six tags in their declared
    order, so it has no duplicates and at most six entries;
    [primary_type] is always one of the six tags, and it is among
    [all_detected] unless nothing is detected. *)
Theorem detect_loan_type_shape `{StrCase} (text : string) :
  let r := detect_loan_type text in
  sublist (LoanClassification.all_detected r) loan_tags /\
  NoDup (LoanClassification.all_detected r) /\
  (length (LoanClassification.all_detected r) <= 6)%nat /\
  In (LoanClassification.primary_type r) loan_tags /\
  (LoanClassification.all_detected r = [] \/
   In (LoanClassification.primary_type r) (LoanClassification.all_detected r)).
Proof.
  intros r. subst r. pose proof (detected_sublist text) as Hsub.
  split; [exact Hsub|]. split; [|split; [|split]].
  - eapply sublist_NoDup; [|exact Hsub].
    apply (@bool_decide_unpack _ (NoDup_dec _)); vm_compute; exact I.
  - apply sublist_length in Hsub. exact Hsub.
  - rewrite primary_head.
    destruct (LoanClassification.all_detected (detect_loan_type text)) as [|first rest].
    + simpl. auto.
    + apply (sublist_In _ _ _ Hsub). left. reflexivity.
  - rewrite primary_head.
    destruct (LoanClassification.all_detected (detect_loan_type text)) as [|first rest].
    + left. reflexivity.
    + right. left. reflexivity.
Qed.

(** *** Which checklist a text gets *)

Lemma filter_cons_true {A} (p : A -> bool) (x : A) (l : list A) :
  p x = true -> List.filter p (x :: l) = x :: List.filter p l.
Proof. intros Hp. simpl. rewrite Hp. reflexivity. Qed.

Lemma filter_cons_false {A} (p : A -> bool) (x : A) (l : list A) :
  p x = false -> List.filter p (x :: l) = List.filter p l.
Proof. intros Hp. simpl. rewrite Hp. reflexivity. Qed.

Definition fha_triggers : list string :=
  ["fha"; "federal housing"; "hud"; "mip"; "upfront mip"; "203b"; "203k"].
Definition va_triggers : list string :=
  ["va"; "veteran"; "military"; "certificate of eligibility"; "coe"; "funding fee"].

Lemma tag_after_va `{StrCase} (text : string) (tag : string) :
  In tag (map fst (List.filter (entry_matches (lower text))
                     (skipn 2 LOAN_TYPE_TRIGGERS))) ->
  tag <> "FHA" /\ tag <> "VA".
Proof.
  intros Hin. apply in_map_iff in Hin as ([tag' triggers] & <- & Hin).
  apply List.filter_In in Hin as [Hin _]. cbn [skipn LOAN_TYPE_TRIGGERS] in Hin.
  simpl in Hin.
  repeat (destruct Hin as [[= <- _]|Hin]; [split; discriminate|]). destruct Hin.
Qed.

(** X12. The checklist resolved for the primary type detected in a text is
    the table followed by "fha_specific" when an FHA trigger occurs in the
    lower-cased text; otherwise the table followed by "va_specific" when a
    VA trigger occurs; otherwise the table alone.  A text with triggers of
    both kinds gets the FHA items only. *)
Theorem checklist_of_detected `{StrCase} (text : string) :
  let fha := any (fun trigger => str_in trigger (lower text)) fha_triggers in
  let va := any (fun trigger => str_in trigger (lower text)) va_triggers in
  checklist_bindings (LoanClassification.primary_type (detect_loan_type text))
  = if fha then CHECKLIST_literal ++ [("fha_specific", fha_specific_items)]
    else if va then CHECKLIST_literal ++ [("va_specific", va_specific_items)]
    else CHECKLIST_literal.
Proof.
  intros fha va.
  unfold checklist_bindings.
  rewrite (get_checklist_run _ module_store CHECKLIST_literal) by apply lookup_singleton_eq.
  rewrite lookup_insert_eq. cbn [default].
  rewrite primary_head, detect_all_detected.
  change LOAN_TYPE_TRIGGERS
    with (("FHA", fha_triggers) :: ("VA", va_triggers) :: skipn 2 LOAN_TYPE_TRIGGERS).
  change (any (fun trigger => str_in trigger (lower text)) fha_triggers)
    with (entry_matches (lower text) ("FHA", fha_triggers)) in fha.
  change (any (fun trigger => str_in trigger (lower text)) va_triggers)
    with (entry_matches (lower text) ("VA", va_triggers)) in va.
  subst fha va.
  destruct (entry_matches (lower text) ("FHA", fha_triggers)) eqn:Hf.
  - rewrite filter_cons_true by exact Hf. reflexivity.
  - rewrite filter_cons_false by exact Hf.
    destruct (entry_matches (lower text) ("VA", va_triggers)) eqn:Hv.
    + rewrite filter_cons_true by exact Hv. reflexivity.
    + rewrite filter_cons_false by exact Hv.
      pose proof (tag_after_va text) as Hafter.
      destruct (map fst (List.filter (entry_matches (lower text))
                           (skipn 2 LOAN_TYPE_TRIGGERS))) as [|first rest].
      * reflexivity.
      * destruct (Hafter first (or_introl eq_refl)) as [Hn1 Hn2].
        unfold extended. cbn [map fst].
        destruct (String.eqb_spec first "FHA"); [contradiction|].
        destruct (String.eqb_spec first "VA"); [contradiction|reflexivity].
Qed.

(** ** checklists.py and main.py: the tags of a refined text *)

Lemma append_assoc (a b c : string) : (a +:+ b) +:+ c = a +:+ (b +:+ c).
Proof. induction a as [|x a IH]; [reflexivity|]. rewrite !append_cons, IH. reflexivity. Qed.

Lemma append_empty_r (a : string) : a +:+ "" = a.
Proof. induction a as [|x a IH]; [reflexivity|]. rewrite append_cons, IH. reflexivity. Qed.

Lemma str_in_app (needle hay extra : string) :
  str_in needle hay = true -> str_in needle (hay +:+ extra) = true.
Proof.
  rewrite !str_in_spec. intros (a & b & ->). exists a, (b +:+ extra).
  rewrite !append_assoc. reflexivity.
Qed.

(** Tags detected in a text are detected in any text that extends it, as
    long as lower-casing commutes with the extension. *)
Lemma detected_app `{StrCase} (text extra tag : string) :
  lower (text +:+ extra) = lower text +:+ lower extra ->
  In tag (LoanClassification.all_detected (detect_loan_type text)) ->
  In tag (LoanClassification.all_detected (detect_loan_type (text +:+ extra))).
Proof.
  intros Hlower. rewrite !detect_all_detected, !in_map_iff.
  intros (entry & <- & Hin). exists entry. split; [reflexivity|].
  apply List.filter_In in Hin as [Hin Hm]. apply List.filter_In. split; [exact Hin|].
  apply entry_matches_spec in Hm as (trigger & Ht & Hs).
  apply entry_matches_spec. exists trigger. split; [exact Ht|].
  rewrite Hlower. apply str_in_app, Hs.
Qed.

(** X13. [reject_and_refine] submits the stored requirements (the empty
    string when there are none), two newlines, "Additional context: " and
    the feedback.  When lower-casing commutes with that concatenation,
    every tag detected in the stored text is detected in the refined text;
    new tags may appear, and with them the primary type may change. *)
Theorem refinement_keeps_tags `{StrCase} (values : State.t) (feedback : string) :
  let old := State.get (State.raw_requirements values) "" in
  let context := nl +:+ nl +:+ "Additional context: " +:+ feedback in
  lower (old +:+ context) = lower old +:+ lower context ->
  State.raw_requirements (reject_input values feedback) = Some (old +:+ context) /\
  forall tag,
    In tag (LoanClassification.all_detected (detect_loan_type old)) ->
    In tag (LoanClassification.all_detected (detect_loan_type (old +:+ context))).
Proof.
  intros old context Hlower. split; [reflexivity|].
  intros tag. apply detected_app, Hlower.
Qed.

Lemma refinement_keeps_tags_witness :
  In "USDA"
     (LoanClassification.all_detected
        (@detect_loan_type ascii_case
           ("A USDA rural housing loan" +:+ nl +:+ nl +:+ "Additional context: "
              +:+ "the borrower is a Veteran"))).
Proof.
  destruct (@refinement_keeps_tags ascii_case
              {| State.raw_requirements := Some "A USDA rural housing loan";
                 State.author_output := None; State.critic_output := None;
                 State.confidence := None; State.outcome := None;
                 State.questions := None; State.human_feedback := None;
                 State.iteration := Some 1; State.approved := None |}
              "the borrower is a Veteran") as [_ Hkeep].
  - reflexivity.
  - apply Hkeep. vm_compute. auto.
Defined.

(** ** main.py: when the nodes fail *)

(** X14. [author_node] raises exactly when [raw_requirements] is missing (a
    [KeyError]) or the author chain raises.  [critic_node] raises exactly
    when [author_output] is missing (a [KeyError]) or the critic chain
    raises: a failure of the language model or of the JSON parser during
    the gap check never aborts it.  [gate_node] returns the empty update. *)
Theorem node_failures `{StrCase} `{Backend} (state : State.t) (e : exn) :
  (author_node state = Raise e <->
   (State.raw_requirements state = None /\ e = Exception "KeyError") \/
   (exists raw,
       State.raw_requirements state = Some raw /\
       author_chain (LoanClassification.primary_type (detect_loan_type raw)) raw
       = Raise e)) /\
  (critic_node state = Raise e <->
   (State.author_output state = None /\ e = Exception "KeyError") \/
   (exists author_output gaps,
       State.author_output state = Some author_output /\
       check_against_checklist author_output = Ok gaps /\
       critic_chain (map Gap.description gaps)
         (AuthorOutput.structured_requirements author_output) = Raise e)) /\
  gate_node state = Ok State.empty.
Proof.
  split; [|split; [|reflexivity]].
  - unfold author_node, extract.
    destruct (State.raw_requirements state) as [raw|].
    + destruct (author_chain _ raw) as [content|e'] eqn:Hc; cbn [exc_bind]; split.
      * discriminate.
      * intros [[[=] _]|(raw' & [= <-] & Hr)]. congruence.
      * intros [= ->]. right. exists raw. auto.
      * intros [[[=] _]|(raw' & [= <-] & Hr)]. congruence.
    + split.
      * intros [= <-]. left. auto.
      * intros [[_ ->]|(raw & [=] & _)]. reflexivity.
  - unfold critic_node.
    destruct (State.author_output state) as [author_output|].
    + destruct (check_items_returns
                  (AuthorOutput.structured_requirements author_output)
                  (checklist_bindings
                     (LoanClassification.primary_type
                        (AuthorOutput.loan_classification author_output))))
        as [gaps Hgaps].
      change (check_against_checklist author_output = Ok gaps) in Hgaps.
      rewrite Hgaps. cbn [exc_bind]. unfold critique.
      destruct (critic_chain _ _) as [content|e'] eqn:Hc; cbn [exc_bind]; split.
      * discriminate.
      * intros [[[=] _]|(ao & gaps' & [= <-] & Hg & Hr)].
        rewrite Hgaps in Hg. injection Hg as <-. congruence.
      * intros [= ->]. right. exists author_output, gaps. auto.
      * intros [[[=] _]|(ao & gaps' & [= <-] & Hg & Hr)].
        rewrite Hgaps in Hg. injection Hg as <-. congruence.
    + split.
      * intros [= <-]. left. auto.
      * intros [[_ ->]|(ao & gaps & [=] & _)]. reflexivity.
Qed.

(** ** main.py: what every state of a run satisfies *)

(** The analysis fields are those of one critic pass: confidence, outcome
    and questions are computed from the stored critic output, or none of
    the four is set. *)
Definition analysed `{StrCase} (s : State.t) : Prop :=
  match State.critic_output s with
  | Some critique =>
      let gaps := CriticOutput.checklist_gaps critique in
      let confidence := calculate_confidence gaps (CriticOutput.llm_critique critique) in
      State.confidence s = Some confidence /\
      State.outcome s = Some (determine_outcome confidence) /\
      State.questions s = Some (generate_questions gaps default_max_questions)
  | None =>
      State.confidence s = None /\ State.outcome s = None /\ State.questions s = None
  end.

Lemma analysed_frame `{StrCase} (s s' : State.t) :
  State.critic_output s' = State.critic_output s ->
  State.confidence s' = State.confidence s ->
  State.outcome s' = State.outcome s ->
  State.questions s' = State.questions s ->
  analysed s -> analysed s'.
Proof. unfold analysed. intros -> -> -> ->. auto. Qed.

Lemma author_node_frame `{StrCase} `{Backend} (s u : State.t) :
  author_node s = Ok u ->
  State.raw_requirements u = None /\ State.critic_output u = None /\
  State.confidence u = None /\ State.outcome u = None /\ State.questions u = None.
Proof.
  unfold author_node. destruct (State.raw_requirements s); [|discriminate].
  destruct (extract _); simpl; [|discriminate].
  intros [= <-]. repeat split.
Qed.

Lemma decision_input_frame (d : decision) (s : State.t) :
  State.critic_output (decision_input d s) = None /\
  State.confidence (decision_input d s) = None /\
  State.outcome (decision_input d s) = None /\
  State.questions (decision_input d s) = None.
Proof. destruct d; repeat split. Qed.

Lemma critic_node_analysed `{StrCase} `{Backend} (s u : State.t) :
  critic_node s = Ok u -> analysed (State.update s u).
Proof.
  unfold critic_node. destruct (State.author_output s); [|discriminate].
  destruct (check_against_checklist _) as [gaps|]; cbn [exc_bind]; [|discriminate].
  unfold critique.
  destruct (critic_chain _ _) as [content|]; cbn [exc_bind]; [|discriminate].
  intros [= <-]. unfold analysed. cbn. repeat split.
Qed.

Lemma step_analysed `{StrCase} (c c' : config) :
  step c c' -> analysed (snd c) -> analysed (snd c').
Proof.
  intros Hstep. destruct Hstep as [B s u Hu|B s u Hu|d s s' u -> Hu|d s]; cbn [snd].
  - apply author_node_frame in Hu as (_ & H1 & H2 & H3 & H4).
    apply analysed_frame; unfold State.update; cbn; rewrite ?H1, ?H2, ?H3, ?H4; reflexivity.
  - intros _. eapply critic_node_analysed. exact Hu.
  - injection Hu as <-. rewrite update_empty.
    destruct (decision_input_frame d s) as (H1 & H2 & H3 & H4).
    apply analysed_frame; unfold State.update; cbn; rewrite ?H1, ?H2, ?H3, ?H4; reflexivity.
  - destruct (decision_input_frame d s) as (H1 & H2 & H3 & H4).
    apply analysed_frame; unfold State.update; cbn; rewrite ?H1, ?H2, ?H3, ?H4; reflexivity.
Qed.

Lemma outcome_listed (confidence : float) :
  In (determine_outcome confidence) ["complete"; "partial"; "clarify"].
Proof.
  unfold determine_outcome.
  destruct (ge confidence f_0_95); [simpl; auto|].
  destruct (ge confidence f_0_70); simpl; auto.
Qed.

(** X15. Along every run the analysis fields stay those of one critic pass:
    confidence, outcome and questions are the ones computed from the
    stored critic output, or none of the four is set.  Hence a stored
    outcome is "complete", "partial" or "clarify", a stored confidence
    lies in [0, 1], and at most five questions are stored. *)
Theorem analysis_fields_consistent `{StrCase} (n : nat) (c c' : config) :
  nsteps step n c c' ->
  analysed (snd c) ->
  analysed (snd c') /\
  (forall outcome, State.outcome (snd c') = Some outcome ->
     In outcome ["complete"; "partial"; "clarify"]) /\
  (forall confidence, State.confidence (snd c') = Some confidence ->
     le f_0_0 confidence = true /\ le confidence f_1_0 = true) /\
  (forall questions, State.questions (snd c') = Some questions ->
     (length questions <= 5)%nat).
Proof.
  intros Hrun Hc.
  assert (Hc' : analysed (snd c')).
  { induction Hrun as [c|n c c1 c' Hstep _ IH]; [exact Hc|].
    apply IH. eapply step_analysed; [exact Hstep|exact Hc]. }
  split; [exact Hc'|]. unfold analysed in Hc'.
  destruct (State.critic_output (snd c')) as [critique|].
  - destruct Hc' as (Hconf & Hout & Hq). rewrite Hconf, Hout, Hq.
    split; [|split].
    + intros outcome [= <-]. apply outcome_listed.
    + intros confidence [= <-]. rewrite calculate_confidence_clamp. apply clamp_range.
    + intros questions [= <-]. rewrite generate_questions_map, length_map.
      unfold slice_to, default_max_questions. simpl. rewrite length_firstn. lia.
  - destruct Hc' as (Hconf & Hout & Hq). rewrite Hconf, Hout, Hq.
    split; [|split]; discriminate.
Qed.

Lemma analysis_fields_consistent_witness :
  exists c',
    nsteps (@step ascii_case) 2 (At author, analysis_input "A jumbo loan product") c' /\
    State.outcome (snd c') = Some "clarify" /\
    In "clarify" ["complete"; "partial"; "clarify"].
Proof.
  destruct (@run_from_author ascii_case backend_down
              (analysis_input "A jumbo loan product")) as [cp [s'|e]] eqn:Hrun;
    [|vm_compute in Hrun; discriminate].
  destruct (@run_from_author_steps ascii_case backend_down _ _ _ Hrun)
    as (s1 & Hauthor & Hcritic & _).
  assert (Hsteps : nsteps (@step ascii_case) 2
                     (At author, analysis_input "A jumbo loan product")
                     (Checkpoint.next cp, s'))
    by (eapply nsteps_l; [exact Hauthor|]; eapply nsteps_l; [exact Hcritic|];
        apply nsteps_O).
  assert (Hout : State.outcome s' = Some "clarify")
    by (vm_compute in Hrun; injection Hrun as _ <-; reflexivity).
  exists (Checkpoint.next cp, s'). split; [exact Hsteps|]. split; [exact Hout|].
  destruct (@analysis_fields_consistent ascii_case 2 _ _ Hsteps) as (_ & Hlisted & _).
  - vm_compute. auto.
  - apply Hlisted. exact Hout.
Defined.

(** ** main.py: every run ends *)

(** The transitions a configuration still allows. *)
Definition steps_left (c : config) : Z :=
  match fst c with
  | At author => 3 * Z.max 1 (3 - iteration_of (snd c)) - 1
  | At critic => 3 * Z.max 1 (3 - iteration_of (snd c)) - 2
  | At gate => 3 * Z.max 1 (3 - iteration_of (snd c))
  | Finished _ => 0
  end.

Lemma step_steps_left `{StrCase} (c c' : config) :
  step c c' -> steps_left c' + 1 <= steps_left c.
Proof.
  intros Hstep. destruct Hstep as [B s u Hu|B s u Hu|d s s' u -> Hu|d s].
  - apply author_node_writes in Hu as [Hi _].
    unfold steps_left, iteration_of, State.update. simpl.
    rewrite Hi. simpl. lia.
  - apply critic_node_writes in Hu as [Hi _].
    assert (Hit : iteration_of (State.update s u) = iteration_of s + 1).
    { unfold iteration_of at 1. unfold State.update. simpl. rewrite Hi. reflexivity. }
    unfold steps_left.
    destruct (after_critic_cases (State.update s u))
      as [[_ ->]|[(_ & _ & ->)|[(_ & _ & _ & ->)|(_ & Hlt & _ & ->)]]];
      simpl; lia.
  - injection Hu as <-. rewrite update_empty.
    assert (Hit : iteration_of (State.update s (decision_input d s)) = iteration_of s).
    { unfold iteration_of, State.update. simpl.
      rewrite decision_input_writes. reflexivity. }
    unfold steps_left.
    destruct (after_gate_cases (State.update s (decision_input d s))) as [->| ->];
      simpl; lia.
  - unfold steps_left, iteration_of, State.update. simpl.
    rewrite decision_input_writes. simpl. lia.
Qed.

Lemma steps_left_nonneg (c : config) : 0 <= steps_left c.
Proof. unfold steps_left. destruct (fst c) as [[]|]; lia. Qed.

Lemma nsteps_steps_left `{StrCase} (n : nat) (c c' : config) :
  nsteps step n c c' -> Z.of_nat n + steps_left c' <= steps_left c.
Proof.
  induction 1 as [c|n c c1 c' Hstep _ IH]; [lia|].
  apply step_steps_left in Hstep. lia.
Qed.

(** X16. Every run ends: each transition lowers a measure of the
    configuration, which bounds the length of every run.  A run from the
    input of [run_analysis] has at most 8 transitions (three passes of
    author and critic around two visits of the gate), and a run resumed at
    the gate with the iteration counter at 2 has at most 3. *)
Theorem workflow_terminates `{StrCase} :
  (forall n c c', nsteps step n c c' -> Z.of_nat n <= steps_left c) /\
  (forall n values requirements c',
      nsteps step n (At author, State.update values (analysis_input requirements)) c' ->
      (n <= 8)%nat) /\
  (forall n s c',
      nsteps step n (At gate, s) c' ->
      iteration_of s = 2 -> (n <= 3)%nat).
Proof.
  split; [|split].
  - intros n c c' Hrun. apply nsteps_steps_left in Hrun.
    pose proof (steps_left_nonneg c'). lia.
  - intros n values requirements c' Hrun. apply nsteps_steps_left in Hrun.
    pose proof (steps_left_nonneg c').
    unfold steps_left in Hrun at 2. unfold iteration_of in Hrun. simpl in Hrun. lia.
  - intros n s c' Hrun Hit. apply nsteps_steps_left in Hrun.
    pose proof (steps_left_nonneg c').
    unfold steps_left in Hrun at 2. simpl in Hrun. lia.
Qed.

(** The interpreter again, counting every transition. *)
Fixpoint drive `{StrCase} (B : Backend) (fuel : nat) (decisions : list decision)
    (c : config) : nat * config :=
  match fuel with
  | O => (O, c)
  | S fuel =>
      match c with
      | (At author, s) =>
          match author_node s with
          | Ok u =>
              let '(n, c') :=
                drive B fuel decisions (position_of "" author_edge, State.update s u) in
              (S n, c')
          | Raise _ => (O, c)
          end
      | (At critic, s) =>
          match critic_node s with
          | Ok u =>
              let '(n, c') :=
                drive B fuel decisions
                  (after_critic (State.update s u), State.update s u) in
              (S n, c')
          | Raise _ => (O, c)
          end
      | (At gate, s) =>
          match decisions with
          | d :: rest =>
              let s' := State.update s (decision_input d s) in
              let '(n, c') :=
                drive B fuel rest (after_gate (State.update s' State.empty),
                                   State.update s' State.empty) in
              (S n, c')
          | [] => (O, c)
          end
      | (Finished _, _) => (O, c)
      end
  end.

Lemma drive_nsteps `{StrCase} (B : Backend) (fuel : nat) (decisions : list decision)
    (c : config) :
  nsteps step (fst (drive B fuel decisions c)) c (snd (drive B fuel decisions c)).
Proof.
  revert decisions c. induction fuel as [|fuel IH]; intros decisions [p s]; simpl.
  - constructor.
  - destruct p as [[| |]|reason].
    + destruct (author_node s) as [u|e] eqn:Hu; [|constructor].
      specialize (IH decisions (position_of "" author_edge, State.update s u)).
      destruct (drive B fuel decisions _) as [n c']. simpl in *.
      eapply nsteps_l; [exact (step_author B s u Hu)|exact IH].
    + destruct (critic_node s) as [u|e] eqn:Hu; [|constructor].
      specialize (IH decisions (after_critic (State.update s u), State.update s u)).
      destruct (drive B fuel decisions _) as [n c']. simpl in *.
      eapply nsteps_l; [exact (step_critic B s u Hu)|exact IH].
    + destruct decisions as [|d rest]; [constructor|].
      specialize (IH rest (after_gate
                             (State.update (State.update s (decision_input d s)) State.empty),
                           State.update (State.update s (decision_input d s)) State.empty)).
      destruct (drive B fuel rest _) as [n c']. simpl in *.
      eapply nsteps_l; [|exact IH].
      eapply step_gate; reflexivity.
    + constructor.
Qed.

Lemma workflow_terminates_witness :
  let r := @drive ascii_case backend_down 20 [Reject "more detail"; Reject "even more"]
             (At author, analysis_input "A jumbo loan product") in
  fst r = 8%nat /\ fst (snd r) = Finished "escalate" /\ (fst r <= 8)%nat.
Proof.
  intros r. split; [vm_compute; reflexivity|]. split; [vm_compute; reflexivity|].
  destruct (@workflow_terminates ascii_case) as (_ & Hbound & _).
  apply (Hbound (fst r) State.empty "A jumbo loan product" (snd r)).
  apply (@drive_nsteps ascii_case backend_down).
Defined.

(** ** main.py: the requirements text of a thread *)

Definition requirements_of (s : State.t) : string :=
  State.get (State.raw_requirements s) "".

Lemma critic_node_frame `{StrCase} `{Backend} (s u : State.t) :
  critic_node s = Ok u -> State.raw_requirements u = None.
Proof.
  unfold critic_node. destruct (State.author_output s); [|discriminate].
  destruct (check_against_checklist _); simpl; [|discriminate].
  destruct (critique _ _); simpl; [|discriminate].
  intros [= <-]. reflexivity.
Qed.

Lemma decision_requirements (d : decision) (s : State.t) :
  exists added,
    requirements_of (State.update s (decision_input d s))
    = requirements_of s +:+ added.
Proof.
  destruct d as [feedback|feedback].
  - exists "". rewrite append_empty_r. reflexivity.
  - exists (nl +:+ nl +:+ "Additional context: " +:+ feedback). reflexivity.
Qed.

Lemma step_requirements `{StrCase} (c c' : config) :
  step c c' ->
  exists added, requirements_of (snd c') = requirements_of (snd c) +:+ added.
Proof.
  intros Hstep. destruct Hstep as [B s u Hu|B s u Hu|d s s' u -> Hu|d s]; cbn [snd].
  - apply author_node_frame in Hu as (Hr & _). exists "".
    unfold requirements_of, State.update. cbn. rewrite Hr, append_empty_r. reflexivity.
  - apply critic_node_frame in Hu. exists "".
    unfold requirements_of, State.update. cbn. rewrite Hu, append_empty_r. reflexivity.
  - injection Hu as <-. rewrite update_empty. apply decision_requirements.
  - apply decision_requirements.
Qed.

(** X17. No transition rewrites or drops the requirements text: after any
    number of transitions the stored text is the text the run started
    from, followed by what the rejections added. *)
Theorem requirements_only_grow `{StrCase} (n : nat) (c c' : config) :
  nsteps step n c c' ->
  exists added, requirements_of (snd c') = requirements_of (snd c) +:+ added.
Proof.
  induction 1 as [c|n c c1 c' Hstep _ IH].
  - exists "". rewrite append_empty_r. reflexivity.
  - destruct (step_requirements _ _ Hstep) as [a1 H1]. destruct IH as [a2 H2].
    exists (a1 +:+ a2). rewrite H2, H1, append_assoc. reflexivity.
Qed.

Lemma requirements_only_grow_witness :
  exists added,
    requirements_of
      (snd (snd (@drive ascii_case backend_down 20 [Reject "more detail"; Reject "even more"]
                   (At author, analysis_input "A jumbo loan product"))))
    = "A jumbo loan product" +:+ added.
Proof.
  apply (@requirements_only_grow ascii_case
           (fst (@drive ascii_case backend_down 20
                   [Reject "more detail"; Reject "even more"]
                   (At author, analysis_input "A jumbo loan product")))
           (At author, analysis_input "A jumbo loan product")).
  apply (@drive_nsteps ascii_case backend_down).
Defined.

(** ** main.py: one pass of author and critic *)

(** What a pass that returns has computed and stored. *)
Lemma run_from_author_ok `{StrCase} `{Backend} (s s' : State.t) (cp : Checkpoint.t) :
  run_from_author s = (cp, Ok s') ->
  exists raw author_output critic_output,
    State.raw_requirements s = Some raw /\
    extract raw = Ok author_output /\
    check_against_checklist author_output
      = Ok (CriticOutput.checklist_gaps critic_output) /\
    critique author_output (CriticOutput.checklist_gaps critic_output)
      = Ok critic_output /\
    s' = {| State.raw_requirements := Some raw;
            State.author_output := Some author_output;
            State.critic_output := Some critic_output;
            State.confidence :=
              Some (calculate_confidence (CriticOutput.checklist_gaps critic_output)
                      (CriticOutput.llm_critique critic_output));
            State.outcome :=
              Some (determine_outcome
                      (calculate_confidence (CriticOutput.checklist_gaps critic_output)
                         (CriticOutput.llm_critique critic_output)));
            State.questions :=
              Some (generate_questions (CriticOutput.checklist_gaps critic_output)
                      default_max_questions);
            State.human_feedback := State.human_feedback s;
            State.iteration := Some (State.get (State.iteration s) 0 + 1);
            State.approved := State.approved s |} /\
    cp = Checkpoint.Build s' (after_critic s').
Proof.
  unfold run_from_author, author_node.
  destruct (State.raw_requirements s) as [raw|] eqn:Hraw; [|discriminate].
  destruct (extract raw) as [author_output|] eqn:Hex; cbn [exc_bind]; [|discriminate].
  unfold critic_node. cbn [State.update State.author_output State.over].
  destruct (check_against_checklist author_output) as [gaps|] eqn:Hgaps;
    cbn [exc_bind]; [|discriminate].
  destruct (critique author_output gaps) as [critic_output|] eqn:Hcr;
    cbn [exc_bind]; [|discriminate].
  assert (Hg : CriticOutput.checklist_gaps critic_output = gaps).
  { unfold critique in Hcr. destruct (critic_chain _ _); cbn [exc_bind] in Hcr;
      [|discriminate]. injection Hcr as <-. reflexivity. }
  intros [= <- <-]. exists raw, author_output, critic_output.
  rewrite Hg. split; [reflexivity|]. split; [exact Hex|]. split; [exact Hgaps|].
  split; [exact Hcr|].
  unfold State.update, State.over. cbn. rewrite Hraw. split; reflexivity.
Qed.

Lemma outcome_not_unknown (confidence : float) :
  determine_outcome confidence <> "unknown".
Proof.
  unfold determine_outcome.
  destruct (ge confidence f_0_95); [discriminate|].
  destruct (ge confidence f_0_70); discriminate.
Qed.

Lemma after_critic_unapproved (s : State.t) (outcome : string) :
  State.get (State.approved s) false = false ->
  State.get (State.iteration s) 0 < 3 ->
  State.outcome s = Some outcome ->
  after_critic s
  = if String.eqb outcome "complete" then Finished "end" else At gate.
Proof.
  intros Ha Hi Ho. unfold after_critic, should_continue. rewrite Ha, Ho.
  destruct (Z.geb_spec (State.get (State.iteration s) 0) 3) as [Hge|_]; [lia|].
  cbn [State.get].
  destruct (String.eqb outcome "complete"); [reflexivity|].
  destruct (String.eqb outcome "partial"); reflexivity.
Qed.

Lemma run_analysis_unknown `{StrCase} `{Backend} `{PyHash} (requirements : string)
    (st : threads) :
  st !! thread_id_of requirements = None ->
  run_analysis requirements st
  = (exc_bind (snd (run_from_author (analysis_input requirements)))
       (fun result => Ok (analysis_of (thread_id_of requirements) result)),
     <[thread_id_of requirements := fst (run_from_author (analysis_input requirements))]> st).
Proof.
  intros Hnone. unfold run_analysis. rewrite invoke_unknown by exact Hnone. reflexivity.
Qed.

(** X18. On a thread id that is not in the store, a [run_analysis] that
    returns has run one pass of author and critic and never falls back on
    its defaults: [loan_type] is the classification of the submitted text,
    [gaps] what the checker returned, [confidence], [outcome] (never
    "unknown") and [questions] are computed from these gaps and the
    critique, the thread is stored with the iteration counter at 1, and it
    is finished when the outcome is "complete" and paused before the gate
    otherwise. *)
Theorem run_analysis_fresh `{StrCase} `{Backend} `{PyHash} (requirements : string)
    (st st' : threads) (a : Analysis.t) :
  st !! thread_id_of requirements = None ->
  run_analysis requirements st = (Ok a, st') ->
  exists author_output critic_output cp,
    extract requirements = Ok author_output /\
    check_against_checklist author_output = Ok (Analysis.gaps a) /\
    critique author_output (Analysis.gaps a) = Ok critic_output /\
    Analysis.thread_id a = thread_id_of requirements /\
    Analysis.loan_type a = Some (detect_loan_type requirements) /\
    Analysis.structured_requirements a
      = AuthorOutput.structured_requirements author_output /\
    Analysis.critique a = CriticOutput.llm_critique critic_output /\
    Analysis.confidence a
      = PyFloat (calculate_confidence (Analysis.gaps a) (Analysis.critique a)) /\
    Analysis.outcome a
      = determine_outcome (calculate_confidence (Analysis.gaps a) (Analysis.critique a)) /\
    Analysis.outcome a <> "unknown" /\
    Analysis.questions a = generate_questions (Analysis.gaps a) default_max_questions /\
    st' = <[thread_id_of requirements := cp]> st /\
    State.iteration (Checkpoint.values cp) = Some 1 /\
    Checkpoint.next cp
      = if String.eqb (Analysis.outcome a) "complete" then Finished "end" else At gate.
Proof.
  intros Hnone. rewrite run_analysis_unknown by exact Hnone.
  destruct (run_from_author (analysis_input requirements)) as [cp [s'|e]] eqn:Hrun;
    cbn [fst snd exc_bind]; [|discriminate].
  intros [= <- <-].
  destruct (run_from_author_ok _ _ _ Hrun)
    as (raw & author_output & critic_output & Hraw & Hex & Hgaps & Hcr & Hs & Hcp).
  cbn [analysis_input State.raw_requirements] in Hraw. injection Hraw as <-.
  exists author_output, critic_output, cp.
  assert (Hloan : AuthorOutput.loan_classification author_output
                  = detect_loan_type requirements).
  { unfold extract in Hex. destruct (author_chain _ _); cbn [exc_bind] in Hex;
      [|discriminate]. injection Hex as <-. reflexivity. }
  rewrite Hs. cbn [analysis_of Analysis.gaps Analysis.thread_id Analysis.loan_type
                   Analysis.structured_requirements Analysis.critique
                   Analysis.confidence Analysis.outcome Analysis.questions
                   State.author_output State.critic_output State.confidence
                   State.outcome State.questions State.get].
  rewrite Hloan.
  repeat match goal with |- _ /\ _ => split end;
    try reflexivity; try assumption.
  - apply outcome_not_unknown.
  - rewrite Hcp, Hs. reflexivity.
  - rewrite Hcp. cbn [Checkpoint.next]. rewrite Hs.
    apply after_critic_unapproved; cbn; reflexivity || lia.
Qed.

(** The state a run returned, for the examples. *)
Definition returned (r : exc State.t) : State.t :=
  match r with
  | Ok s => s
  | Raise _ => State.empty
  end.

Lemma run_analysis_fresh_witness :
  exists a cp,
    @run_analysis ascii_case backend_down length_hash "A jumbo loan product" ∅
      = (Ok a, <["demo-20" := cp]> ∅) /\
    Analysis.thread_id a = "demo-20" /\
    Analysis.outcome a = "clarify" /\
    Checkpoint.next cp = At gate.
Proof.
  set (run := @run_from_author ascii_case backend_down
                (analysis_input "A jumbo loan product")).
  assert (Hok : snd run = Ok (returned (snd run))) by (vm_compute; reflexivity).
  assert (Hrun : @run_analysis ascii_case backend_down length_hash
                   "A jumbo loan product" ∅
                 = (Ok (analysis_of "demo-20" (returned (snd run))),
                    <["demo-20" := fst run]> ∅)).
  { rewrite run_analysis_unknown by apply lookup_empty. fold run. rewrite Hok.
    reflexivity. }
  destruct (@run_analysis_fresh ascii_case backend_down length_hash
              "A jumbo loan product" ∅ _ _ (lookup_empty _) Hrun)
    as (ao & co & cp & _ & _ & _ & Hid & _ & _ & _ & _ & _ & _ & _ & Hst & _ & Hnext).
  assert (Hout : Analysis.outcome (analysis_of "demo-20" (returned (snd run))) = "clarify")
    by (vm_compute; reflexivity).
  exists (analysis_of "demo-20" (returned (snd run))), cp.
  split; [rewrite Hrun, Hst; reflexivity|]. split; [reflexivity|].
  split; [exact Hout|]. rewrite Hnext, Hout. reflexivity.
Defined.

(** ** main.py: the operations on a known thread *)

Lemma invoke_known `{StrCase} `{Backend} (input : State.t) (thread_id : string)
    (st : threads) (cp : Checkpoint.t) :
  st !! thread_id = Some cp ->
  invoke input thread_id st
  = let s := State.update (Checkpoint.values cp) input in
    let r := match Checkpoint.next cp with
             | At gate => resume_at_gate s
             | _ => run_from_author s
             end in
    (snd r, <[thread_id := fst r]> st).
Proof.
  intros Hcp. unfold invoke, get_state. rewrite Hcp. cbn [fmap option_fmap option_map].
  destruct (Checkpoint.next cp) as [[| |]|reason]; cbn zeta;
    match goal with |- context [let '(_, _) := ?r in _] => destruct r end; reflexivity.
Qed.

(** X19. [run_analysis] writes [raw_requirements] and [iteration] only, so
    the [approved] flag of a stored thread survives it: analysing again
    under the id of a thread that was approved and is not paused before
    the gate (a finished one, say) ends with "end" and does not pause for
    review, whatever the new outcome. *)
Theorem reanalysis_of_approved_thread `{StrCase} `{Backend} `{PyHash}
    (requirements : string) (st st' : threads) (cp : Checkpoint.t) (a : Analysis.t) :
  st !! thread_id_of requirements = Some cp ->
  Checkpoint.next cp <> At gate ->
  State.approved (Checkpoint.values cp) = Some true ->
  run_analysis requirements st = (Ok a, st') ->
  exists cp',
    st' = <[thread_id_of requirements := cp']> st /\
    Checkpoint.next cp' = Finished "end" /\
    State.approved (Checkpoint.values cp') = Some true /\
    Analysis.outcome a
      = determine_outcome (calculate_confidence (Analysis.gaps a) (Analysis.critique a)).
Proof.
  intros Hcp Hnext Happroved. unfold run_analysis.
  rewrite (invoke_known _ _ _ _ Hcp). cbn zeta.
  set (s := State.update (Checkpoint.values cp) (analysis_input requirements)).
  assert (Hr : match Checkpoint.next cp with
               | At gate => resume_at_gate s
               | _ => run_from_author s
               end = run_from_author s)
    by (destruct (Checkpoint.next cp) as [[| |]|reason]; congruence).
  rewrite Hr.
  destruct (run_from_author s) as [cp' [s'|e]] eqn:Hrun; cbn [fst snd exc_bind];
    [|discriminate].
  intros [= <- <-]. exists cp'.
  destruct (run_from_author_ok _ _ _ Hrun)
    as (raw & author_output & critic_output & _ & _ & _ & _ & Hs & Hcp').
  assert (Ha : State.approved s = Some true)
    by (unfold s, State.update; cbn; exact Happroved).
  split; [reflexivity|]. rewrite Hcp'. cbn [Checkpoint.next Checkpoint.values].
  split; [|split].
  - unfold after_critic, should_continue. rewrite Hs. cbn [State.approved].
    rewrite Ha. reflexivity.
  - rewrite Hs. exact Ha.
  - rewrite Hs. reflexivity.
Qed.

(** The thread a first analysis leaves, paused before the gate, and the
    same thread once approved. *)
Definition paused_thread : Checkpoint.t :=
  fst (@run_from_author ascii_case backend_down (analysis_input "A jumbo loan product")).

Definition approved_thread : Checkpoint.t :=
  {| Checkpoint.values :=
       State.update (Checkpoint.values paused_thread) (approve_input "fine");
     Checkpoint.next := Finished "end" |}.

Lemma paused_thread_next : Checkpoint.next paused_thread = At gate.
Proof. vm_compute. reflexivity. Qed.

Lemma reanalysis_of_approved_thread_witness :
  exists a cp',
    @run_analysis ascii_case backend_down length_hash "A jumbo loan product"
      {["demo-20" := approved_thread]}
    = (Ok a, <["demo-20" := cp']> {["demo-20" := approved_thread]}) /\
    Analysis.outcome a = "clarify" /\
    Checkpoint.next cp' = Finished "end".
Proof.
  assert (Hcp : ({["demo-20" := approved_thread]} : threads)
                  !! @thread_id_of length_hash "A jumbo loan product"
                = Some approved_thread) by apply lookup_singleton_eq.
  set (run := @run_from_author ascii_case backend_down
                (State.update (Checkpoint.values approved_thread)
                   (analysis_input "A jumbo loan product"))).
  assert (Hok : snd run = Ok (returned (snd run))) by (vm_compute; reflexivity).
  assert (Hrun : @run_analysis ascii_case backend_down length_hash
                   "A jumbo loan product" {["demo-20" := approved_thread]}
                 = (Ok (analysis_of "demo-20" (returned (snd run))),
                    <["demo-20" := fst run]> {["demo-20" := approved_thread]})).
  { unfold run_analysis. rewrite (invoke_known _ _ _ _ Hcp). cbn zeta.
    change (Checkpoint.next approved_thread) with (Finished "end"). cbn iota.
    fold run. rewrite Hok. reflexivity. }
  destruct (@reanalysis_of_approved_thread ascii_case backend_down length_hash
              "A jumbo loan product" {["demo-20" := approved_thread]}
              (<["demo-20" := fst run]> {["demo-20" := approved_thread]})
              approved_thread (analysis_of "demo-20" (returned (snd run))) Hcp)
    as (cp' & Hst & Hnext & _ & Hout); [discriminate|reflexivity|exact Hrun|].
  exists (analysis_of "demo-20" (returned (snd run))), cp'.
  split; [rewrite Hrun, Hst; reflexivity|]. split; [|exact Hnext].
  vm_compute. reflexivity.
Defined.

(** X20. [reject_and_refine] on a thread paused before the gate appends the
    feedback to the stored requirements and runs author and critic again
    from the stored state.  When that pass returns, the requirements are
    the extended text, [approved] is false, the iteration counter is one
    more than before, and the thread escalates when the counter reaches 3,
    ends when the new outcome is "complete" and pauses before the gate
    otherwise. *)
Theorem reject_paused_thread `{StrCase} `{Backend} (thread_id feedback : string)
    (st : threads) (cp : Checkpoint.t) :
  st !! thread_id = Some cp ->
  Checkpoint.next cp = At gate ->
  let values := Checkpoint.values cp in
  let context := nl +:+ nl +:+ "Additional context: " +:+ feedback in
  let s := State.update values (reject_input values feedback) in
  reject_and_refine thread_id feedback st
  = (snd (run_from_author s), <[thread_id := fst (run_from_author s)]> st) /\
  State.raw_requirements s
  = Some (State.get (State.raw_requirements values) "" +:+ context) /\
  forall s',
    snd (run_from_author s) = Ok s' ->
    State.raw_requirements s'
    = Some (State.get (State.raw_requirements values) "" +:+ context) /\
    State.approved s' = Some false /\
    State.human_feedback s' = State.human_feedback values /\
    State.iteration s' = Some (State.get (State.iteration values) 0 + 1) /\
    Checkpoint.values (fst (run_from_author s)) = s' /\
    Checkpoint.next (fst (run_from_author s))
    = if State.get (State.iteration values) 0 + 1 >=? 3 then Finished "escalate"
      else if String.eqb (State.get (State.outcome s') "clarify") "complete"
           then Finished "end"
           else At gate.
Proof.
  intros Hcp Hnext values context s. unfold reject_and_refine.
  assert (Hget : get_state thread_id st = values)
    by (unfold get_state; rewrite Hcp; reflexivity).
  rewrite Hget, (invoke_known _ _ _ _ Hcp), Hnext. cbn zeta. fold values. fold s.
  unfold resume_at_gate, gate_node. rewrite update_empty.
  assert (Hgate : after_gate s = At author) by reflexivity.
  rewrite Hgate. split; [reflexivity|]. split; [reflexivity|].
  intros s' Hrun.
  destruct (run_from_author s) as [cp' r] eqn:Hr. cbn [fst snd] in *. subst r.
  destruct (run_from_author_ok _ _ _ Hr)
    as (raw & author_output & critic_output & Hraw & _ & _ & _ & Hs & Hcp').
  assert (Hraw' : raw = State.get (State.raw_requirements values) "" +:+ context)
    by (unfold s, State.update in Hraw; cbn in Hraw; injection Hraw as <-; reflexivity).
  assert (Hit : State.iteration s = State.iteration values)
    by (unfold s, State.update; cbn; reflexivity).
  rewrite Hit in Hs. rewrite Hcp'. cbn [Checkpoint.values Checkpoint.next].
  split; [rewrite Hs, Hraw'; reflexivity|].
  split; [rewrite Hs; reflexivity|].
  split; [rewrite Hs; reflexivity|].
  split; [rewrite Hs; reflexivity|].
  split; [reflexivity|].
  unfold after_critic, should_continue. rewrite Hs. cbn.
  destruct (State.get (State.iteration values) 0 + 1 >=? 3); [reflexivity|].
  destruct (String.eqb _ "complete"); [reflexivity|].
  destruct (String.eqb _ "partial"); reflexivity.
Qed.

Lemma reject_paused_thread_witness :
  exists s',
    fst (@reject_and_refine ascii_case backend_down "demo-20" "up to 2 million dollars"
           {["demo-20" := paused_thread]}) = Ok s' /\
    State.iteration s' = Some 2 /\
    State.raw_requirements s'
    = Some ("A jumbo loan product" +:+ nl +:+ nl
              +:+ "Additional context: up to 2 million dollars").
Proof.
  destruct (@reject_paused_thread ascii_case backend_down "demo-20"
              "up to 2 million dollars" {["demo-20" := paused_thread]} paused_thread)
    as (Hrun & _ & Hok); [apply lookup_singleton_eq|exact paused_thread_next|].
  set (run := @run_from_author ascii_case backend_down
                (State.update (Checkpoint.values paused_thread)
                   (reject_input (Checkpoint.values paused_thread)
                      "up to 2 million dollars"))) in *.
  assert (Hs : snd run = Ok (returned (snd run))) by (vm_compute; reflexivity).
  exists (returned (snd run)). destruct (Hok _ Hs) as (Hraw & _ & _ & Hit & _).
  rewrite Hrun. split; [exact Hs|]. split; [exact Hit|exact Hraw].
Defined.

(** ** main.py: the run after an approval *)

Lemma approved_step `{StrCase} (c c' : config) :
  step c c' ->
  approved_of (snd c) = true -> fst c <> At gate ->
  approved_of (snd c') = true /\
  (fst c' = At critic \/ fst c' = Finished "end").
Proof.
  intros Hstep. destruct Hstep as [B s u Hu|B s u Hu|d s s' u -> Hu|d s];
    cbn [fst snd]; intros Ha Hg; try congruence.
  - apply author_node_writes in Hu as [_ Hu].
    split; [|left; reflexivity].
    unfold approved_of, State.update in *. cbn. rewrite Hu. exact Ha.
  - apply critic_node_writes in Hu as [_ Hu].
    assert (Ha' : approved_of (State.update s u) = true)
      by (unfold approved_of, State.update in *; cbn; rewrite Hu; exact Ha).
    split; [exact Ha'|right].
    destruct (after_critic_cases (State.update s u))
      as [[_ He]|[(Hf & _)|[(Hf & _)|(Hf & _)]]]; congruence.
Qed.

Lemma approved_steps `{StrCase} (n : nat) (c c' : config) :
  nsteps step n c c' ->
  approved_of (snd c) = true -> fst c <> At gate ->
  approved_of (snd c') = true /\
  fst c' <> At gate /\
  forall reason, fst c' = Finished reason -> reason = "end" \/ fst c = Finished reason.
Proof.
  intros Hrun. induction Hrun as [c|n c c1 c' Hstep _ IH]; intros Ha Hg.
  - split; [exact Ha|]. split; [exact Hg|]. intros reason Hr. right. exact Hr.
  - destruct (approved_step _ _ Hstep Ha Hg) as [Ha1 Hp1].
    assert (Hg1 : fst c1 <> At gate) by (destruct Hp1 as [-> | ->]; discriminate).
    destruct (IH Ha1 Hg1) as (Ha' & Hg' & Hr').
    split; [exact Ha'|]. split; [exact Hg'|].
    intros reason Hr. destruct (Hr' reason Hr) as [He|Hf]; [left; exact He|].
    destruct Hp1 as [Hp1|Hp1]; rewrite Hp1 in Hf; [discriminate|].
    injection Hf as <-. left. reflexivity.
Qed.

(** X21. The run that goes on from an approval at the gate ends with "end".
    The transition out of the gate that writes the keys of
    [approve_and_continue] either ends the run with reason "end" or, where
    the run starts again at the entry point, leads to the author; and
    after it, for as long as that run goes on, every transition keeps
    [approved], the run does not come to the gate again, and it can finish
    with reason "end" only, never with "escalate".  This is a property of
    that run, not of the thread: a later [reject_and_refine] writes
    [approved] false and starts another run. *)
Theorem approved_run_ends `{StrCase} (s : State.t) (feedback : string)
    (c c' : config) (n : nat) :
  step (At gate, s) c ->
  snd c = State.update s (decision_input (Approve feedback) s) ->
  nsteps step n c c' ->
  (fst c = Finished "end" \/ fst c = At author) /\
  approved_of (snd c') = true /\
  fst c' <> At gate /\
  forall reason, fst c' = Finished reason -> reason = "end".
Proof.
  intros Hstep Hsnd Hrun.
  assert (Ha : approved_of (snd c) = true) by (rewrite Hsnd; reflexivity).
  assert (Hc : fst c = Finished "end" \/ fst c = At author).
  { inversion Hstep as [| |d s0 s' u Hs' Hu|d s0]; subst; cbn [fst snd] in *.
    - injection Hu as <-. rewrite update_empty in *.
      destruct (after_gate_cases (State.update s (decision_input d s))) as [He|Hg];
        [left; exact He|right; exact Hg].
    - right. reflexivity. }
  split; [exact Hc|].
  assert (Hg : fst c <> At gate) by (destruct Hc as [-> | ->]; discriminate).
  destruct (approved_steps n c c' Hrun Ha Hg) as (Ha' & Hg' & Hr).
  split; [exact Ha'|]. split; [exact Hg'|].
  intros reason Hreason. destruct (Hr reason Hreason) as [He|Hf]; [exact He|].
  destruct Hc as [Hc|Hc]; rewrite Hc in Hf; [|discriminate].
  injection Hf as <-. reflexivity.
Qed.

Lemma approved_run_ends_witness :
  let s := Checkpoint.values paused_thread in
  let c := (At author, State.update s (approve_input "fine")) in
  let r := @drive ascii_case backend_down 20 [] c in
  fst r = 2%nat /\ fst (snd r) = Finished "end" /\ approved_of (snd (snd r)) = true.
Proof.
  intros s c r. split; [vm_compute; reflexivity|]. split; [vm_compute; reflexivity|].
  destruct (@approved_run_ends ascii_case s "fine" c (snd r) (fst r)) as (_ & Ha & _).
  - exact (step_restart (Approve "fine") s).
  - reflexivity.
  - apply (@drive_nsteps ascii_case backend_down).
  - exact Ha.
Defined.
